(** * Metadata selectors, lora-hub parsing and the save-node helpers

    A shallow embedding of [modules/defs/ext/SantodanNodes.py] and of the
    pure parts of [modules/nodes/node.py], with the properties of the
    specification that concern them.

    Conventions of the embedding:
    - a Python [str] is a Rocq [string], each character being one code
      point below 256 (Latin-1); algorithms on strings run on [list ascii];
    - a Python [dict] with string keys is a [gmap string _]; a dict that is
      iterated is given by the list of its items;
    - a call that may raise returns a [result];
    - objects that the code mutates in place live in an explicit [heap]. *)

From Stdlib Require Import ZArith String Ascii List Lia DecimalString.
From Stdlib Require DecimalPos DecimalZ.
From Stdlib Require Import Floats.PrimFloat Floats.SpecFloat Floats.FloatOps.
From stdpp Require Import gmap strings list fin_maps.

Set Warnings "-register-all,-inexact-float".
Local Open Scope string_scope.
Local Open Scope list_scope.

(** ** Exceptions and results *)

Inductive exn :=
| IndexError
| TypeError
| KeyError
| AttributeError
| ValueError (msg : string)
| OtherError (msg : string).

Inductive result (A : Type) :=
| Ok (a : A)
| Raise (e : exn).
Arguments Ok {A} a.
Arguments Raise {A} e.

Definition bind {A B} (r : result A) (k : A -> result B) : result B :=
  match r with
  | Ok a => k a
  | Raise e => Raise e
  end.

Notation "'do' x <- e ; k" := (bind e (fun x => k))
  (at level 10, x name, e at level 100, k at level 200).

Fixpoint map_result {A B} (f : A -> result B) (l : list A) : result (list B) :=
  match l with
  | [] => Ok []
  | x :: l' => do y <- f x; do ys <- map_result f l'; Ok (y :: ys)
  end.

(** ** Python values *)

Inductive pyval :=
| PNone
| PBool (b : bool)
| PInt (z : Z)
| PFloat (f : float)
| PStr (s : string)
| PList (l : list pyval)
| PDict (d : gmap string pyval).

(** [bool(v)] *)
Definition py_truthy (v : pyval) : bool :=
  match v with
  | PNone => false
  | PBool b => b
  | PInt z => negb (z =? 0)%Z
  | PFloat f => negb (PrimFloat.eqb f 0%float)
  | PStr s => negb (String.eqb s "")
  | PList l => match l with [] => false | _ :: _ => true end
  | PDict d => negb (Nat.eqb (size d) 0)
  end.

(** [v == s] for a string literal [s]: only a [str] can be equal to it. *)
Definition py_eq_str (v : pyval) (s : string) : bool :=
  match v with
  | PStr t => String.eqb t s
  | _ => false
  end.

(** [v[0]] *)
Definition subscript0 (v : pyval) : result pyval :=
  match v with
  | PList (x :: _) => Ok x
  | PList [] => Raise IndexError
  | PStr (String c _) => Ok (PStr (String c ""))
  | PStr EmptyString => Raise IndexError
  | PDict _ => Raise KeyError
  | PNone | PBool _ | PInt _ | PFloat _ => Raise TypeError
  end.

(** [for x in v] *)
Definition py_iter (v : pyval) : result (list pyval) :=
  match v with
  | PList l => Ok l
  | PStr s => Ok (map (fun c => PStr (String c "")) (list_ascii_of_string s))
  | PDict d => Ok (map (fun kv => PStr (fst kv)) (map_to_list d))
  | PNone | PBool _ | PInt _ | PFloat _ => Raise TypeError
  end.

(** The resolved inputs of one node, [input_data[0]]: slot name to value. *)
Abbreviation inputs := (gmap string pyval).

(** ** Characters and strings *)

Definition chr_is (a c : ascii) : bool := Ascii.eqb a c.
Definition chr_not (a c : ascii) : bool := negb (Ascii.eqb a c).

Definition comma : ascii := ","%char.
Definition lparen : ascii := "("%char.
Definition rparen : ascii := ")"%char.
Definition percent : ascii := "%"%char.
Definition dot : ascii := "."%char.

(** [str.isspace] on one code point below 256; also the class [\s]. *)
Definition is_space (c : ascii) : bool :=
  let n := nat_of_ascii c in
  ((9 <=? n) && (n <=? 13) || (28 <=? n) && (n <=? 32) || (n =? 133) || (n =? 160))%nat.

(** ASCII digits; also the class [\d] below 256. *)
Definition is_digit (c : ascii) : bool :=
  let n := nat_of_ascii c in ((48 <=? n) && (n <=? 57))%nat.

(** [str.isdigit] on one code point below 256: the ASCII digits and the
    superscripts two, three and one. *)
Definition is_pydigit (c : ascii) : bool :=
  let n := nat_of_ascii c in
  (is_digit c || (n =? 178) || (n =? 179) || (n =? 185))%nat.

Definition is_sign (c : ascii) : bool := chr_is "+"%char c || chr_is "-"%char c.

Fixpoint lstrip (p : ascii -> bool) (s : list ascii) : list ascii :=
  match s with
  | c :: s' => if p c then lstrip p s' else s
  | [] => []
  end.

Definition rstrip (p : ascii -> bool) (s : list ascii) : list ascii :=
  rev (lstrip p (rev s)).

(** [s.strip()] and [s.strip(chars)] *)
Definition strip (p : ascii -> bool) (s : list ascii) : list ascii :=
  rstrip p (lstrip p s).

(** [s.split(sep)] for a separator of one character. *)
Fixpoint split_on (sep : ascii) (s : list ascii) : list (list ascii) :=
  match s with
  | [] => [[]]
  | c :: s' =>
      if Ascii.eqb c sep then [] :: split_on sep s'
      else match split_on sep s' with
           | w :: ws => (c :: w) :: ws
           | [] => [[c]]
           end
  end.

(** [sep.join(parts)] for a separator of one character. *)
Fixpoint join_on (sep : ascii) (parts : list (list ascii)) : list ascii :=
  match parts with
  | [] => []
  | [w] => w
  | w :: ws => w ++ sep :: join_on sep ws
  end.

Fixpoint is_prefix (p s : list ascii) : bool :=
  match p, s with
  | [], _ => true
  | a :: p', c :: s' => Ascii.eqb a c && is_prefix p' s'
  | _ :: _, [] => false
  end.

(** The scan of [s.replace(old, new)] for a non-empty [old]: [skip] counts the
    characters of an occurrence already replaced. *)
Fixpoint replace_scan (old new : list ascii) (skip : nat) (s : list ascii)
  : list ascii :=
  match s with
  | [] => []
  | c :: s' =>
      match skip with
      | S k => replace_scan old new k s'
      | O =>
          if is_prefix old s then new ++ replace_scan old new (length old - 1) s'
          else c :: replace_scan old new 0 s'
      end
  end.

(** [s.replace(old, new)] *)
Definition replace (old new s : list ascii) : list ascii :=
  match old with
  | [] => new ++ flat_map (fun c => c :: new) s
  | _ :: _ => replace_scan old new 0 s
  end.

(** [s[:n]] for [n >= 0] *)
Definition slice_to (n : nat) (s : list ascii) : list ascii := firstn n s.

(** [s[a:b]] for [0 <= a <= b] *)
Definition substring (a b : nat) (s : list ascii) : list ascii :=
  firstn (b - a) (skipn a s).

(** [s.isdigit()] *)
Definition isdigit (s : list ascii) : bool :=
  match s with
  | [] => false
  | _ :: _ => forallb is_pydigit s
  end.

Definition digit_val (c : ascii) : Z := Z.of_nat (nat_of_ascii c - 48).

Definition digits_val (s : list ascii) : Z :=
  fold_left (fun acc c => (10 * acc + digit_val c)%Z) s 0%Z.

(** [int(s)] on a string for which [isdigit] holds: a superscript digit is
    not accepted by [int]. *)
Definition py_int (s : list ascii) : result Z :=
  match s with
  | [] => Raise (ValueError "invalid literal for int()")
  | _ :: _ =>
      if forallb is_digit s then Ok (digits_val s)
      else Raise (ValueError "invalid literal for int()")
  end.

(** [str(z)] for an integer *)
Definition str_of_Z (z : Z) : string := NilZero.string_of_int (Z.to_int z).

(** [f"{n:02d}"] for [n >= 0] *)
Definition pad2 (n : nat) : string :=
  if (n <? 10)%nat then String "0"%char (str_of_Z (Z.of_nat n)) else str_of_Z (Z.of_nat n).

(** ** [float(s)] on a plain decimal literal

    The value is the binary64 number nearest to [m / 10^k] (ties to even),
    obtained by one correctly rounded division. *)

Definition float_of_decimal (neg : bool) (m : Z) (k : nat) : float :=
  match m with
  | Zpos p =>
      SF2Prim (SFdiv prec emax (S754_finite neg p 0)
                 (S754_finite false (Z.to_pos (10 ^ Z.of_nat k)) 0))
  | _ => if neg then (-0)%float else 0%float
  end.

(** Splits an unsigned literal at its first dot. *)
Fixpoint split_dot (s : list ascii) : list ascii * option (list ascii) :=
  match s with
  | [] => ([], None)
  | c :: s' =>
      if chr_is dot c then ([], Some s')
      else let '(i, f) := split_dot s' in (c :: i, f)
  end.

Definition unsigned_float (neg : bool) (s : list ascii) : result float :=
  let '(i, f) := split_dot s in
  let fr := match f with Some fr => fr | None => [] end in
  if forallb is_digit i && forallb is_digit fr
     && negb (Nat.eqb (length i + length fr) 0)
  then Ok (float_of_decimal neg (digits_val (i ++ fr)) (length fr))
  else Raise (ValueError "could not convert string to float").

(** [float(s)], on the literals [[-+]?digits[.digits]]; exponents, [inf],
    [nan] and padding, which the strength pattern never captures, are
    outside this function's domain and reported as [ValueError]. *)
Definition py_float (s : list ascii) : result float :=
  match s with
  | c :: s' =>
      if chr_is "-"%char c then unsigned_float true s'
      else if chr_is "+"%char c then unsigned_float false s'
      else unsigned_float false s
  | [] => Raise (ValueError "could not convert string to float")
  end.

(** ** Regular expressions: a backtracking matcher

    A pattern is a sequence of quantified character classes and group
    boundaries, which is what the two patterns of the repository need. The
    matcher tries the alternatives in the order of [re]: a greedy quantifier
    takes a character first and gives it back on failure, a lazy one tries
    the rest of the pattern first. *)

Inductive atom :=
| Chr (c : ascii -> bool)        (* one character of the class *)
| Opt (c : ascii -> bool)        (* c?   *)
| Star (c : ascii -> bool)       (* c*   *)
| Plus (c : ascii -> bool)       (* c+   *)
| PlusLazy (c : ascii -> bool)   (* c+?  *)
| Mark.                          (* the opening or closing of a group *)

(** The outcome of a match attempt at a position: the offsets of the group
    boundaries met, and the length of the match. *)
Definition found : Type := list nat * nat.

Definition shift (k : nat) (r : found) : found :=
  (map (Nat.add k) (fst r), k + snd r).

Definition one (c : ascii -> bool) (k : list ascii -> option found)
  (s : list ascii) : option found :=
  match s with
  | x :: s' => if c x then option_map (shift 1) (k s') else None
  | [] => None
  end.

Fixpoint greedy (c : ascii -> bool) (k : list ascii -> option found)
  (s : list ascii) : option found :=
  match s with
  | x :: s' =>
      if c x then
        match greedy c k s' with
        | Some r => Some (shift 1 r)
        | None => k s
        end
      else k s
  | [] => k s
  end.

Fixpoint lazy (c : ascii -> bool) (k : list ascii -> option found)
  (s : list ascii) : option found :=
  match k s with
  | Some r => Some r
  | None =>
      match s with
      | x :: s' => if c x then option_map (shift 1) (lazy c k s') else None
      | [] => None
      end
  end.

Fixpoint run (p : list atom) : list ascii -> option found :=
  match p with
  | [] => fun _ => Some ([], 0)
  | Mark :: p' => fun s => option_map (fun r => (0 :: fst r, snd r)) (run p' s)
  | Chr c :: p' => one c (run p')
  | Opt c :: p' =>
      fun s => match one c (run p') s with
               | Some r => Some r
               | None => run p' s
               end
  | Star c :: p' => greedy c (run p')
  | Plus c :: p' => one c (greedy c (run p'))
  | PlusLazy c :: p' => one c (lazy c (run p'))
  end.

(** The texts of the groups, from the offsets of their boundaries. *)
Fixpoint groups (marks : list nat) (s : list ascii) : list (list ascii) :=
  match marks with
  | a :: b :: rest => substring a b s :: groups rest s
  | _ => []
  end.

(** [re.findall(p, s)]: the groups of the successive non-overlapping matches,
    leftmost first, for a pattern that matches no empty text (as both
    patterns of the repository). [skip] counts the characters of the last
    match that are still to be passed. *)
Fixpoint scan (p : list atom) (skip : nat) (s : list ascii)
  : list (list (list ascii)) :=
  match s with
  | [] => []
  | _ :: s' =>
      match skip with
      | S k => scan p k s'
      | O =>
          match run p s with
          | Some (marks, len) => groups marks s :: scan p (len - 1) s'
          | None => scan p 0 s'
          end
      end
  end.

Definition findall (p : list atom) (s : list ascii) : list (list (list ascii)) :=
  scan p 0 s.

(** ** [modules/defs/ext/SantodanNodes.py] *)

(** Modelled from the spec: the enumeration [MetaField] of [..meta], which
    is not part of the sources at hand; only the members this module uses. *)
Inductive MetaField :=
| MODEL_NAME | MODEL_HASH | VAE_NAME | VAE_HASH
| LORA_MODEL_NAME | LORA_MODEL_HASH | LORA_STRENGTH_MODEL | LORA_STRENGTH_CLIP.

(** A key of the capture table: a [MetaField] member or a plain string. *)
Inductive field_key :=
| Meta (m : MetaField)
| Named (s : string).

#[global] Instance MetaField_eq_dec : EqDecision MetaField.
Proof. solve_decision. Defined.
#[global] Instance field_key_eq_dec : EqDecision field_key.
Proof. solve_decision. Defined.

(** A selector receives [(node_id, obj, prompt, extra_data, outputs,
    input_data)] and reads [input_data[0]] only; the embedding passes that
    mapping. *)
Definition selector : Type := inputs -> result pyval.

(** [input_data[0].get(key, [None])[0]] *)
Definition get_slot0 (input_data : inputs) (key : string) : result pyval :=
  subscript0 (default (PList [PNone]) (input_data !! key)).

(** [input_data[0].get("load_mode", ["full_checkpoint"])[0]] *)
Definition load_mode (input_data : inputs) : result pyval :=
  subscript0 (default (PList [PStr "full_checkpoint"]) (input_data !! "load_mode")).

Record lora_entry := { name : string; strength : float }.

(** r"([^,]+?)\s\(([-+]?\d*\.?\d+)\)" *)
Definition lora_pattern : list atom :=
  [ Mark; PlusLazy (chr_not comma); Mark;
    Chr is_space; Chr (chr_is lparen);
    Mark; Opt is_sign; Star is_digit; Opt (chr_is dot); Plus is_digit; Mark;
    Chr (chr_is rparen) ].

(** The body of the loop over the matches of one slot. *)
Definition entry_of_match (m : list (list ascii)) : result lora_entry :=
  match m with
  | [g1; g2] =>
      do f <- py_float g2;
      Ok {| name := string_of_list_ascii (strip is_space g1); strength := f |}
  | _ => Raise IndexError
  end.

(** The matches of one slot and the loop over them, on the characters of
    the slot's string. *)
Definition entries_of_text (lora_str : list ascii) : result (list lora_entry) :=
  map_result entry_of_match (findall lora_pattern lora_str).

Definition entries_of_string (lora_str : string) : result (list lora_entry) :=
  entries_of_text (list_ascii_of_string lora_str).

(** One turn of the loop of [parse_lora_hub_data], for the slot [loras_i]. *)
Definition parse_slot (input_data : inputs) (i : nat) : result (list lora_entry) :=
  let key := "loras_" +:+ str_of_Z (Z.of_nat i) in
  let lora_str := default (PStr "") (input_data !! key) in
  do lora_str <- match lora_str with
                 | PList _ => subscript0 lora_str
                 | _ => Ok lora_str
                 end;
  match lora_str with
  | PStr s => if py_truthy lora_str then entries_of_string s else Ok []
  | _ => Ok []
  end.

Fixpoint parse_slots (input_data : inputs) (slots : list nat)
  (all_loras : list lora_entry) : result (list lora_entry) :=
  match slots with
  | [] => Ok all_loras
  | i :: rest =>
      do found_here <- parse_slot input_data i;
      parse_slots input_data rest (all_loras ++ found_here)
  end.

Definition parse_lora_hub_data (input_data : inputs) : result (list lora_entry) :=
  parse_slots input_data [1; 2; 3; 4]%nat [].

Definition get_hub_lora_names : selector := fun input_data =>
  do data <- parse_lora_hub_data input_data;
  Ok (match data with
      | [] => PNone
      | _ :: _ => PList (map (fun d => PStr (name d)) data)
      end).

Definition get_hub_lora_strengths : selector := fun input_data =>
  do data <- parse_lora_hub_data input_data;
  Ok (match data with
      | [] => PNone
      | _ :: _ => PList (map (fun d => PFloat (strength d)) data)
      end).

Section Selectors.

(** The hash functions of [..formatters], which are not part of the
    sources at hand: any of them may raise. [calc_clip_hash] is the
    imported function or the fallback below. *)
Variable calc_model_hash : pyval -> result pyval.
Variable calc_vae_hash : pyval -> result pyval.
Variable calc_clip_hash : pyval -> result pyval.
Variable calc_lora_hash : string -> inputs -> result pyval.

Definition get_model_name : selector := fun input_data =>
  do mode <- load_mode input_data;
  let key := if py_eq_str mode "full_checkpoint" then "ckpt_name" else "base_model" in
  get_slot0 input_data key.

Definition get_model_hash : selector := fun input_data =>
  do model_name <- get_model_name input_data;
  if py_truthy model_name then calc_model_hash model_name else Ok PNone.

Definition get_vae_name : selector := fun input_data =>
  do mode <- load_mode input_data;
  if py_eq_str mode "separate_components" then get_slot0 input_data "vae_model"
  else Ok PNone.

Definition get_vae_hash : selector := fun input_data =>
  do vae_name <- get_vae_name input_data;
  if py_truthy vae_name then calc_vae_hash vae_name else Ok PNone.

(** The loop of [get_clip_names] over the three clip slots. *)
Fixpoint collect_clip_names (input_data : inputs) (keys : list string)
  (clip_names : list pyval) : result (list pyval) :=
  match keys with
  | [] => Ok clip_names
  | key :: rest =>
      do name <- get_slot0 input_data key;
      collect_clip_names input_data rest
        (if py_truthy name && negb (py_eq_str name "None")
         then clip_names ++ [name] else clip_names)
  end.

Definition get_clip_names : selector := fun input_data =>
  do mode <- load_mode input_data;
  if py_eq_str mode "separate_components" then
    do clip_names <- collect_clip_names input_data
                       ["clip_model_1"; "clip_model_2"; "clip_model_3"] [];
    Ok (if py_truthy (PList clip_names) then PList clip_names else PNone)
  else Ok PNone.

Definition get_clip_hashes : selector := fun input_data =>
  do names <- get_clip_names input_data;
  if py_truthy names then
    do l <- py_iter names;
    do hashes <- map_result calc_clip_hash l;
    Ok (PList hashes)
  else Ok PNone.

Definition get_clip_type : selector := fun input_data =>
  do mode <- load_mode input_data;
  if py_eq_str mode "separate_components" then get_slot0 input_data "clip_type"
  else Ok PNone.

Definition get_unet_dtype : selector := fun input_data =>
  do mode <- load_mode input_data;
  if py_eq_str mode "separate_components" then get_slot0 input_data "weight_dtype"
  else Ok PNone.

Definition get_metadata_field (field_name : string) : selector := fun input_data =>
  do metadata_dict <- get_slot0 input_data "metadata";
  match metadata_dict with
  | PDict d => if py_truthy metadata_dict then Ok (default PNone (d !! field_name))
               else Ok PNone
  | _ => Ok PNone
  end.

(** The [try ... except] around the hash of one entry. *)
Definition hash_or_none (input_data : inputs) (d : lora_entry) : pyval :=
  match calc_lora_hash (name d) input_data with
  | Ok h => if py_truthy h then h else PNone
  | Raise _ => PNone
  end.

Definition get_hub_lora_hashes : selector := fun input_data =>
  do data <- parse_lora_hub_data input_data;
  match data with
  | [] => Ok PNone
  | _ :: _ => Ok (PList (map (hash_or_none input_data) data))
  end.

(** The table [CAPTURE_FIELD_LIST]: per node kind, the fields in the order
    of their declaration, each with its selector. *)
Definition CAPTURE_FIELD_LIST : list (string * list (field_key * selector)) :=
  [ ("ModelAssembler",
      [ (Meta MODEL_NAME, get_model_name);
        (Meta MODEL_HASH, get_model_hash);
        (Meta VAE_NAME, get_vae_name);
        (Meta VAE_HASH, get_vae_hash);
        (Named "Clip Model Name(s)", get_clip_names);
        (Named "Clip Model Hash(es)", get_clip_hashes);
        (Named "Clip Type", get_clip_type);
        (Named "UNet Weight Type", get_unet_dtype) ]);
    ("ModelAssemblerMetadata",
      [ (Meta MODEL_NAME, get_metadata_field "model_name");
        (Meta MODEL_HASH, get_metadata_field "model_hash");
        (Meta VAE_NAME, get_metadata_field "vae_name");
        (Meta VAE_HASH, get_metadata_field "vae_hash");
        (Named "Clip Model Name(s)", get_metadata_field "clip_names");
        (Named "Clip Model Hash(es)", get_metadata_field "clip_hashes");
        (Named "Clip Type", get_metadata_field "clip_type");
        (Named "UNet Weight Type", get_metadata_field "unet_dtype") ]);
    ("LoraMetadataHub",
      [ (Meta LORA_MODEL_NAME, get_hub_lora_names);
        (Meta LORA_MODEL_HASH, get_hub_lora_hashes);
        (Meta LORA_STRENGTH_MODEL, get_hub_lora_strengths);
        (Meta LORA_STRENGTH_CLIP, get_hub_lora_strengths) ]) ].

(** [d.get(k)] on a dict given by its items. *)
Fixpoint assoc {K V} `{EqDecision K} (k : K) (l : list (K * V)) : option V :=
  match l with
  | [] => None
  | (k', v) :: l' => if decide (k = k') then Some v else assoc k l'
  end.

(** [CAPTURE_FIELD_LIST[kind][field]["selector"]], when registered. *)
Definition selector_of (kind : string) (field : field_key) : option selector :=
  match assoc kind CAPTURE_FIELD_LIST with
  | Some fields => assoc field fields
  | None => None
  end.

End Selectors.

(** ** [modules/nodes/node.py] *)

(** *** Objects mutated in place *)

Abbreviation loc := nat.

(** The two kinds of mutable objects of the save path: a dict (the parameter
    record and its copies) and a [PngInfo], the list of its text chunks. *)
Inductive obj :=
| ODict (d : gmap string pyval)
| OPngInfo (chunks : list (string * string)).

Abbreviation heap := (gmap loc obj).

(** A computation on the heap that may raise; the heap is kept on a raise. *)
Definition M (A : Type) : Type := heap -> result A * heap.

Definition ret {A} (a : A) : M A := fun h => (Ok a, h).
Definition fail {A} (e : exn) : M A := fun h => (Raise e, h).
Definition lift {A} (r : result A) : M A := fun h => (r, h).

Definition mbind {A B} (m : M A) (k : A -> M B) : M B :=
  fun h => match m h with
           | (Ok a, h') => k a h'
           | (Raise e, h') => (Raise e, h')
           end.

Notation "'exec' x <- e ; k" := (mbind e (fun x => k))
  (at level 10, x name, e at level 100, k at level 200).

(** [d.copy()]: a new dict object with the items of [d]. *)
Definition dict_copy (d : loc) : M loc := fun h =>
  match h !! d with
  | Some (ODict items) => let l := fresh (dom h) in (Ok l, <[l := ODict items]> h)
  | _ => (Raise AttributeError, h)
  end.

(** [d[k] = v] *)
Definition dict_setitem (d : loc) (k : string) (v : pyval) : M unit := fun h =>
  match h !! d with
  | Some (ODict items) => (Ok tt, <[d := ODict (<[k := v]> items)]> h)
  | _ => (Raise TypeError, h)
  end.

(** The items of the dict at [d], to pass it to a function that reads it. *)
Definition dict_read (d : loc) : M (gmap string pyval) := fun h =>
  match h !! d with
  | Some (ODict items) => (Ok items, h)
  | _ => (Raise TypeError, h)
  end.

(** [metadata.add_text(k, v)] *)
Definition add_text (metadata : loc) (k v : string) : M unit := fun h =>
  match h !! metadata with
  | Some (OPngInfo chunks) => (Ok tt, <[metadata := OPngInfo (chunks ++ [(k, v)])]> h)
  | _ => (Raise AttributeError, h)
  end.

Fixpoint for_each {A} (f : A -> M unit) (l : list A) : M unit :=
  match l with
  | [] => ret tt
  | x :: l' => exec _ <- f x; for_each f l'
  end.

(** [datetime.now()], read once by [format_filename]. *)
Record datetime := {
  year : nat; month : nat; day : nat; hour : nat; minute : nat; second : nat
}.

(** [os.path.basename] of [posixpath]. *)
Fixpoint basename (p : list ascii) : list ascii :=
  match p with
  | [] => []
  | c :: p' => if existsb (chr_is "/"%char) p' then basename p'
               else if chr_is "/"%char c then p' else p
  end.

(** The index of the last dot of [s], counted from [i]. *)
Fixpoint rfind_dot (i : nat) (s : list ascii) : option nat :=
  match s with
  | [] => None
  | c :: s' =>
      match rfind_dot (S i) s' with
      | Some j => Some j
      | None => if chr_is dot c then Some i else None
      end
  end.

(** [os.path.splitext(p)[0]] for a [p] without directory part: the extension
    starts at the last dot, unless only dots come before it. *)
Definition splitext_root (p : list ascii) : list ascii :=
  match rfind_dot 0 p with
  | Some dotIndex =>
      if forallb (chr_is dot) (firstn dotIndex p) then p else firstn dotIndex p
  | None => p
  end.

Section Node.

(** What the interpreter and the other modules provide: [str()] of floats
    and containers, [json.dumps] and [Capture.gen_parameters_str]. *)
Variable py_repr : pyval -> string.
Variable json_dumps : pyval -> result string.
Variable gen_parameters_str : gmap string pyval -> result string.

(** [str(v)] *)
Definition py_str (v : pyval) : string :=
  match v with
  | PNone => "None"
  | PBool true => "True"
  | PBool false => "False"
  | PInt z => str_of_Z z
  | PStr s => s
  | PFloat _ | PList _ | PDict _ => py_repr v
  end.

(** [json.dumps(v) if not isinstance(v, str) else v] *)
Definition text_of (v : pyval) : result string :=
  match v with
  | PStr s => Ok s
  | _ => json_dumps v
  end.

(** [prepare_pnginfo]; [extra_pnginfo] is [None] or a dict given by its
    items in order. The result is [None] or the reference [metadata]. *)
Definition prepare_pnginfo (metadata pnginfo_dict : loc)
  (batch_number total_images : nat) (prompt : option pyval)
  (extra_pnginfo : option (list (string * pyval))) (metadata_scope : string)
  : M (option loc) :=
  if String.eqb metadata_scope "none" then ret None
  else
    exec pnginfo_copy <- dict_copy pnginfo_dict;
    exec _ <- (if (1 <? total_images)%nat then
                exec _ <- dict_setitem pnginfo_copy "Batch index"
                           (PInt (Z.of_nat batch_number));
                dict_setitem pnginfo_copy "Batch size" (PInt (Z.of_nat total_images))
              else ret tt);
    exec _ <- (if String.eqb metadata_scope "full" then
                exec record <- dict_read pnginfo_copy;
                exec parameters <- lift (gen_parameters_str record);
                add_text metadata "parameters" parameters
              else ret tt);
    exec _ <- (match prompt with
              | Some p =>
                  if negb (String.eqb metadata_scope "workflow_only") then
                    exec text <- lift (json_dumps p);
                    add_text metadata "prompt" text
                  else ret tt
              | None => ret tt
              end);
    exec _ <- (match extra_pnginfo with
              | Some ((_ :: _) as items) =>
                  for_each (fun kv =>
                              exec value_to_add <- lift (text_of (snd kv));
                              add_text metadata (fst kv) value_to_add) items
              | _ => ret tt
              end);
    ret (Some metadata).

(** The loop of [save_images] that adds the user's extra metadata, a dict
    given by its items, to what [prepare_pnginfo] returned:
    [if k: metadata.add_text(k, v if isinstance(v, str) else json.dumps(v))]. *)
Definition add_extra_metadata (metadata : option loc)
  (extra_metadata : list (string * pyval)) : M unit :=
  for_each (fun kv =>
              if negb (String.eqb (fst kv) "") then
                match metadata with
                | Some m =>
                    exec text <- lift (text_of (snd kv));
                    add_text m (fst kv) text
                | None => fail AttributeError
                end
              else ret tt) extra_metadata.

(** The metadata of one image, as the loop of [save_images] builds it. *)
Definition image_metadata (pnginfo pnginfo_dict : loc) (batch_number total_images : nat)
  (prompt : option pyval) (extra_pnginfo : option (list (string * pyval)))
  (metadata_scope : string) (extra_metadata : list (string * pyval))
  : M (option loc) :=
  exec metadata <- prepare_pnginfo pnginfo pnginfo_dict
                     batch_number total_images prompt extra_pnginfo metadata_scope;
  exec _ <- add_extra_metadata metadata extra_metadata;
  ret metadata.

(** The part of the body of the loop of [save_images] that builds the
    metadata, once per image and each time on the same [pnginfo] and
    [pnginfo_dict]: the call of [prepare_pnginfo] and the loop over the
    user's extra metadata; the rest of the body writes the files. *)
Fixpoint prepare_batch (pnginfo pnginfo_dict : loc) (batch_numbers : list nat)
  (total_images : nat) (prompt : option pyval)
  (extra_pnginfo : option (list (string * pyval))) (metadata_scope : string)
  (extra_metadata : list (string * pyval)) : M unit :=
  match batch_numbers with
  | [] => ret tt
  | batch_number :: rest =>
      exec _ <- image_metadata pnginfo pnginfo_dict batch_number total_images
                 prompt extra_pnginfo metadata_scope extra_metadata;
      prepare_batch pnginfo pnginfo_dict rest total_images prompt
        extra_pnginfo metadata_scope extra_metadata
  end.

(** r"(%[^%]+%)" *)
Definition pattern_format : list atom :=
  [ Mark; Chr (chr_is percent); Plus (chr_not percent); Chr (chr_is percent); Mark ].

Variable now : datetime.

Definition date_table : list (string * string) :=
  [ ("yyyy", str_of_Z (Z.of_nat (year now)));
    ("MM", pad2 (month now));
    ("dd", pad2 (day now));
    ("hh", pad2 (hour now));
    ("mm", pad2 (minute now));
    ("ss", pad2 (second now)) ].

(** A method of [str] called on [v]: [AttributeError] on another type. *)
Definition as_str (v : pyval) : result (list ascii) :=
  match v with
  | PStr s => Ok (list_ascii_of_string s)
  | _ => Raise AttributeError
  end.

(** [int(parts[1]) if len(parts) > 1 and parts[1].isdigit() else None] *)
Definition length_of (parts : list (list ascii)) : result (option Z) :=
  match parts with
  | _ :: p1 :: _ => if isdigit p1 then do n <- py_int p1; Ok (Some n) else Ok None
  | _ => Ok None
  end.

(** [s[:length] if length else s] *)
Definition truncate (length : option Z) (s : list ascii) : list ascii :=
  match length with
  | Some n => if (n =? 0)%Z then s else slice_to (Z.to_nat n) s
  | None => s
  end.

Definition key_is (key : list ascii) (s : string) : bool :=
  String.eqb (string_of_list_ascii key) s.

(** The body of the loop of [format_filename] for one [segment]. *)
Definition format_segment (pnginfo_dict : gmap string pyval)
  (filename segment : list ascii) : result (list ascii) :=
  let parts := split_on ":"%char (strip (chr_is percent) segment) in
  let key := match parts with k :: _ => k | [] => [] end in
  if key_is key "seed" then
    Ok (replace segment
          (list_ascii_of_string (py_str (default (PStr "") (pnginfo_dict !! "Seed"))))
          filename)
  else if key_is key "width" || key_is key "height" then
    do size_str <- as_str (default (PStr "x") (pnginfo_dict !! "Size"));
    let size := split_on "x"%char size_str in
    do value <- (if key_is key "width" then
                   match size with v :: _ => Ok v | [] => Raise IndexError end
                 else
                   match size with _ :: v :: _ => Ok v | _ => Raise IndexError end);
    Ok (replace segment value filename)
  else if key_is key "pprompt" || key_is key "nprompt" then
    let field := if key_is key "pprompt" then "Positive prompt" else "Negative prompt" in
    do raw <- as_str (default (PStr "") (pnginfo_dict !! field));
    let prompt := replace [ascii_of_nat 10] [" "%char] raw in
    do length <- length_of parts;
    Ok (replace segment (strip is_space (truncate length prompt)) filename)
  else if key_is key "model" then
    do path <- match default (PStr "") (pnginfo_dict !! "Model") with
               | PStr s => Ok (list_ascii_of_string s)
               | _ => Raise TypeError
               end;
    let model := splitext_root (basename path) in
    do length <- length_of parts;
    Ok (replace segment (truncate length model) filename)
  else if key_is key "date" then
    let date_format :=
      match parts with
      | _ :: p1 :: _ => p1
      | _ => list_ascii_of_string "yyyyMMddhhmmss"
      end in
    let date_format :=
      fold_left (fun fmt kv => replace (list_ascii_of_string (fst kv))
                                 (list_ascii_of_string (snd kv)) fmt)
        date_table date_format in
    Ok (replace segment date_format filename)
  else Ok filename.

Fixpoint format_segments (pnginfo_dict : gmap string pyval)
  (filename : list ascii) (segments : list (list ascii)) : result (list ascii) :=
  match segments with
  | [] => Ok filename
  | segment :: rest =>
      do filename <- format_segment pnginfo_dict filename segment;
      format_segments pnginfo_dict filename rest
  end.

Definition format_filename (filename : string) (pnginfo_dict : gmap string pyval)
  : result string :=
  let text := list_ascii_of_string filename in
  let result := map (fun m => match m with g :: _ => g | [] => [] end)
                    (findall pattern_format text) in
  do out <- format_segments pnginfo_dict text result;
  Ok (string_of_list_ascii out).

End Node.

(** The fallback [calc_clip_hash] of [SantodanNodes.py], defined when the
    import fails: [f"hash_for_{name}"]. *)
Definition calc_clip_hash_fallback (py_repr : pyval -> string) (name : pyval)
  : result pyval :=
  Ok (PStr ("hash_for_" +:+ py_str py_repr name)).

(** *** [CreateExtraMetaData.create_extra_metadata] *)

(** [bool(x)] for [x] a string or [None] (a keyword that was not passed). *)
Definition given (x : option string) : bool :=
  match x with
  | Some s => negb (String.eqb s "")
  | None => false
  end.

Definition slot_name (type : string) (i : nat) : string :=
  type +:+ str_of_Z (Z.of_nat i).

(** The body of the loop for the slot [i]; the inputs [key1 .. value4] are
    strings, and a keyword that was not passed reads as [None]. *)
Definition extra_slot (keys_values : gmap string string) (i : nat)
  (extra_metadata : gmap string string) : result (gmap string string) :=
  let key := keys_values !! slot_name "key" i in
  let value := keys_values !! slot_name "value" i in
  if given key then
    Ok (<[default "" key := if given value then default "" value else ""]>
          extra_metadata)
  else if given value then
    Raise (ValueError ("Value provided for '" +:+ slot_name "value" i
                       +:+ "' without corresponding '" +:+ slot_name "key" i +:+ "'."))
  else Ok extra_metadata.

Fixpoint extra_slots (keys_values : gmap string string) (slots : list nat)
  (extra_metadata : gmap string string) : result (gmap string string) :=
  match slots with
  | [] => Ok extra_metadata
  | i :: rest =>
      do extra_metadata <- extra_slot keys_values i extra_metadata;
      extra_slots keys_values rest extra_metadata
  end.

Definition create_extra_metadata (extra_metadata : option (gmap string string))
  (keys_values : gmap string string) : result (gmap string string) :=
  extra_slots keys_values [1; 2; 3; 4]%nat (default ∅ extra_metadata).

(** The slots a selector of the single-checkpoint loader reads. *)
Definition slots_read (field : field_key) : list string :=
  match field with
  | Meta MODEL_NAME | Meta MODEL_HASH => ["load_mode"; "ckpt_name"; "base_model"]
  | Meta VAE_NAME | Meta VAE_HASH => ["load_mode"; "vae_model"]
  | Named "Clip Type" => ["load_mode"; "clip_type"]
  | Named "UNet Weight Type" => ["load_mode"; "weight_dtype"]
  | _ => ["load_mode"; "clip_model_1"; "clip_model_2"; "clip_model_3"]
  end.

(** The fields of the single-checkpoint loader that depend on the mode. *)
Definition gated_fields : list field_key :=
  [ Meta VAE_NAME; Meta VAE_HASH; Named "Clip Model Name(s)";
    Named "Clip Model Hash(es)"; Named "Clip Type"; Named "UNet Weight Type" ].

(** In the words of the specification: a hash selector is the hash function
    applied to the result of the name selector when that result is not null,
    and null otherwise. *)
Definition hash_of_non_null (calc : pyval -> result pyval) (name_selector : selector)
  : selector := fun input_data =>
  do n <- name_selector input_data;
  match n with
  | PNone => Ok PNone
  | _ => calc n
  end.

(** In the words of the specification: the hash function mapped over the
    result of the names selector, null when that result is null. *)
Definition hashes_of_non_null (calc : pyval -> result pyval) (names_selector : selector)
  : selector := fun input_data =>
  do names <- names_selector input_data;
  match names with
  | PNone => Ok PNone
  | _ => do l <- py_iter names; do hashes <- map_result calc l; Ok (PList hashes)
  end.

(** *** The other helpers of [SaveImageWithMetaData] *)

(** [s.endswith(suffix)] *)
Definition endswith (suffix s : list ascii) : bool :=
  is_prefix (rev suffix) (rev s).

Definition parse_output_format (output_format : string) : string * bool :=
  let text := list_ascii_of_string output_format in
  let suffix := list_ascii_of_string "_with_json" in
  let save_workflow_json := endswith suffix text in
  let base_format := replace suffix [] text in
  (string_of_list_ascii base_format, save_workflow_json).

(** [{"max": 100, "high": 80, "medium": 60, "low": 30}.get(quality, 100)];
    a list or a dict cannot be looked up, not being hashable. *)
Definition get_quality_value (quality : pyval) : result Z :=
  match quality with
  | PStr s =>
      Ok (default 100%Z
            (assoc s [("max", 100%Z); ("high", 80%Z); ("medium", 60%Z); ("low", 30%Z)]))
  | PList _ | PDict _ => Raise TypeError
  | PNone | PBool _ | PInt _ | PFloat _ => Ok 100%Z
  end.

(** The argument [lossless=(quality_value == 100)] of the WEBP save. *)
Definition webp_lossless (quality : pyval) : result bool :=
  do quality_value <- get_quality_value quality;
  Ok (quality_value =? 100)%Z.

(** [f"{filename}_{counter}"] *)
Definition numbered (filename : string) (counter : nat) : string :=
  filename +:+ "_" +:+ str_of_Z (Z.of_nat counter).

(** The loop [while f"{filename}_{counter}" in existing_files: counter += 1]
    of [find_next_available_filename], for at most [fuel] turns; the stems
    that [glob] finds are given as the set [existing_files]. *)
Fixpoint next_counter (existing_files : gset string) (filename : string)
  (fuel counter : nat) : option nat :=
  match fuel with
  | O => None
  | S fuel' =>
      if decide (numbered filename counter ∈ existing_files)
      then next_counter existing_files filename fuel' (S counter)
      else Some counter
  end.

Definition find_next_available_filename (existing_files : gset string)
  (filename base_format : string) (fuel : nat) : option string :=
  match next_counter existing_files filename fuel 1 with
  | Some counter => Some (numbered filename counter +:+ "." +:+ base_format)
  | None => None
  end.

(** ** Vocabulary of the properties *)

(** A raise of a loader selector that comes from a slot of malformed type:
    the slot is present and its value is not a non-empty list, so that
    reading its first element raises. *)
Definition raised_on_malformed (input_data : inputs) (slots : list string)
  (e : exn) : Prop :=
  exists k v, In k slots /\ input_data !! k = Some v
    /\ (forall x rest, v <> PList (x :: rest))
    /\ subscript0 v = Raise e.

(** A raise that comes from the hash function [calc], called on the name
    read from a slot that is present. *)
Definition raised_by_hash (calc : pyval -> result pyval) (input_data : inputs)
  (slots : list string) (e : exn) : Prop :=
  exists k v nm, In k slots /\ input_data !! k = Some v
    /\ subscript0 v = Ok nm /\ py_truthy nm = true /\ calc nm = Raise e.

(** A hash function that finds no file. *)
Definition failing_hash (name : pyval) : result pyval :=
  Raise (OtherError "file not found").

(** The slot [i] writes the key [k]. *)
Definition writes (keys_values : gmap string string) (i : nat) (k : string) : Prop :=
  keys_values !! slot_name "key" i = Some k /\ k <> "".

(** A computation that leaves every dict object of the heap as it is. *)
Definition keeps_dicts {A} (m : M A) : Prop :=
  forall h r h', m h = (r, h') ->
    forall l d, h !! l = Some (ODict d) -> h' !! l = Some (ODict d).

(** The record the copy holds once the batch fields are set. *)
Definition with_batch_fields (batch_number total_images : nat)
  (record : gmap string pyval) : gmap string pyval :=
  <["Batch size" := PInt (Z.of_nat total_images)]>
    (<["Batch index" := PInt (Z.of_nat batch_number)]> record).

(** The heap right after the copy and the two assignments. *)
Definition heap_after_copy (h : heap) (record : gmap string pyval)
  (batch_number total_images : nat) : heap :=
  <[fresh (dom h) :=
      ODict (if (1 <? total_images)%nat
             then with_batch_fields batch_number total_images record
             else record)]> h.

(** The record [{Seed: "12345", Size: "512x768", Model: "path/to/myModel.safetensors"}]. *)
Definition sample_record : gmap string pyval :=
  {[ "Seed" := PStr "12345";
     "Size" := PStr "512x768";
     "Model" := PStr "path/to/myModel.safetensors" ]}.

(** The class of an atom does not accept the character [b]. *)
Definition rejects (b : ascii) (a : atom) : Prop :=
  match a with
  | Mark => True
  | Chr c | Opt c | Star c | Plus c | PlusLazy c => c b = false
  end.

(** [matches p w marks]: the text [w] is an instance of the pattern [p],
    with the group boundaries at the offsets [marks]. *)
Inductive matches : list atom -> list ascii -> list nat -> Prop :=
| matches_nil : matches [] [] []
| matches_mark p w ms :
    matches p w ms -> matches (Mark :: p) w (0 :: ms)
| matches_chr c p x w ms :
    c x = true -> matches p w ms ->
    matches (Chr c :: p) (x :: w) (map (Nat.add 1) ms)
| matches_opt_some c p x w ms :
    c x = true -> matches p w ms ->
    matches (Opt c :: p) (x :: w) (map (Nat.add 1) ms)
| matches_opt_none c p w ms :
    matches p w ms -> matches (Opt c :: p) w ms
| matches_star c p u w ms :
    forallb c u = true -> matches p w ms ->
    matches (Star c :: p) (u ++ w) (map (Nat.add (length u)) ms)
| matches_plus c p x u w ms :
    c x = true -> forallb c u = true -> matches p w ms ->
    matches (Plus c :: p) (x :: u ++ w) (map (Nat.add (S (length u))) ms)
| matches_plus_lazy c p x u w ms :
    c x = true -> forallb c u = true -> matches p w ms ->
    matches (PlusLazy c :: p) (x :: u ++ w) (map (Nat.add (S (length u))) ms).

(** The texts of [[-+]?\d*\.?\d+]. *)
Definition number (num : list ascii) : Prop :=
  exists sg ip dt fp,
    num = sg ++ ip ++ dt ++ fp
    /\ (sg = [] \/ sg = ["+"%char] \/ sg = ["-"%char])
    /\ forallb is_digit ip = true
    /\ (dt = [] \/ dt = [dot])
    /\ forallb is_digit fp = true /\ fp <> [].

(** The text holds a strength: a number in parentheses after a space. *)
Definition has_strength (s : list ascii) : Prop :=
  exists pre w num post,
    s = pre ++ w :: lparen :: num ++ rparen :: post
    /\ is_space w = true /\ number num.

(** The pattern from the sign on. *)
Definition number_tail : list atom :=
  [ Opt is_sign; Star is_digit; Opt (chr_is dot); Plus is_digit; Mark;
    Chr (chr_is rparen) ].

(** The pattern after the first group. *)
Definition strength_tail : list atom :=
  Mark :: Chr is_space :: Chr (chr_is lparen) :: Mark :: number_tail.

(** The characters a number is made of. *)
Definition numchar (c : ascii) : bool := is_sign c || is_digit c || chr_is dot c.

(** Every "(" of the text is followed by a character that no number holds,
    or by nothing. *)
Fixpoint no_number_in_parentheses (s : list ascii) : bool :=
  match s with
  | [] => true
  | c :: s' =>
      (if chr_is lparen c
       then match s' with
            | d :: _ => negb (numchar d)
            | [] => true
            end
       else true)
      && no_number_in_parentheses s'
  end.

(** A hash function that never fails and never returns None. *)
Definition constant_hash (name : pyval) : result pyval := Ok (PStr "0123456789").

(** A loader node whose checkpoint name is the empty string. *)
Definition empty_name_inputs : inputs := {[ "ckpt_name" := PList [PStr ""] ]}.

(** A heap with a parameter record at 0 and a [PngInfo] at 1. *)
Definition sample_heap : heap :=
  {[ 0 := ODict sample_record; 1 := OPngInfo [] ]}.

Definition no_text (v : pyval) : result string := Ok "".

Definition no_parameters (record : gmap string pyval) : result string := Ok "".

(** A lora hash function that fails on the file "a". *)
Definition partial_lora_hash (name : string) (input_data : inputs) : result pyval :=
  if String.eqb name "a" then Raise (OtherError "file not found")
  else Ok (PStr "0123456789").

Definition two_loras : inputs := {[ "loras_1" := PStr "a (1), b (2)" ]}.

Definition full_checkpoint_inputs : inputs :=
  {[ "load_mode" := PList [PStr "full_checkpoint"];
     "ckpt_name" := PList [PStr "model.safetensors"];
     "vae_model" := PList [PStr "vae.safetensors"] ]}.

Definition only_ckpt_inputs : inputs :=
  {[ "ckpt_name" := PList [PStr "model.safetensors"] ]}.

(** The text chunks one call of [prepare_pnginfo] adds for a scope other
    than "none", computed from the record without a heap: the parameters of
    the record with its batch fields, the prompt, the extra items. *)
Definition call_chunks (json_dumps : pyval -> result string)
  (gen_parameters_str : gmap string pyval -> result string)
  (record : gmap string pyval) (batch_number total_images : nat)
  (prompt : option pyval) (extra_pnginfo : option (list (string * pyval)))
  (metadata_scope : string) : result (list (string * string)) :=
  let copy := if (1 <? total_images)%nat
              then with_batch_fields batch_number total_images record
              else record in
  do parameters <- (if String.eqb metadata_scope "full"
                    then do p <- gen_parameters_str copy; Ok [("parameters", p)]
                    else Ok []);
  do prompt_text <- (match prompt with
                     | Some p =>
                         if negb (String.eqb metadata_scope "workflow_only")
                         then do t <- json_dumps p; Ok [("prompt", t)]
                         else Ok []
                     | None => Ok []
                     end);
  do extra <- map_result (fun kv => do t <- text_of json_dumps (snd kv); Ok (fst kv, t))
                (default [] extra_pnginfo);
  Ok (parameters ++ prompt_text ++ extra).

(** A computation that returns [a], adds the chunks [new] to the [PngInfo]
    at [metadata] and leaves the dict at [c] as it is. *)
Definition appends {A} (metadata c : loc) (record : gmap string pyval)
  (m : M A) (a : A) (new : list (string * string)) : Prop :=
  forall h chunks,
    h !! metadata = Some (OPngInfo chunks) -> h !! c = Some (ODict record) ->
    exists h', m h = (Ok a, h')
      /\ h' !! metadata = Some (OPngInfo (chunks ++ new))
      /\ h' !! c = Some (ODict record).

(** The shape of a name: no comma, no whitespace at either end. *)
Definition clean_name (n : list ascii) : Prop :=
  ~ In comma n
  /\ (forall c rest, n = c :: rest -> is_space c = false)
  /\ (forall c front, n = front ++ [c] -> is_space c = false).

(** [if name and name != "None"] *)
Definition kept_clip_name (n : pyval) : bool :=
  py_truthy n && negb (py_eq_str n "None").

(** The fields of the kind "ModelAssemblerMetadata" with the keys of the
    metadata mapping they read. *)
Definition passthrough_keys : list (field_key * string) :=
  [ (Meta MODEL_NAME, "model_name"); (Meta MODEL_HASH, "model_hash");
    (Meta VAE_NAME, "vae_name"); (Meta VAE_HASH, "vae_hash");
    (Named "Clip Model Name(s)", "clip_names");
    (Named "Clip Model Hash(es)", "clip_hashes");
    (Named "Clip Type", "clip_type"); (Named "UNet Weight Type", "unet_dtype") ].

(** The key of a token of a template: [segment.strip("%").split(":")[0]]. *)
Definition token_key (segment : list ascii) : string :=
  string_of_list_ascii
    (match split_on ":"%char (strip (chr_is percent) segment) with
     | k :: _ => k
     | [] => []
     end).

(** The keys [format_filename] has a branch for. *)
Definition recognised (key : string) : bool :=
  existsb (String.eqb key)
    ["seed"; "width"; "height"; "pprompt"; "nprompt"; "model"; "date"].

(** The tokens [re.findall] finds in a template. *)
Definition tokens (filename : string) : list (list ascii) :=
  map (fun m => match m with g :: _ => g | [] => [] end)
      (findall [ Mark; Chr (chr_is percent); Plus (chr_not percent);
                 Chr (chr_is percent); Mark ]
         (list_ascii_of_string filename)).

(** Sample inputs. *)
Definition plain_repr (v : pyval) : string := "<object>".

Definition sample_now : datetime :=
  {| year := 2024; month := 5; day := 17; hour := 9; minute := 30; second := 0 |}.

Definition separate_inputs : inputs :=
  {[ "load_mode" := PList [PStr "separate_components"];
     "clip_model_1" := PList [PStr "clip_l.safetensors"];
     "clip_model_2" := PList [PStr "None"] ]}.

Definition metadata_inputs : inputs :=
  {[ "metadata" := PList [PDict {[ "vae_name" := PStr "vae.safetensors" ]}] ]}.

Definition bare_mode_inputs : inputs :=
  {[ "load_mode" := PStr "full_checkpoint";
     "base_model" := PList [PStr "unet.safetensors"] ]}.

Definition seed_in_prompt_record : gmap string pyval :=
  {[ "Positive prompt" := PStr "%seed%"; "Seed" := PStr "7" ]}.

Definition one_pair : gmap string string := {[ "key1" := "a"; "value1" := "b" ]}.

(** The text the prompt tokens insert for the prompt [p]:
    [p.replace("\n", " ")] and then [.strip()]. *)
Definition prompt_text (p : string) : list ascii :=
  strip is_space (replace [ascii_of_nat 10] [" "%char] (list_ascii_of_string p)).

(** [os.path.splitext(os.path.basename(path))[0]] *)
Definition model_stem (path : string) : list ascii :=
  splitext_root (basename (list_ascii_of_string path)).

(** * Properties *)

(** ** Results *)

Lemma bind_Ok {A B} (r : result A) (k : A -> result B) (b : B) :
  bind r k = Ok b -> exists a, r = Ok a /\ k a = Ok b.
Proof. destruct r as [a|e]; simpl; [eauto | discriminate]. Qed.

Lemma bind_Raise {A B} (r : result A) (k : A -> result B) (e : exn) :
  bind r k = Raise e -> r = Raise e \/ exists a, r = Ok a /\ k a = Raise e.
Proof. destruct r as [a|e']; simpl; [eauto | intros [= ->]; auto]. Qed.

Lemma py_eq_str_true (v : pyval) (s : string) :
  py_eq_str v s = true <-> v = PStr s.
Proof.
  destruct v; simpl; try (split; [discriminate | intros [=]]).
  rewrite String.eqb_eq. split; [intros -> | intros [= ->]]; reflexivity.
Qed.

Lemma py_eq_str_false (v : pyval) (s : string) :
  py_eq_str v s = false <-> v <> PStr s.
Proof.
  rewrite <- py_eq_str_true. destruct (py_eq_str v s); split; congruence.
Qed.

(** ** The single-checkpoint loader *)

Section LoaderFacts.

Context (calc_model_hash calc_vae_hash calc_clip_hash : pyval -> result pyval).
Context (calc_lora_hash : string -> inputs -> result pyval).

#[local] Abbreviation table :=
  (selector_of calc_model_hash calc_vae_hash calc_clip_hash calc_lora_hash).
#[local] Abbreviation raised := raised_on_malformed.

(** The registered selectors of the loader, field by field. *)
Lemma loader_selectors (field : field_key) (sel : selector) :
  table "ModelAssembler" field = Some sel ->
  (field = Meta MODEL_NAME /\ sel = get_model_name)
  \/ (field = Meta MODEL_HASH /\ sel = get_model_hash calc_model_hash)
  \/ (field = Meta VAE_NAME /\ sel = get_vae_name)
  \/ (field = Meta VAE_HASH /\ sel = get_vae_hash calc_vae_hash)
  \/ (field = Named "Clip Model Name(s)" /\ sel = get_clip_names)
  \/ (field = Named "Clip Model Hash(es)" /\ sel = get_clip_hashes calc_clip_hash)
  \/ (field = Named "Clip Type" /\ sel = get_clip_type)
  \/ (field = Named "UNet Weight Type" /\ sel = get_unet_dtype).
Proof.
  unfold selector_of, CAPTURE_FIELD_LIST.
  cbn [assoc]. rewrite decide_True by reflexivity. cbn [assoc].
  repeat (case_decide as Hf; [intros [= <-]; subst field; tauto | clear Hf]).
  discriminate.
Qed.

Lemma load_mode_absent (input_data : inputs) :
  input_data !! "load_mode" = None ->
  load_mode input_data = Ok (PStr "full_checkpoint").
Proof. unfold load_mode. intros ->. reflexivity. Qed.

Lemma get_slot0_absent (input_data : inputs) (key : string) :
  input_data !! key = None -> get_slot0 input_data key = Ok PNone.
Proof. unfold get_slot0. intros ->. reflexivity. Qed.

(** In any mode but "separate_components" the gated selectors give None. *)
Lemma gated_none (input_data : inputs) (mode : pyval) (field : field_key)
  (sel : selector) :
  load_mode input_data = Ok mode ->
  mode <> PStr "separate_components" ->
  In field gated_fields ->
  table "ModelAssembler" field = Some sel ->
  sel input_data = Ok PNone.
Proof.
  intros Hmode Hne Hin Hsel. apply py_eq_str_false in Hne.
  apply loader_selectors in Hsel.
  destruct Hsel as [[-> ->]|[[-> ->]|[[-> ->]|[[-> ->]|[[-> ->]|[[-> ->]|[[-> ->]|[-> ->]]]]]]]];
    simpl in Hin;
    try (exfalso; intuition discriminate);
    unfold get_vae_hash, get_clip_hashes, get_vae_name, get_clip_names,
      get_clip_type, get_unet_dtype;
    rewrite Hmode; simpl; rewrite Hne; reflexivity.
Qed.

(** C3: with load_mode "full_checkpoint" the vae name, vae hash, clip names,
    clip hashes, clip type and unet weight-dtype selectors all return None,
    whatever the other slots hold; such a selector returns anything else
    only when load_mode is "separate_components". *)
Theorem full_checkpoint_gates_fields (input_data : inputs)
  (field : field_key) (sel : selector) :
  In field gated_fields ->
  table "ModelAssembler" field = Some sel ->
  (load_mode input_data = Ok (PStr "full_checkpoint") -> sel input_data = Ok PNone)
  /\ (forall v, sel input_data = Ok v -> v <> PNone ->
                load_mode input_data = Ok (PStr "separate_components")).
Proof.
  intros Hin Hsel. split.
  - intros Hmode. eapply gated_none; eauto; discriminate.
  - intros v Hv Hnn.
    destruct (load_mode input_data) as [mode|e] eqn:Hmode.
    + destruct (py_eq_str mode "separate_components") eqn:Heq.
      * apply py_eq_str_true in Heq. congruence.
      * apply py_eq_str_false in Heq.
        rewrite (gated_none input_data mode field sel Hmode Heq Hin Hsel) in Hv.
        congruence.
    + exfalso. apply loader_selectors in Hsel.
      destruct Hsel as [[-> ->]|[[-> ->]|[[-> ->]|[[-> ->]|[[-> ->]|[[-> ->]|[[-> ->]|[-> ->]]]]]]]];
        simpl in Hin; try (intuition discriminate);
        unfold get_vae_hash, get_clip_hashes, get_vae_name, get_clip_names,
          get_clip_type, get_unet_dtype in Hv;
        rewrite Hmode in Hv; discriminate.
Qed.

(** What a slot gives when it is absent and when it holds a list. *)
Lemma get_slot0_cases (input_data : inputs) (key : string) :
  (input_data !! key = None -> get_slot0 input_data key = Ok PNone)
  /\ (forall v rest, input_data !! key = Some (PList (v :: rest)) ->
        get_slot0 input_data key = Ok v).
Proof.
  unfold get_slot0. split.
  - intros ->. reflexivity.
  - intros v rest ->. reflexivity.
Qed.

(** C10: without a load_mode slot the loader is in "full_checkpoint" mode:
    the model name is read from the ckpt_name slot (None when that slot is
    absent, its first element when it holds a list, whatever base_model
    holds) and the gated selectors return None; with any load_mode other
    than "full_checkpoint" the model name is read from the base_model slot
    in the same way, whatever ckpt_name holds. *)
Theorem absent_load_mode_is_full_checkpoint (input_data : inputs) :
  (input_data !! "load_mode" = None ->
     load_mode input_data = Ok (PStr "full_checkpoint")
     /\ get_model_name input_data = get_slot0 input_data "ckpt_name"
     /\ (input_data !! "ckpt_name" = None -> get_model_name input_data = Ok PNone)
     /\ (forall v rest, input_data !! "ckpt_name" = Some (PList (v :: rest)) ->
           get_model_name input_data = Ok v)
     /\ forall field sel, In field gated_fields ->
          table "ModelAssembler" field = Some sel -> sel input_data = Ok PNone)
  /\ (forall mode, load_mode input_data = Ok mode -> mode <> PStr "full_checkpoint" ->
        get_model_name input_data = get_slot0 input_data "base_model")
  /\ (forall mode others, input_data !! "load_mode" = Some (PList (mode :: others)) ->
        mode <> PStr "full_checkpoint" ->
        (input_data !! "base_model" = None -> get_model_name input_data = Ok PNone)
        /\ (forall v rest, input_data !! "base_model" = Some (PList (v :: rest)) ->
              get_model_name input_data = Ok v)).
Proof.
  assert (Hother : forall mode, load_mode input_data = Ok mode ->
            mode <> PStr "full_checkpoint" ->
            get_model_name input_data = get_slot0 input_data "base_model").
  { intros mode Hmode Hne. apply py_eq_str_false in Hne.
    unfold get_model_name. rewrite Hmode. simpl. rewrite Hne. reflexivity. }
  split; [|split].
  - intros Habs. pose proof (load_mode_absent _ Habs) as Hmode.
    assert (Hname : get_model_name input_data = get_slot0 input_data "ckpt_name").
    { unfold get_model_name. rewrite Hmode. reflexivity. }
    destruct (get_slot0_cases input_data "ckpt_name") as [Hnone Hlist].
    split; [exact Hmode|]. split; [exact Hname|]. split; [|split].
    + intros Hck. rewrite Hname. apply Hnone, Hck.
    + intros v rest Hck. rewrite Hname. apply (Hlist v rest), Hck.
    + intros field sel Hin Hsel. eapply gated_none; eauto; discriminate.
  - exact Hother.
  - intros mode others Hslot Hne.
    assert (Hmode : load_mode input_data = Ok mode).
    { unfold load_mode. rewrite Hslot. reflexivity. }
    destruct (get_slot0_cases input_data "base_model") as [Hnone Hlist].
    rewrite (Hother mode Hmode Hne). split.
    + exact Hnone.
    + exact Hlist.
Qed.

Lemma get_slot0_Raise (input_data : inputs) (key : string) (e : exn) :
  get_slot0 input_data key = Raise e ->
  exists v, input_data !! key = Some v /\ subscript0 v = Raise e.
Proof.
  unfold get_slot0. destruct (input_data !! key) as [v|]; simpl.
  - eauto.
  - discriminate.
Qed.

Lemma load_mode_Raise (input_data : inputs) (e : exn) :
  load_mode input_data = Raise e ->
  exists v, input_data !! "load_mode" = Some v /\ subscript0 v = Raise e.
Proof.
  unfold load_mode. destruct (input_data !! "load_mode") as [v|]; simpl.
  - eauto.
  - discriminate.
Qed.

Lemma get_slot0_truthy (input_data : inputs) (key : string) (nm : pyval) :
  get_slot0 input_data key = Ok nm -> py_truthy nm = true ->
  exists v, input_data !! key = Some v /\ subscript0 v = Ok nm.
Proof.
  unfold get_slot0. destruct (input_data !! key) as [v|]; simpl.
  - eauto.
  - intros [= <-]. discriminate.
Qed.

Lemma map_result_Raise {A B} (f : A -> result B) (l : list A) (e : exn) :
  map_result f l = Raise e -> exists x, In x l /\ f x = Raise e.
Proof.
  induction l as [|x l IH]; simpl; [discriminate|].
  intros H. apply bind_Raise in H as [H|(y & Hy & H)].
  - eauto.
  - apply bind_Raise in H as [H|(ys & _ & H)]; [|discriminate].
    destruct (IH H) as (x' & ? & ?). eauto.
Qed.

Lemma collect_clip_names_Raise (input_data : inputs) (keys : list string)
  (acc : list pyval) (e : exn) :
  collect_clip_names input_data keys acc = Raise e ->
  exists k, In k keys /\ get_slot0 input_data k = Raise e.
Proof.
  revert acc. induction keys as [|k keys IH]; intros acc; simpl; [discriminate|].
  intros H. apply bind_Raise in H as [H|(nm & _ & H)].
  - eauto.
  - destruct (IH _ H) as (k' & ? & ?). eauto.
Qed.

Lemma collect_clip_names_In (input_data : inputs) (keys : list string)
  (acc l : list pyval) (nm : pyval) :
  collect_clip_names input_data keys acc = Ok l -> In nm l ->
  In nm acc
  \/ exists k, In k keys /\ get_slot0 input_data k = Ok nm /\ py_truthy nm = true.
Proof.
  revert acc. induction keys as [|k keys IH]; intros acc; simpl.
  - intros [= ->]. auto.
  - intros H Hin. apply bind_Ok in H as (x & Hx & H).
    destruct (IH _ H Hin) as [Hacc|(k' & ? & ? & ?)]; [|eauto 6].
    destruct (py_truthy x && negb (py_eq_str x "None")) eqn:Hkeep; [|auto].
    apply in_app_or in Hacc as [?|[<-|[]]]; [auto|].
    apply andb_prop in Hkeep as [? _]. eauto 6.
Qed.

Lemma subscript0_Raise (v : pyval) (e : exn) :
  subscript0 v = Raise e -> forall x rest, v <> PList (x :: rest).
Proof. intros H x rest ->. discriminate. Qed.

Lemma raised_slot (input_data : inputs) (slots : list string) (k : string) (e : exn) :
  In k slots -> get_slot0 input_data k = Raise e ->
  raised input_data slots e.
Proof.
  intros Hin H. apply get_slot0_Raise in H as (v & ? & ?).
  exists k, v. eauto using subscript0_Raise.
Qed.

Lemma raised_mode (input_data : inputs) (slots : list string) (e : exn) :
  In "load_mode" slots -> load_mode input_data = Raise e ->
  raised input_data slots e.
Proof.
  intros Hin H. apply load_mode_Raise in H as (v & ? & ?).
  exists "load_mode", v. eauto using subscript0_Raise.
Qed.

Lemma get_model_name_Raise (input_data : inputs) (e : exn) :
  get_model_name input_data = Raise e ->
  raised input_data ["load_mode"; "ckpt_name"; "base_model"] e.
Proof.
  unfold get_model_name. intros H.
  apply bind_Raise in H as [H|(mode & _ & H)].
  - eapply raised_mode; simpl; eauto.
  - destruct (py_eq_str mode "full_checkpoint");
      (eapply raised_slot; [|exact H]); simpl; auto.
Qed.

Lemma get_model_name_truthy (input_data : inputs) (nm : pyval) :
  get_model_name input_data = Ok nm -> py_truthy nm = true ->
  exists k v, In k ["load_mode"; "ckpt_name"; "base_model"]
    /\ input_data !! k = Some v /\ subscript0 v = Ok nm.
Proof.
  unfold get_model_name. intros H Ht.
  apply bind_Ok in H as (mode & _ & H).
  destruct (py_eq_str mode "full_checkpoint");
    destruct (get_slot0_truthy _ _ _ H Ht) as (v & ? & ?);
    [exists "ckpt_name", v | exists "base_model", v]; simpl; auto.
Qed.

Lemma gated_slot_Raise (input_data : inputs) (key : string) (e : exn) :
  (do mode <- load_mode input_data;
   if py_eq_str mode "separate_components" then get_slot0 input_data key
   else Ok PNone) = Raise e ->
  raised input_data ["load_mode"; key] e.
Proof.
  intros H. apply bind_Raise in H as [H|(mode & _ & H)].
  - eapply raised_mode; simpl; eauto.
  - destruct (py_eq_str mode "separate_components"); [|discriminate].
    eapply raised_slot; [|exact H]; simpl; auto.
Qed.

Lemma get_clip_names_Raise (input_data : inputs) (e : exn) :
  get_clip_names input_data = Raise e ->
  raised input_data
    ["load_mode"; "clip_model_1"; "clip_model_2"; "clip_model_3"] e.
Proof.
  unfold get_clip_names. intros H.
  apply bind_Raise in H as [H|(mode & _ & H)].
  - eapply raised_mode; simpl; eauto.
  - destruct (py_eq_str mode "separate_components"); [|discriminate].
    apply bind_Raise in H as [H|(l & _ & H)]; [|discriminate].
    apply collect_clip_names_Raise in H as (k & Hk & H).
    eapply raised_slot; [|exact H]. simpl in *. tauto.
Qed.

(** C7, as the code has it: a registered selector of the single-checkpoint
    loader returns None when the slots it reads, load_mode included, are
    absent. When it raises, either a slot it reads is present with a value
    of malformed type (not a non-empty list) whose first element cannot be
    read, or the selector is one of the three hash selectors and its hash
    function raised on the name read from a present slot: the selector does
    not catch that. So a name selector raises only on a malformed slot, and
    so does a hash selector whose hash function does not raise; when every
    slot that is present holds a non-empty list, only the hash function can
    make a selector raise. *)
Theorem absent_slots_resolve_to_none (input_data : inputs)
  (field : field_key) (sel : selector) :
  table "ModelAssembler" field = Some sel ->
  ((forall k, In k (slots_read field) -> input_data !! k = None) ->
     sel input_data = Ok PNone)
  /\ (forall e, sel input_data = Raise e ->
        raised_on_malformed input_data (slots_read field) e
        \/ (field = Meta MODEL_HASH
            /\ raised_by_hash calc_model_hash input_data (slots_read field) e)
        \/ (field = Meta VAE_HASH
            /\ raised_by_hash calc_vae_hash input_data (slots_read field) e)
        \/ (field = Named "Clip Model Hash(es)"
            /\ raised_by_hash calc_clip_hash input_data (slots_read field) e))
  /\ ((forall nm e, calc_model_hash nm <> Raise e /\ calc_vae_hash nm <> Raise e
                    /\ calc_clip_hash nm <> Raise e) ->
      forall e, sel input_data = Raise e ->
        raised_on_malformed input_data (slots_read field) e)
  /\ ((forall k v, In k (slots_read field) -> input_data !! k = Some v ->
         exists x rest, v = PList (x :: rest)) ->
      forall e, sel input_data = Raise e ->
        exists nm, calc_model_hash nm = Raise e \/ calc_vae_hash nm = Raise e
                   \/ calc_clip_hash nm = Raise e).
Proof.
  intros Hsel. apply loader_selectors in Hsel.
  assert (Hraise : forall e, sel input_data = Raise e ->
            raised_on_malformed input_data (slots_read field) e
            \/ (field = Meta MODEL_HASH
                /\ raised_by_hash calc_model_hash input_data (slots_read field) e)
            \/ (field = Meta VAE_HASH
                /\ raised_by_hash calc_vae_hash input_data (slots_read field) e)
            \/ (field = Named "Clip Model Hash(es)"
                /\ raised_by_hash calc_clip_hash input_data (slots_read field) e)).
  { intros e H.
    destruct Hsel as [[-> ->]|[[-> ->]|[[-> ->]|[[-> ->]|[[-> ->]|[[-> ->]|[[-> ->]|[-> ->]]]]]]]];
      cbn [slots_read].
    - left. apply get_model_name_Raise, H.
    - unfold get_model_hash in H.
      apply bind_Raise in H as [H|(nm & Hnm & H)].
      + left. apply get_model_name_Raise, H.
      + destruct (py_truthy nm) eqn:Ht; [|discriminate].
        destruct (get_model_name_truthy _ _ Hnm Ht) as (k & v & ? & ? & ?).
        right. left. split; [reflexivity|]. exists k, v, nm. auto.
    - left. apply gated_slot_Raise, H.
    - unfold get_vae_hash in H.
      apply bind_Raise in H as [H|(nm & Hnm & H)].
      + left. apply gated_slot_Raise, H.
      + destruct (py_truthy nm) eqn:Ht; [|discriminate].
        unfold get_vae_name in Hnm. apply bind_Ok in Hnm as (mode & _ & Hnm).
        destruct (py_eq_str mode "separate_components");
          [|injection Hnm as <-; discriminate].
        destruct (get_slot0_truthy _ _ _ Hnm Ht) as (v & ? & ?).
        right. right. left. split; [reflexivity|].
        exists "vae_model", v, nm. simpl. auto 10.
    - left. apply get_clip_names_Raise, H.
    - unfold get_clip_hashes in H.
      apply bind_Raise in H as [H|(names & Hnames & H)].
      + left. apply get_clip_names_Raise, H.
      + destruct (py_truthy names) eqn:Ht; [|discriminate].
        unfold get_clip_names in Hnames.
        apply bind_Ok in Hnames as (mode & _ & Hnames).
        destruct (py_eq_str mode "separate_components");
          [|injection Hnames as <-; discriminate].
        apply bind_Ok in Hnames as (l & Hl & Hnames).
        destruct (py_truthy (PList l)); injection Hnames as <-; [|discriminate].
        simpl in H.
        apply bind_Raise in H as [H|(hs & _ & H)]; [|discriminate].
        apply map_result_Raise in H as (nm & Hin & H).
        destruct (collect_clip_names_In _ _ _ _ _ Hl Hin) as [[]|(k & Hk & Hget & Hnt)].
        destruct (get_slot0_truthy _ _ _ Hget Hnt) as (v & ? & ?).
        right. right. right. split; [reflexivity|].
        exists k, v, nm. simpl in *. repeat split; auto; tauto.
    - left. apply gated_slot_Raise, H.
    - left. apply gated_slot_Raise, H. }
  split; [|split; [exact Hraise|split]].
  - intros Habs.
    assert (Hmode : load_mode input_data = Ok (PStr "full_checkpoint")).
    { apply load_mode_absent, Habs.
      destruct Hsel as [[-> _]|[[-> _]|[[-> _]|[[-> _]|[[-> _]|[[-> _]|[[-> _]|[-> _]]]]]]]];
        simpl; auto. }
    destruct Hsel as [[-> ->]|[[-> ->]|[[-> ->]|[[-> ->]|[[-> ->]|[[-> ->]|[[-> ->]|[-> ->]]]]]]]];
      unfold get_model_hash, get_vae_hash, get_clip_hashes, get_model_name,
        get_vae_name, get_clip_names, get_clip_type, get_unet_dtype;
      rewrite Hmode; simpl;
      try rewrite (get_slot0_absent input_data "ckpt_name") by (apply Habs; simpl; auto);
      reflexivity.
  - intros Htotal e H.
    destruct (Hraise e H)
      as [Hslot|[[_ (k & v & nm & _ & _ & _ & _ & Hcalc)]
               |[[_ (k & v & nm & _ & _ & _ & _ & Hcalc)]
               |[_ (k & v & nm & _ & _ & _ & _ & Hcalc)]]]];
      [exact Hslot|exfalso..]; destruct (Htotal nm e) as (? & ? & ?); contradiction.
  - intros Hwell e H.
    destruct (Hraise e H)
      as [(k & v & Hk & Hv & Hbad & _)
         |[[_ (k & v & nm & _ & _ & _ & _ & Hcalc)]
         |[[_ (k & v & nm & _ & _ & _ & _ & Hcalc)]
         |[_ (k & v & nm & _ & _ & _ & _ & Hcalc)]]]]; [|eauto..].
    exfalso. destruct (Hwell k v Hk Hv) as (x & rest & ->). exact (Hbad x rest eq_refl).
Qed.

Lemma collect_clip_names_nil (input_data : inputs) (keys : list string)
  (acc l : list pyval) :
  collect_clip_names input_data keys acc = Ok l -> l = [] -> acc = [].
Proof.
  revert acc. induction keys as [|k keys IH]; intros acc; simpl.
  - congruence.
  - intros H Hl. apply bind_Ok in H as (x & _ & H).
    specialize (IH _ H Hl).
    destruct (py_truthy x && negb (py_eq_str x "None")); [|assumption].
    destruct acc; discriminate.
Qed.

(** The names selector returns None or a non-empty list. *)
Lemma get_clip_names_shape (input_data : inputs) (names : pyval) :
  get_clip_names input_data = Ok names ->
  names = PNone \/ exists x l, names = PList (x :: l).
Proof.
  unfold get_clip_names. intros H. apply bind_Ok in H as (mode & _ & H).
  destruct (py_eq_str mode "separate_components"); [|injection H as <-; auto].
  apply bind_Ok in H as (l & _ & H).
  destruct l as [|x l]; simpl in H; injection H as <-; eauto.
Qed.

(** C8, as the code has it: each hash selector calls its name selector and
    applies the hash function to a result that is truthy, so that a null
    name and also an empty one give None; it agrees with the hash of every
    non-null name that is not empty, and the clip hashes are the clip hash
    function mapped over the clip names, None when these are None. *)
Theorem hash_selectors_follow_name_selectors (input_data : inputs) :
  get_model_hash calc_model_hash input_data
    = (do n <- get_model_name input_data;
       if py_truthy n then calc_model_hash n else Ok PNone)
  /\ get_vae_hash calc_vae_hash input_data
    = (do n <- get_vae_name input_data;
       if py_truthy n then calc_vae_hash n else Ok PNone)
  /\ (forall n, get_model_name input_data = Ok n -> n = PNone \/ py_truthy n = true ->
        get_model_hash calc_model_hash input_data
          = hash_of_non_null calc_model_hash get_model_name input_data)
  /\ (forall n, get_vae_name input_data = Ok n -> n = PNone \/ py_truthy n = true ->
        get_vae_hash calc_vae_hash input_data
          = hash_of_non_null calc_vae_hash get_vae_name input_data)
  /\ get_clip_hashes calc_clip_hash input_data
    = hashes_of_non_null calc_clip_hash get_clip_names input_data.
Proof.
  split; [reflexivity|]. split; [reflexivity|]. split; [|split].
  - intros n Hn Hshape. unfold get_model_hash, hash_of_non_null.
    rewrite Hn. simpl. destruct Hshape as [->|Ht]; [reflexivity|].
    rewrite Ht. destruct n; try reflexivity. discriminate.
  - intros n Hn Hshape. unfold get_vae_hash, hash_of_non_null.
    rewrite Hn. simpl. destruct Hshape as [->|Ht]; [reflexivity|].
    rewrite Ht. destruct n; try reflexivity. discriminate.
  - unfold get_clip_hashes, hashes_of_non_null.
    destruct (get_clip_names input_data) as [names|e] eqn:Hnames; [|reflexivity].
    destruct (get_clip_names_shape _ _ Hnames) as [->|(x & l & ->)]; reflexivity.
Qed.

(** C9: for the hub node the table binds the same selector to the lora
    model-strength and clip-strength fields, which therefore resolve to the
    same value on every input. *)
Theorem hub_strength_fields_agree :
  table "LoraMetadataHub" (Meta LORA_STRENGTH_MODEL) = Some get_hub_lora_strengths
  /\ table "LoraMetadataHub" (Meta LORA_STRENGTH_CLIP) = Some get_hub_lora_strengths
  /\ forall input_data : inputs,
       option_map (fun sel : selector => sel input_data)
         (table "LoraMetadataHub" (Meta LORA_STRENGTH_CLIP))
       = option_map (fun sel : selector => sel input_data)
           (table "LoraMetadataHub" (Meta LORA_STRENGTH_MODEL)).
Proof.
  assert (Hm : table "LoraMetadataHub" (Meta LORA_STRENGTH_MODEL)
               = Some get_hub_lora_strengths) by reflexivity.
  assert (Hc : table "LoraMetadataHub" (Meta LORA_STRENGTH_CLIP)
               = Some get_hub_lora_strengths) by reflexivity.
  split; [exact Hm|]. split; [exact Hc|].
  intros input_data. rewrite Hm, Hc. reflexivity.
Qed.

Lemma lookup_map {A B} (f : A -> B) (l : list A) (i : nat) :
  map f l !! i = option_map f (l !! i).
Proof.
  revert i. induction l as [|x l IH]; intros [|i]; simpl; auto.
Qed.

(** C2: once the entries are parsed, the hashes selector returns a list
    with one hash per entry, each depending on its own entry only: None
    when the hash of that entry raises (or is empty), the hash otherwise. *)
Theorem hub_hashes_fail_per_entry (input_data : inputs) (data : list lora_entry) :
  parse_lora_hub_data input_data = Ok data ->
  data <> [] ->
  exists hashes : list pyval,
    get_hub_lora_hashes calc_lora_hash input_data = Ok (PList hashes)
    /\ length hashes = length data
    /\ (forall i d e, data !! i = Some d ->
          calc_lora_hash (name d) input_data = Raise e -> hashes !! i = Some PNone)
    /\ (forall i d h, data !! i = Some d ->
          calc_lora_hash (name d) input_data = Ok h ->
          hashes !! i = Some (if py_truthy h then h else PNone)).
Proof.
  intros Hparse Hne.
  exists (map (hash_or_none calc_lora_hash input_data) data).
  split; [|split; [|split]].
  - unfold get_hub_lora_hashes. rewrite Hparse. simpl.
    destruct data; [contradiction|reflexivity].
  - apply length_map.
  - intros i d e Hd He. rewrite lookup_map, Hd. simpl.
    unfold hash_or_none. rewrite He. reflexivity.
  - intros i d h Hd Hh. rewrite lookup_map, Hd. simpl.
    unfold hash_or_none. rewrite Hh. reflexivity.
Qed.

End LoaderFacts.

(** ** Extra metadata *)

Section ExtraMetadata.

Context (keys_values : gmap string string).

#[local] Abbreviation key_of i := (keys_values !! slot_name "key" i).
#[local] Abbreviation value_of i := (keys_values !! slot_name "value" i).

Lemma given_Some (x : option string) :
  given x = true <-> exists s, x = Some s /\ s <> "".
Proof.
  destruct x as [s|]; simpl.
  - rewrite negb_true_iff, String.eqb_neq. split; [eauto|].
    intros (s' & [= <-] & ?). assumption.
  - split; [discriminate|]. intros (s & [=] & _).
Qed.

Lemma stored_value (x : option string) :
  (if given x then default "" x else "") = default "" x.
Proof.
  destruct x as [s|]; simpl; [|reflexivity].
  destruct (String.eqb_spec s ""); simpl; congruence.
Qed.

Lemma extra_slot_keyed (i : nat) (m : gmap string string) :
  given (key_of i) = true ->
  extra_slot keys_values i m
    = Ok (<[default "" (key_of i) := default "" (value_of i)]> m).
Proof. unfold extra_slot. intros ->. rewrite stored_value. reflexivity. Qed.

Lemma extra_slot_empty (i : nat) (m : gmap string string) :
  given (key_of i) = false -> given (value_of i) = false ->
  extra_slot keys_values i m = Ok m.
Proof. unfold extra_slot. intros -> ->. reflexivity. Qed.

Lemma extra_slot_unpaired (i : nat) (m : gmap string string) :
  given (key_of i) = false -> given (value_of i) = true ->
  exists e, extra_slot keys_values i m = Raise e.
Proof. unfold extra_slot. intros -> ->. eauto. Qed.

Lemma extra_slots_raise_iff (slots : list nat) (m : gmap string string) :
  (exists e, extra_slots keys_values slots m = Raise e)
  <-> exists i, In i slots /\ given (key_of i) = false /\ given (value_of i) = true.
Proof.
  revert m. induction slots as [|i slots IH]; intros m; simpl.
  - split; [intros [e [=]] | intros (i & [] & _)].
  - destruct (given (key_of i)) eqn:Hk.
    + rewrite extra_slot_keyed by assumption. simpl. rewrite IH.
      split; intros (j & Hj & Hkj & Hvj); exists j; [auto|].
      destruct Hj as [<-|Hj]; [congruence|auto].
    + destruct (given (value_of i)) eqn:Hv.
      * destruct (extra_slot_unpaired i m Hk Hv) as [e ->]. simpl.
        split; eauto 6.
      * rewrite extra_slot_empty by assumption. simpl. rewrite IH.
        split; intros (j & Hj & Hkj & Hvj); exists j; [auto|].
        destruct Hj as [<-|Hj]; [congruence|auto].
Qed.

Lemma extra_slot_untouched (i : nat) (m d : gmap string string) (k : string) :
  extra_slot keys_values i m = Ok d -> ~ writes keys_values i k -> d !! k = m !! k.
Proof.
  unfold extra_slot, writes. intros H Hw.
  destruct (given (key_of i)) eqn:Hk.
  - injection H as <-. apply given_Some in Hk as (s & Hs & Hne).
    rewrite Hs in *. simpl. apply lookup_insert_ne. intros ->. auto.
  - destruct (given (value_of i)); [discriminate|]. congruence.
Qed.

Lemma extra_slots_untouched (slots : list nat) (m d : gmap string string)
  (k : string) :
  extra_slots keys_values slots m = Ok d ->
  (forall i, In i slots -> ~ writes keys_values i k) -> d !! k = m !! k.
Proof.
  revert m. induction slots as [|i slots IH]; intros m; simpl.
  - intros [= ->] _. reflexivity.
  - intros H Hw. apply bind_Ok in H as (m' & Hstep & H).
    rewrite (IH _ H) by auto.
    eapply extra_slot_untouched; eauto.
Qed.

Lemma extra_slots_last_writer (pre post : list nat) (i : nat)
  (m d : gmap string string) (k : string) :
  extra_slots keys_values (pre ++ i :: post) m = Ok d ->
  writes keys_values i k -> (forall j, In j post -> ~ writes keys_values j k) ->
  d !! k = Some (default "" (value_of i)).
Proof.
  revert m. induction pre as [|p pre IH]; intros m; simpl; intros H Hw Hpost.
  - apply bind_Ok in H as (m' & Hstep & H).
    rewrite (extra_slots_untouched _ _ _ _ H Hpost).
    destruct Hw as [Hk Hne].
    rewrite extra_slot_keyed in Hstep by (apply given_Some; eauto).
    injection Hstep as <-. rewrite Hk. simpl. apply lookup_insert_eq.
  - apply bind_Ok in H as (m' & _ & H). eauto.
Qed.

(** C4: create_extra_metadata raises exactly when some slot of 1..4 has a
    non-empty value whose key is empty or missing; a slot with a non-empty
    key stores its pair, the value being the empty string when it is empty
    or missing; a slot with neither is skipped. In the returned mapping a
    key holds the value of the last slot that writes it, and the keys that
    no slot writes are as they were. *)
Theorem create_extra_metadata_pairs (extra_metadata : option (gmap string string)) :
  ((exists e, create_extra_metadata extra_metadata keys_values = Raise e)
     <-> exists i, In i [1; 2; 3; 4]%nat
           /\ given (key_of i) = false /\ given (value_of i) = true)
  /\ (forall i m, given (key_of i) = true ->
        extra_slot keys_values i m
          = Ok (<[default "" (key_of i) := default "" (value_of i)]> m))
  /\ (forall i m, given (key_of i) = false -> given (value_of i) = false ->
        extra_slot keys_values i m = Ok m)
  /\ (forall d, create_extra_metadata extra_metadata keys_values = Ok d ->
        (forall i k, In i [1; 2; 3; 4]%nat -> writes keys_values i k ->
           (forall j, In j [1; 2; 3; 4]%nat -> i < j -> ~ writes keys_values j k) ->
           d !! k = Some (default "" (value_of i)))
        /\ (forall k, (forall i, In i [1; 2; 3; 4]%nat -> ~ writes keys_values i k) ->
              d !! k = default ∅ extra_metadata !! k)).
Proof.
  split; [apply extra_slots_raise_iff|].
  split; [apply extra_slot_keyed|].
  split; [apply extra_slot_empty|].
  intros d Hd. unfold create_extra_metadata in Hd. split.
  - intros i k Hi Hw Hlater.
    assert (Hsplit : exists pre post, [1; 2; 3; 4]%nat = pre ++ i :: post
                       /\ forall j, In j post -> In j [1; 2; 3; 4]%nat /\ i < j).
    { simpl in Hi. destruct Hi as [<-|[<-|[<-|[<-|[]]]]].
      - exists [], [2; 3; 4]%nat. split; [reflexivity|]. simpl. intros j. lia.
      - exists [1]%nat, [3; 4]%nat. split; [reflexivity|]. simpl. intros j. lia.
      - exists [1; 2]%nat, [4]%nat. split; [reflexivity|]. simpl. intros j. lia.
      - exists [1; 2; 3]%nat, []. split; [reflexivity|]. simpl. intros j []. }
    destruct Hsplit as (pre & post & Heq & Hpost). rewrite Heq in Hd.
    eapply extra_slots_last_writer; eauto.
    intros j Hj. destruct (Hpost j Hj). auto.
  - intros k Hk. eapply extra_slots_untouched; eauto.
Qed.

End ExtraMetadata.

(** ** The parameter record across a batch *)

Lemma keeps_ret {A} (a : A) : keeps_dicts (ret a).
Proof. intros h r h' [= _ <-]. auto. Qed.

Lemma keeps_lift {A} (x : result A) : keeps_dicts (lift x).
Proof. intros h r h' [= _ <-]. auto. Qed.

Lemma keeps_mbind {A B} (m : M A) (k : A -> M B) :
  keeps_dicts m -> (forall a, keeps_dicts (k a)) -> keeps_dicts (mbind m k).
Proof.
  intros Hm Hk h r h'. unfold mbind.
  destruct (m h) as [[a|e] h1] eqn:Hmh.
  - intros Hka l d Hl. eapply Hk; eauto.
  - intros [= _ <-] l d Hl. eapply Hm; eauto.
Qed.

Lemma keeps_dict_read (d : loc) : keeps_dicts (dict_read d).
Proof.
  intros h r h'. unfold dict_read.
  destruct (h !! d) as [[items|chunks]|]; intros [= _ <-]; auto.
Qed.

Lemma keeps_add_text (metadata : loc) (k v : string) :
  keeps_dicts (add_text metadata k v).
Proof.
  intros h r h'. unfold add_text.
  destruct (h !! metadata) as [[items|chunks]|] eqn:Hm; intros [= _ <-]; auto.
  intros l d Hl. rewrite lookup_insert_ne; [assumption|congruence].
Qed.

Lemma keeps_for_each {A} (f : A -> M unit) (l : list A) :
  (forall x, keeps_dicts (f x)) -> keeps_dicts (for_each f l).
Proof.
  intros Hf. induction l as [|x l IH]; simpl.
  - apply keeps_ret.
  - apply keeps_mbind; auto.
Qed.

Create HintDb keeps.
#[local] Hint Resolve keeps_ret keeps_lift keeps_dict_read keeps_add_text : keeps.

Lemma fresh_loc_unused (h : heap) : h !! fresh (dom h) = None.
Proof. apply not_elem_of_dom, is_fresh. Qed.

Section BatchFacts.

Context (py_repr : pyval -> string).
Context (json_dumps : pyval -> result string).
Context (gen_parameters_str : gmap string pyval -> result string).

#[local] Abbreviation prepare := (prepare_pnginfo json_dumps gen_parameters_str).

(** What follows the copy in [prepare_pnginfo] writes text chunks only. *)
Lemma prepare_tail_keeps (metadata pnginfo_copy : loc) (prompt : option pyval)
  (extra_pnginfo : option (list (string * pyval))) (metadata_scope : string) :
  keeps_dicts
    (exec _ <- (if String.eqb metadata_scope "full" then
                  exec record <- dict_read pnginfo_copy;
                  exec parameters <- lift (gen_parameters_str record);
                  add_text metadata "parameters" parameters
                else ret tt);
     exec _ <- (match prompt with
                | Some p =>
                    if negb (String.eqb metadata_scope "workflow_only") then
                      exec text <- lift (json_dumps p);
                      add_text metadata "prompt" text
                    else ret tt
                | None => ret tt
                end);
     exec _ <- (match extra_pnginfo with
                | Some ((_ :: _) as items) =>
                    for_each (fun kv =>
                                exec value_to_add <- lift (text_of json_dumps (snd kv));
                                add_text metadata (fst kv) value_to_add) items
                | _ => ret tt
                end);
     ret (Some metadata)).
Proof.
  apply keeps_mbind.
  { destruct (String.eqb metadata_scope "full"); auto with keeps.
    repeat (apply keeps_mbind; intros; auto with keeps). }
  intros _. apply keeps_mbind.
  { destruct prompt as [p|]; auto with keeps.
    destruct (negb (String.eqb metadata_scope "workflow_only")); auto with keeps.
    repeat (apply keeps_mbind; intros; auto with keeps). }
  intros _. apply keeps_mbind; [|auto with keeps].
  destruct extra_pnginfo as [[|kv items]|]; auto with keeps.
  apply keeps_for_each. intros x.
  repeat (apply keeps_mbind; intros; auto with keeps).
Qed.

Lemma prepare_pnginfo_steps (metadata pnginfo_dict : loc) (batch_number total_images : nat)
  (prompt : option pyval) (extra_pnginfo : option (list (string * pyval)))
  (metadata_scope : string) (h : heap) (record : gmap string pyval) :
  h !! pnginfo_dict = Some (ODict record) ->
  String.eqb metadata_scope "none" = false ->
  forall l d,
    heap_after_copy h record batch_number total_images !! l = Some (ODict d) ->
    snd (prepare metadata pnginfo_dict batch_number total_images prompt
           extra_pnginfo metadata_scope h) !! l = Some (ODict d).
Proof.
  intros Hrec Hscope l d Hl.
  unfold prepare_pnginfo. rewrite Hscope.
  unfold mbind at 1. unfold dict_copy at 1. rewrite Hrec.
  set (c := fresh (dom h)).
  unfold mbind at 1.
  set (assignments := if (1 <? total_images)%nat then _ else _).
  assert (Hassign : assignments (<[c := ODict record]> h)
                    = (Ok tt, heap_after_copy h record batch_number total_images)).
  { subst assignments. unfold heap_after_copy. fold c.
    destruct (1 <? total_images)%nat; [|reflexivity].
    unfold mbind, dict_setitem. rewrite lookup_insert_eq.
    rewrite insert_insert_eq, lookup_insert_eq, insert_insert_eq. reflexivity. }
  rewrite Hassign.
  match goal with
  | |- snd (?tail ?h1) !! _ = _ =>
      destruct (tail h1) as [r h'] eqn:Htail
  end.
  simpl. eapply (prepare_tail_keeps metadata c prompt extra_pnginfo metadata_scope); eauto.
Qed.

(** A call of [prepare_pnginfo] leaves the record it is given as it is. *)
Lemma prepare_pnginfo_frame (metadata pnginfo_dict : loc) (batch_number total_images : nat)
  (prompt : option pyval) (extra_pnginfo : option (list (string * pyval)))
  (metadata_scope : string) (h : heap) (record : gmap string pyval) :
  h !! pnginfo_dict = Some (ODict record) ->
  snd (prepare metadata pnginfo_dict batch_number total_images prompt
         extra_pnginfo metadata_scope h) !! pnginfo_dict = Some (ODict record).
Proof.
  intros Hrec. destruct (String.eqb metadata_scope "none") eqn:Hscope.
  - unfold prepare_pnginfo. rewrite Hscope. exact Hrec.
  - eapply prepare_pnginfo_steps; eauto.
    unfold heap_after_copy. rewrite lookup_insert_ne; [assumption|].
    intros Heq. pose proof (fresh_loc_unused h) as Hfresh.
    rewrite Heq in Hfresh. congruence.
Qed.

(** The loop over the user's extra metadata writes text chunks only. *)
Lemma add_extra_metadata_keeps (metadata : option loc)
  (extra_metadata : list (string * pyval)) :
  keeps_dicts (add_extra_metadata json_dumps metadata extra_metadata).
Proof.
  unfold add_extra_metadata. apply keeps_for_each. intros kv.
  destruct (negb (String.eqb (fst kv) "")); [|apply keeps_ret].
  destruct metadata as [m|].
  - apply keeps_mbind; [apply keeps_lift|]. intros text. apply keeps_add_text.
  - intros h r h' [= _ <-] l d Hl. exact Hl.
Qed.

(** Building the metadata of one image leaves the record as it is. *)
Lemma image_metadata_frame (pnginfo pnginfo_dict : loc) (batch_number total_images : nat)
  (prompt : option pyval) (extra_pnginfo : option (list (string * pyval)))
  (metadata_scope : string) (extra_metadata : list (string * pyval))
  (h : heap) (record : gmap string pyval) :
  h !! pnginfo_dict = Some (ODict record) ->
  snd (image_metadata json_dumps gen_parameters_str pnginfo pnginfo_dict batch_number
         total_images prompt extra_pnginfo metadata_scope extra_metadata h)
    !! pnginfo_dict = Some (ODict record).
Proof.
  intros Hrec. unfold image_metadata. unfold mbind at 1.
  pose proof (prepare_pnginfo_frame pnginfo pnginfo_dict batch_number total_images prompt
                extra_pnginfo metadata_scope h record Hrec) as Hstep.
  destruct (prepare pnginfo pnginfo_dict batch_number total_images prompt extra_pnginfo
              metadata_scope h) as [[metadata|e] h1]; simpl in Hstep; [|exact Hstep].
  unfold mbind.
  destruct (add_extra_metadata json_dumps metadata extra_metadata h1) as [[[]|e] h2] eqn:Hadd;
    simpl; eapply (add_extra_metadata_keeps metadata extra_metadata); eauto.
Qed.

Lemma prepare_batch_frame (pnginfo pnginfo_dict : loc) (batch_numbers : list nat)
  (total_images : nat) (prompt : option pyval)
  (extra_pnginfo : option (list (string * pyval)))
  (metadata_scope : string) (extra_metadata : list (string * pyval))
  (h : heap) (record : gmap string pyval) :
  h !! pnginfo_dict = Some (ODict record) ->
  snd (prepare_batch json_dumps gen_parameters_str pnginfo pnginfo_dict batch_numbers
         total_images prompt extra_pnginfo metadata_scope extra_metadata h)
    !! pnginfo_dict
  = Some (ODict record).
Proof.
  revert h. induction batch_numbers as [|n rest IH]; intros h Hrec; simpl.
  - exact Hrec.
  - unfold mbind.
    pose proof (image_metadata_frame pnginfo pnginfo_dict n total_images prompt
                  extra_pnginfo metadata_scope extra_metadata h record Hrec) as Hstep.
    destruct (image_metadata json_dumps gen_parameters_str pnginfo pnginfo_dict n
                total_images prompt extra_pnginfo metadata_scope extra_metadata h)
      as [[r|e] h1]; simpl in Hstep.
    + apply IH, Hstep.
    + exact Hstep.
Qed.

(** C5, as the code has it: for a batch of more than one image and a
    metadata scope other than "none", a call of prepare_pnginfo sets
    "Batch index" and "Batch size" in a new copy of the record; with the
    scope "none" it returns None and makes no copy. In every case the record
    it is given is left as it is, by one call and by the loop of save_images
    over all the images of a batch, whatever extra metadata the user adds. *)
Theorem batch_fields_go_to_a_copy (metadata pnginfo_dict : loc)
  (batch_number total_images : nat) (prompt : option pyval)
  (extra_pnginfo : option (list (string * pyval))) (metadata_scope : string)
  (extra_metadata : list (string * pyval))
  (h : heap) (record : gmap string pyval) :
  h !! pnginfo_dict = Some (ODict record) ->
  1 < total_images ->
  (metadata_scope <> "none" ->
     exists pnginfo_copy : loc,
       h !! pnginfo_copy = None
       /\ snd (prepare metadata pnginfo_dict batch_number total_images prompt
                 extra_pnginfo metadata_scope h) !! pnginfo_copy
          = Some (ODict (with_batch_fields batch_number total_images record)))
  /\ (metadata_scope = "none" ->
        prepare metadata pnginfo_dict batch_number total_images prompt
          extra_pnginfo metadata_scope h = (Ok None, h))
  /\ snd (prepare metadata pnginfo_dict batch_number total_images prompt
            extra_pnginfo metadata_scope h) !! pnginfo_dict = Some (ODict record)
  /\ snd (prepare_batch json_dumps gen_parameters_str metadata pnginfo_dict
            (seq 0 total_images) total_images prompt extra_pnginfo metadata_scope
            extra_metadata h)
       !! pnginfo_dict = Some (ODict record).
Proof.
  intros Hrec Htotal. split; [|split; [|split]].
  - intros Hscope. exists (fresh (dom h)). split; [apply fresh_loc_unused|].
    eapply prepare_pnginfo_steps; eauto.
    + apply String.eqb_neq, Hscope.
    + unfold heap_after_copy. rewrite lookup_insert_eq.
      apply Nat.ltb_lt in Htotal. rewrite Htotal. reflexivity.
  - intros ->. reflexivity.
  - apply prepare_pnginfo_frame, Hrec.
  - apply prepare_batch_frame, Hrec.
Qed.

End BatchFacts.

(** ** Filename templates *)

(** C6: on the record with Seed "12345", Size "512x768" and Model
    "path/to/myModel.safetensors", the template
    "%model:4%_%seed%_%width%x%height%" becomes "myMo_12345_512x768": the
    model token is the base name without directory and extension, cut to 4
    characters; the seed token is the Seed field; width and height are the
    two halves of the Size field around the "x". *)
Theorem format_filename_sample (py_repr : pyval -> string) (now : datetime) :
  format_filename py_repr now "%model:4%_%seed%_%width%x%height%" sample_record
    = Ok "myMo_12345_512x768"
  /\ splitext_root (basename (list_ascii_of_string "path/to/myModel.safetensors"))
     = list_ascii_of_string "myModel"
  /\ format_filename py_repr now "%model:4%" sample_record = Ok "myMo"
  /\ format_filename py_repr now "%model%" sample_record = Ok "myModel"
  /\ format_filename py_repr now "%seed%" sample_record = Ok "12345"
  /\ format_filename py_repr now "%width%" sample_record = Ok "512"
  /\ format_filename py_repr now "%height%" sample_record = Ok "768".
Proof. repeat split; vm_compute; reflexivity. Qed.

(** ** The matcher *)

Lemma shift_shift (a b : nat) (r : found) : shift a (shift b r) = shift (a + b) r.
Proof.
  destruct r as [ms len]. unfold shift. simpl. f_equal; [|lia].
  rewrite map_map. apply map_ext. intros. lia.
Qed.

Lemma shift_0 (r : found) : shift 0 r = r.
Proof.
  destruct r as [ms len]. unfold shift. simpl. f_equal.
  rewrite <- (map_id ms) at 2. apply map_ext. reflexivity.
Qed.

(** *** What a successful attempt has read *)

Lemma one_Some c k s r :
  one c k s = Some r ->
  exists x s' r0, s = x :: s' /\ c x = true /\ k s' = Some r0 /\ r = shift 1 r0.
Proof.
  destruct s as [|x s']; simpl; [discriminate|].
  destruct (c x) eqn:Hc; [|discriminate].
  destruct (k s') as [r0|] eqn:Hk; simpl; [|discriminate].
  intros [= <-]. eauto 8.
Qed.

Lemma greedy_Some c k s r :
  greedy c k s = Some r ->
  exists u s' r0, s = u ++ s' /\ forallb c u = true /\ k s' = Some r0
                  /\ r = shift (length u) r0.
Proof.
  revert r. induction s as [|x s IH]; intros r; simpl.
  - intros Hk. exists [], [], r. rewrite shift_0. auto.
  - destruct (c x) eqn:Hc.
    + destruct (greedy c k s) as [r1|] eqn:Hg.
      * intros [= <-]. destruct (IH r1 eq_refl) as (u & s' & r0 & -> & Hu & Hk & ->).
        exists (x :: u), s', r0. simpl. rewrite Hc, Hu, shift_shift. auto.
      * intros Hk. exists [], (x :: s), r. rewrite shift_0. auto.
    + intros Hk. exists [], (x :: s), r. rewrite shift_0. auto.
Qed.

Lemma lazy_Some c k s r :
  lazy c k s = Some r ->
  exists u s' r0, s = u ++ s' /\ forallb c u = true /\ k s' = Some r0
                  /\ r = shift (length u) r0.
Proof.
  revert r. induction s as [|x s IH]; intros r; simpl.
  - destruct (k []) as [r0|] eqn:Hk; [|discriminate].
    intros [= <-]. exists [], [], r0. rewrite shift_0. auto.
  - destruct (k (x :: s)) as [r0|] eqn:Hk.
    + intros [= <-]. exists [], (x :: s), r0. rewrite shift_0. auto.
    + destruct (c x) eqn:Hc; [|discriminate].
      destruct (lazy c k s) as [r1|] eqn:Hl; simpl; [|discriminate].
      intros [= <-]. destruct (IH r1 eq_refl) as (u & s' & r0 & -> & Hu & Hk' & ->).
      exists (x :: u), s', r0. simpl. rewrite Hc, Hu, shift_shift. auto.
Qed.

(** Soundness: a result of [run] describes an instance of the pattern at
    the head of the text. *)
Lemma run_sound p s ms len :
  run p s = Some (ms, len) ->
  exists w rest, s = w ++ rest /\ length w = len /\ matches p w ms.
Proof.
  revert s ms len. induction p as [|a p IH]; intros s ms len; simpl.
  - intros [= <- <-]. exists [], s. repeat split. constructor.
  - destruct a as [c|c|c|c|c|].
    + intros H. apply one_Some in H as (x & s' & [ms0 len0] & -> & Hc & Hk & [= -> ->]).
      destruct (IH _ _ _ Hk) as (w & rest & -> & <- & Hm).
      exists (x :: w), rest. repeat split. constructor; assumption.
    + destruct (one c (run p) s) as [r|] eqn:Hone.
      * intros [= ->].
        apply one_Some in Hone as (x & s' & [ms0 len0] & -> & Hc & Hk & [= -> ->]).
        destruct (IH _ _ _ Hk) as (w & rest & -> & <- & Hm).
        exists (x :: w), rest. repeat split. constructor; assumption.
      * intros Hk. destruct (IH _ _ _ Hk) as (w & rest & -> & <- & Hm).
        exists w, rest. repeat split. apply matches_opt_none, Hm.
    + intros H.
      apply greedy_Some in H as (u & s' & [ms0 len0] & -> & Hu & Hk & [= -> ->]).
      destruct (IH _ _ _ Hk) as (w & rest & -> & <- & Hm).
      exists (u ++ w), rest. rewrite <- app_assoc, length_app.
      repeat split. constructor; assumption.
    + intros H. apply one_Some in H as (x & s1 & r1 & -> & Hc & H & Heq).
      apply greedy_Some in H as (u & s' & [ms0 len0] & -> & Hu & Hk & ->).
      destruct (IH _ _ _ Hk) as (w & rest & -> & <- & Hm).
      rewrite shift_shift in Heq. injection Heq as -> ->.
      exists (x :: u ++ w), rest. simpl. rewrite <- app_assoc, length_app.
      repeat split. constructor; assumption.
    + intros H. apply one_Some in H as (x & s1 & r1 & -> & Hc & H & Heq).
      apply lazy_Some in H as (u & s' & [ms0 len0] & -> & Hu & Hk & ->).
      destruct (IH _ _ _ Hk) as (w & rest & -> & <- & Hm).
      rewrite shift_shift in Heq. injection Heq as -> ->.
      exists (x :: u ++ w), rest. simpl. rewrite <- app_assoc, length_app.
      repeat split. constructor; assumption.
    + destruct (run p s) as [[ms0 len0]|] eqn:Hk; simpl; [|discriminate].
      intros [= <- <-]. destruct (IH _ _ _ Hk) as (w & rest & -> & <- & Hm).
      exists w, rest. repeat split. constructor; assumption.
Qed.

(** *** Completeness: an instance at the head of the text is found *)

Lemma greedy_complete c k u s' :
  forallb c u = true -> is_Some (k s') -> is_Some (greedy c k (u ++ s')).
Proof.
  intros Hu Hk. induction u as [|x u IH]; simpl.
  - destruct s' as [|y s']; simpl; [exact Hk|].
    destruct (c y); [|exact Hk].
    destruct (greedy c k s'); [eauto|exact Hk].
  - simpl in Hu. apply andb_prop in Hu as [Hx Hu]. rewrite Hx.
    destruct (IH Hu) as [r ->]. eauto.
Qed.

Lemma lazy_complete c k u s' :
  forallb c u = true -> is_Some (k s') -> is_Some (lazy c k (u ++ s')).
Proof.
  intros Hu Hk. induction u as [|x u IH]; simpl.
  - destruct s' as [|y s']; simpl; destruct Hk as [r ->]; eauto.
  - simpl in Hu. apply andb_prop in Hu as [Hx Hu].
    destruct (k (x :: u ++ s')); [eauto|].
    rewrite Hx. destruct (IH Hu) as [r ->]. simpl. eauto.
Qed.

Lemma run_complete p w ms rest :
  matches p w ms -> is_Some (run p (w ++ rest)).
Proof.
  induction 1 as [|p w ms _ IH|c p x w ms Hc _ IH|c p x w ms Hc _ IH|c p w ms _ IH
                 |c p u w ms Hu _ IH|c p x u w ms Hc Hu _ IH|c p x u w ms Hc Hu _ IH];
    simpl.
  - eauto.
  - destruct IH as [r ->]. simpl. eauto.
  - rewrite Hc. destruct IH as [r ->]. simpl. eauto.
  - rewrite Hc. destruct IH as [r ->]. simpl. eauto.
  - destruct (one c (run p) (w ++ rest)); [eauto|exact IH].
  - rewrite <- app_assoc. apply greedy_complete; assumption.
  - rewrite Hc, <- app_assoc.
    destruct (greedy_complete c (run p) u (w ++ rest) Hu IH) as [r ->]. simpl. eauto.
  - rewrite Hc, <- app_assoc.
    destruct (lazy_complete c (run p) u (w ++ rest) Hu IH) as [r ->]. simpl. eauto.
Qed.

(** *** A character that no class accepts bounds every match *)

Lemma one_barrier b c k s1 s2 :
  c b = false -> (forall s, k (s ++ b :: s2) = k s) ->
  one c k (s1 ++ b :: s2) = one c k s1.
Proof.
  intros Hb Hk. destruct s1 as [|x s1]; simpl.
  - rewrite Hb. reflexivity.
  - rewrite Hk. reflexivity.
Qed.

Lemma greedy_barrier b c k s1 s2 :
  c b = false -> (forall s, k (s ++ b :: s2) = k s) ->
  greedy c k (s1 ++ b :: s2) = greedy c k s1.
Proof.
  intros Hb Hk. induction s1 as [|x s1 IH]; simpl.
  - rewrite Hb. apply (Hk []).
  - rewrite IH, <- (Hk (x :: s1)). reflexivity.
Qed.

Lemma lazy_barrier b c k s1 s2 :
  c b = false -> (forall s, k (s ++ b :: s2) = k s) ->
  lazy c k (s1 ++ b :: s2) = lazy c k s1.
Proof.
  intros Hb Hk. induction s1 as [|x s1 IH]; simpl.
  - change (k (b :: s2)) with (k ([] ++ b :: s2)). rewrite (Hk []).
    destruct (k []); [reflexivity|]. rewrite Hb. reflexivity.
  - rewrite IH, <- (Hk (x :: s1)). reflexivity.
Qed.

Lemma run_barrier b p s1 s2 :
  Forall (rejects b) p -> run p (s1 ++ b :: s2) = run p s1.
Proof.
  intros Hp. revert s1. induction Hp as [|a p Ha _ IH]; intros s1; simpl.
  - reflexivity.
  - destruct a as [c|c|c|c|c|]; simpl in Ha.
    + apply one_barrier; assumption.
    + rewrite one_barrier, IH by assumption. reflexivity.
    + apply greedy_barrier; assumption.
    + apply one_barrier; [assumption|]. intros s. apply greedy_barrier; assumption.
    + apply one_barrier; [assumption|]. intros s. apply lazy_barrier; assumption.
    + rewrite IH. reflexivity.
Qed.

(** The boundaries of a match lie inside it. *)
Lemma matches_marks_bound p w ms :
  matches p w ms -> Forall (fun m => m <= length w) ms.
Proof.
  induction 1; simpl; try (constructor; [lia|]); try assumption;
    try (apply List.Forall_map; eapply List.Forall_impl; [|eassumption];
         simpl; intros; rewrite ?length_app; lia).
  constructor.
Qed.

(** *** The scan of [findall] *)

Lemma substring_app_l (a b : nat) (s1 s2 : list ascii) :
  b <= length s1 -> substring a b (s1 ++ s2) = substring a b s1.
Proof.
  intros Hb. unfold substring.
  destruct (Nat.le_gt_cases b a) as [Hle|Hlt].
  - replace (b - a) with 0 by lia. reflexivity.
  - rewrite skipn_app. replace (a - length s1) with 0 by lia. simpl.
    rewrite firstn_app. rewrite length_skipn.
    replace (b - a - (length s1 - a)) with 0 by lia.
    simpl. apply app_nil_r.
Qed.

Lemma groups_app_l (ms : list nat) (s1 s2 : list ascii) :
  Forall (fun m => m <= length s1) ms -> groups ms (s1 ++ s2) = groups ms s1.
Proof.
  revert ms. fix IH 1. intros [|a [|b ms]] Hms; simpl; try reflexivity.
  inversion Hms as [|? ? _ Hms']; subst. inversion Hms' as [|? ? Hb Hrest]; subst.
  rewrite substring_app_l by assumption. f_equal. apply IH, Hrest.
Qed.

Lemma scan_barrier (p : list atom) (b : ascii) (skip : nat) (s1 s2 : list ascii) :
  Forall (rejects b) p -> run p [] = None -> skip <= length s1 ->
  scan p skip (s1 ++ b :: s2) = scan p skip s1 ++ scan p 0 s2.
Proof.
  intros Hp Hempty. revert skip. induction s1 as [|x s1 IH]; intros skip Hskip.
  - simpl in Hskip. replace skip with 0 by lia. simpl.
    pose proof (run_barrier b p [] s2 Hp) as Hb. simpl in Hb.
    rewrite Hb, Hempty. reflexivity.
  - destruct skip as [|k]; simpl.
    + change (x :: s1 ++ b :: s2) with ((x :: s1) ++ b :: s2).
      rewrite (run_barrier b p (x :: s1) s2 Hp).
      destruct (run p (x :: s1)) as [[ms len]|] eqn:Hrun.
      * destruct (run_sound _ _ _ _ Hrun) as (w & rest & Hs & Hlen & Hm).
        assert (Hle : len <= length (x :: s1)).
        { rewrite Hs, length_app. lia. }
        rewrite groups_app_l.
        2:{ eapply List.Forall_impl; [|apply (matches_marks_bound _ _ _ Hm)].
            simpl. intros m Hm'. simpl in Hle. lia. }
        simpl. f_equal. apply IH. simpl in Hle. lia.
      * apply IH. lia.
    + apply IH. simpl in Hskip. lia.
Qed.

Lemma scan_join (p : list atom) (b : ascii) (segs : list (list ascii)) :
  Forall (rejects b) p -> run p [] = None ->
  scan p 0 (join_on b segs) = concat (map (scan p 0) segs).
Proof.
  intros Hp Hempty. induction segs as [|w segs IH]; simpl.
  - reflexivity.
  - destruct segs as [|w' segs].
    + simpl. rewrite app_nil_r. reflexivity.
    + rewrite scan_barrier by (auto; lia). rewrite IH. reflexivity.
Qed.

Lemma scan_skip (p : list atom) (u s : list ascii) :
  scan p (length u) (u ++ s) = scan p 0 s.
Proof. induction u as [|x u IH]; simpl; auto. Qed.

Lemma scan_no_match (p : list atom) (skip : nat) (s : list ascii) :
  (forall t1 t2, s = t1 ++ t2 -> run p t2 = None) -> scan p skip s = [].
Proof.
  revert skip. induction s as [|x s IH]; intros skip Hnone; simpl.
  - reflexivity.
  - assert (Htail : forall t1 t2, s = t1 ++ t2 -> run p t2 = None).
    { intros t1 t2 ->. apply (Hnone (x :: t1)). reflexivity. }
    destruct skip; [|auto].
    rewrite (Hnone [] (x :: s) eq_refl). auto.
Qed.

(** ** The strength pattern *)

Lemma chr_is_eq (a c : ascii) : chr_is a c = true <-> c = a.
Proof. unfold chr_is. rewrite Ascii.eqb_eq. split; congruence. Qed.

Lemma is_sign_cases (c : ascii) :
  is_sign c = true -> c = "+"%char \/ c = "-"%char.
Proof.
  unfold is_sign. intros H. apply orb_prop in H as [H|H];
    apply chr_is_eq in H; auto.
Qed.

Lemma forallb_weaken (P Q : ascii -> bool) (l : list ascii) :
  (forall c, P c = true -> Q c = true) -> forallb P l = true -> forallb Q l = true.
Proof.
  intros HPQ. rewrite !forallb_forall. auto.
Qed.

Lemma number_numchar (num : list ascii) : number num -> forallb numchar num = true.
Proof.
  intros (sg & ip & dt & fp & -> & Hsg & Hip & Hdt & Hfp & _).
  rewrite !forallb_app. repeat (apply andb_true_intro; split).
  - destruct Hsg as [->|[->| ->]]; reflexivity.
  - eapply forallb_weaken; [|exact Hip]. unfold numchar. intros c ->.
    rewrite orb_true_r. reflexivity.
  - destruct Hdt as [->| ->]; reflexivity.
  - eapply forallb_weaken; [|exact Hfp]. unfold numchar. intros c ->.
    rewrite orb_true_r. reflexivity.
Qed.

Lemma numchar_not (b : ascii) (u : list ascii) :
  numchar b = false -> forallb numchar u = true -> ~ In b u.
Proof.
  intros Hb Hu Hin. rewrite forallb_forall in Hu. specialize (Hu b Hin). congruence.
Qed.

(** Two texts that agree up to a first occurrence of [b] agree on it. *)
Lemma app_barrier_inj (b : ascii) (u u' r r' : list ascii) :
  ~ In b u -> ~ In b u' -> u ++ b :: r = u' ++ b :: r' -> u = u' /\ r = r'.
Proof.
  revert u'. induction u as [|x u IH]; intros [|x' u'] Hu Hu'; simpl.
  - intros [= ->]. auto.
  - intros [= <- _]. exfalso. apply Hu'. simpl. auto.
  - intros [= -> _]. exfalso. apply Hu. simpl. auto.
  - intros [= -> Heq]. destruct (IH u') as [-> ->]; auto.
    + intros Hin. apply Hu. simpl. auto.
    + intros Hin. apply Hu'. simpl. auto.
Qed.

Lemma number_matches (num : list ascii) :
  number num -> exists ms, matches number_tail (num ++ [rparen]) ms.
Proof.
  intros (sg & ip & dt & fp & -> & Hsg & Hip & Hdt & Hfp & Hne).
  destruct fp as [|d fp]; [contradiction|]. simpl in Hfp.
  apply andb_prop in Hfp as [Hd Hfp].
  assert (Hlast : exists ms, matches [Plus is_digit; Mark; Chr (chr_is rparen)]
                               ((d :: fp) ++ [rparen]) ms).
  { eexists. simpl. apply matches_plus; [assumption..|].
    apply matches_mark. apply matches_chr; [reflexivity|]. apply matches_nil. }
  destruct Hlast as [ms0 Hlast].
  assert (Hdot : exists ms, matches [Opt (chr_is dot); Plus is_digit; Mark;
                                     Chr (chr_is rparen)]
                              ((dt ++ d :: fp) ++ [rparen]) ms).
  { destruct Hdt as [->| ->]; simpl.
    - eexists. apply matches_opt_none. exact Hlast.
    - eexists. apply matches_opt_some; [reflexivity|]. exact Hlast. }
  destruct Hdot as [ms1 Hdot].
  assert (Hstar : exists ms, matches (Star is_digit :: [Opt (chr_is dot); Plus is_digit;
                                        Mark; Chr (chr_is rparen)])
                               (ip ++ dt ++ (d :: fp) ++ [rparen]) ms).
  { eexists. apply matches_star; [assumption|].
    rewrite <- app_assoc in Hdot. exact Hdot. }
  destruct Hstar as [ms2 Hstar].
  unfold number_tail. rewrite <- !app_assoc.
  destruct Hsg as [->|[->| ->]]; simpl; simpl in Hstar; eexists;
    [apply matches_opt_none
    |apply matches_opt_some; [reflexivity|]
    |apply matches_opt_some; [reflexivity|]]; exact Hstar.
Qed.

Ltac invert_matches H := inversion H; subst; clear H.

Lemma matches_number (w : list ascii) (ms : list nat) :
  matches number_tail w ms ->
  exists num, number num /\ w = num ++ [rparen] /\ ms = [length num].
Proof.
  unfold number_tail. intros H.
  assert (Hrest : forall w ms,
            matches [Star is_digit; Opt (chr_is dot); Plus is_digit; Mark;
                     Chr (chr_is rparen)] w ms ->
            exists ip dt fp, w = ip ++ dt ++ fp ++ [rparen]
              /\ forallb is_digit ip = true /\ (dt = [] \/ dt = [dot])
              /\ forallb is_digit fp = true /\ fp <> []
              /\ ms = [length (ip ++ dt ++ fp)]).
  { clear. intros w ms H.
    invert_matches H.
    match goal with H : matches (Opt _ :: _) _ _ |- _ => invert_matches H end;
      match goal with H : matches (Plus _ :: _) _ _ |- _ => invert_matches H end;
      match goal with H : matches (Mark :: _) _ _ |- _ => invert_matches H end;
      match goal with H : matches (Chr _ :: _) _ _ |- _ => invert_matches H end;
      match goal with H : matches [] _ _ |- _ => invert_matches H end;
      repeat match goal with
             | H : chr_is _ _ = true |- _ => apply chr_is_eq in H; subst
             end.
    - exists u, [dot], (x0 :: u0). simpl.
      repeat split; auto; try discriminate.
      + match goal with H : is_digit x0 = true |- _ => rewrite H end. assumption.
      + f_equal. rewrite !length_app. simpl. lia.
    - exists u, [], (x :: u0). simpl.
      repeat split; auto; try discriminate.
      + match goal with H : is_digit x = true |- _ => rewrite H end. assumption.
      + f_equal. rewrite !length_app. simpl. lia. }
  invert_matches H;
    match goal with
    | Hm : matches _ _ _ |- _ =>
        apply Hrest in Hm;
        destruct Hm as (ip & dt & fp & -> & Hip & Hdt & Hfp & Hne & ->)
    end.
  - assert (Hx : x = "+"%char \/ x = "-"%char) by (apply is_sign_cases; assumption).
    exists (x :: ip ++ dt ++ fp). split; [|split].
    + exists [x], ip, dt, fp. repeat split; auto.
      destruct Hx as [->| ->]; auto.
    + simpl. rewrite <- !app_assoc. reflexivity.
    + reflexivity.
  - exists (ip ++ dt ++ fp). split; [|split].
    + exists [], ip, dt, fp. repeat split; auto.
    + rewrite <- !app_assoc. reflexivity.
    + reflexivity.
Qed.

Lemma run_number_tail (num post : list ascii) :
  number num ->
  run number_tail (num ++ rparen :: post) = Some ([length num], S (length num)).
Proof.
  intros Hnum.
  destruct (number_matches num Hnum) as [ms0 Hm0].
  destruct (run_complete _ _ _ post Hm0) as [[ms len] Hrun].
  rewrite <- app_assoc in Hrun. change ([rparen] ++ post) with (rparen :: post) in Hrun.
  rewrite Hrun.
  destruct (run_sound _ _ _ _ Hrun) as (w & rest & Hs & Hlen & Hm).
  apply matches_number in Hm as (num' & Hnum' & -> & ->).
  rewrite <- app_assoc in Hs. change ([rparen] ++ rest) with (rparen :: rest) in Hs.
  apply app_barrier_inj in Hs as [<- _];
    try (apply numchar_not; [reflexivity|apply number_numchar; assumption]).
  rewrite length_app in Hlen. simpl in Hlen. do 2 f_equal. lia.
Qed.

Lemma is_space_not_lparen (w : ascii) : is_space w = true -> chr_is lparen w = false.
Proof.
  intros Hw. destruct (chr_is lparen w) eqn:Heq; [|reflexivity].
  apply chr_is_eq in Heq. subst. discriminate.
Qed.

(** The rest of the pattern, on a space, a parenthesis and a number. *)
Lemma run_strength_tail (w : ascii) (num post : list ascii) :
  is_space w = true -> number num ->
  run strength_tail (w :: lparen :: num ++ rparen :: post)
    = Some ([0; 2; 2 + length num], 3 + length num).
Proof.
  intros Hw Hnum. unfold strength_tail.
  change (run (Mark :: Chr is_space :: Chr (chr_is lparen) :: Mark :: number_tail))
    with (fun s => option_map (fun r : found => (0 :: fst r, snd r))
                     (one is_space (one (chr_is lparen)
                        (fun s => option_map (fun r : found => (0 :: fst r, snd r))
                                    (run number_tail s))) s)).
  cbn beta. unfold one. rewrite Hw. change (chr_is lparen lparen) with true. cbn iota.
  rewrite run_number_tail by assumption. reflexivity.
Qed.

(** The rest of the pattern fails where the second character is not "(". *)
Lemma run_strength_tail_None (a b : ascii) (t : list ascii) :
  chr_is lparen b = false -> run strength_tail (a :: b :: t) = None.
Proof.
  intros Hb. unfold strength_tail.
  change (run (Mark :: Chr is_space :: Chr (chr_is lparen) :: Mark :: number_tail))
    with (fun s => option_map (fun r : found => (0 :: fst r, snd r))
                     (one is_space (one (chr_is lparen)
                        (fun s => option_map (fun r : found => (0 :: fst r, snd r))
                                    (run number_tail s))) s)).
  cbn beta. unfold one. rewrite Hb.
  destruct (is_space a); reflexivity.
Qed.

(** A lazy repetition stops at the first place where the rest matches. *)
Lemma lazy_shortest c k (u s' : list ascii) (r : found) :
  forallb c u = true -> k s' = Some r ->
  (forall u1 u2, u = u1 ++ u2 -> u2 <> [] -> k (u2 ++ s') = None) ->
  lazy c k (u ++ s') = Some (shift (length u) r).
Proof.
  intros Hu Hk. induction u as [|x u IH]; intros Hfail.
  - simpl. rewrite shift_0. destruct s'; simpl; rewrite Hk; reflexivity.
  - simpl in Hu. apply andb_prop in Hu as [Hx Hu]. simpl.
    pose proof (Hfail [] (x :: u) eq_refl) as Hhere. simpl in Hhere.
    rewrite Hhere by discriminate. rewrite Hx.
    rewrite IH; [simpl; rewrite shift_shift; reflexivity|assumption|].
    intros u1 u2 -> Hne. apply (Hfail (x :: u1) u2); [reflexivity|assumption].
Qed.

Lemma is_space_not_numchar (w : ascii) : is_space w = true -> numchar w = false.
Proof.
  intros Hw.
  destruct w as [[] [] [] [] [] [] [] []]; vm_compute in Hw; try discriminate;
    reflexivity.
Qed.

Lemma is_space_not_rparen (w : ascii) : is_space w = true -> w <> rparen.
Proof. intros Hw ->. discriminate. Qed.

(** A text that ends before the barrier [w]. *)
Lemma prefix_before_barrier (w c : ascii) (n u t rest : list ascii) :
  ~ In w n -> w <> c -> u ++ w :: t = n ++ c :: rest ->
  exists rest', u = n ++ c :: rest'.
Proof.
  intros Hn Hc. revert u. induction n as [|d n IH]; intros u Heq.
  - destruct u as [|x u]; simpl in Heq; injection Heq as Hx Heq.
    + contradiction.
    + subst x. exists u. reflexivity.
  - destruct u as [|x u]; simpl in Heq; injection Heq as Hx Heq.
    + exfalso. apply Hn. simpl. auto.
    + subst x. destruct (IH (fun H => Hn (or_intror H)) u Heq) as [rest' ->].
      exists rest'. reflexivity.
Qed.

(** What a match of the pattern after the first group has read. *)
Lemma matches_strength_tail (t : list ascii) (ms : list nat) :
  matches strength_tail t ms ->
  exists w num, t = w :: lparen :: num ++ [rparen] /\ is_space w = true /\ number num.
Proof.
  unfold strength_tail. intros H.
  invert_matches H.
  match goal with H : matches (Chr _ :: _) _ _ |- _ => invert_matches H end.
  match goal with H : matches (Chr _ :: _) _ _ |- _ => invert_matches H end.
  match goal with H : matches (Mark :: _) _ _ |- _ => invert_matches H end.
  match goal with
  | H : matches _ _ _ |- _ =>
      apply (matches_number _ _) in H; destruct H as (num & Hnum & -> & ->)
  end.
  match goal with H : chr_is lparen _ = true |- _ => apply chr_is_eq in H; subst end.
  eauto.
Qed.

(** A strength that starts before a space ends before it. *)
Lemma strength_ends_before_space (a w : ascii) (u t : list ascii) (r : found) :
  is_space w = true ->
  run strength_tail (a :: u ++ w :: t) = Some r ->
  exists num rest, u = lparen :: num ++ rparen :: rest
    /\ is_space a = true /\ number num.
Proof.
  intros Hw Hrun. destruct r as [ms len].
  apply run_sound in Hrun as (t1 & rest & Heq & _ & Hm).
  apply matches_strength_tail in Hm as (x & num & -> & Hx & Hnum).
  cbn [app] in Heq. injection Heq as -> Heq.
  destruct u as [|b u]; cbn [app] in Heq; injection Heq as Hb Heq.
  - subst w. discriminate.
  - subst b. rewrite <- app_assoc in Heq. cbn [app] in Heq.
    destruct (prefix_before_barrier w rparen num u t rest) as [rest' ->].
    + apply numchar_not; [apply is_space_not_numchar, Hw|apply number_numchar, Hnum].
    + apply is_space_not_rparen, Hw.
    + exact Heq.
    + eauto.
Qed.

(** The match at the head of a well-formed segment: the first group is the
    text before the space. *)
Lemma run_lora_segment (pre : list ascii) (w : ascii) (num post : list ascii) :
  pre <> [] -> ~ In comma pre -> ~ has_strength pre ->
  is_space w = true -> number num ->
  run lora_pattern (pre ++ w :: lparen :: num ++ rparen :: post)
    = Some ([0; length pre; length pre + 2; length pre + 2 + length num],
            length pre + 3 + length num).
Proof.
  intros Hne Hcomma Hstrength Hw Hnum.
  destruct pre as [|x pre]; [contradiction|].
  change (run lora_pattern)
    with (fun s => option_map (fun r : found => (0 :: fst r, snd r))
                     (one (chr_not comma) (lazy (chr_not comma) (run strength_tail)) s)).
  cbn beta. simpl app. unfold one.
  assert (Hx : chr_not comma x = true).
  { unfold chr_not. destruct (Ascii.eqb_spec comma x); [|reflexivity].
    exfalso. apply Hcomma. simpl. auto. }
  rewrite Hx.
  assert (Hpre : forallb (chr_not comma) pre = true).
  { apply forallb_forall. intros c Hc. unfold chr_not.
    destruct (Ascii.eqb_spec comma c); [|reflexivity].
    exfalso. apply Hcomma. simpl. subst. auto. }
  assert (Hfail : forall u1 u2, pre = u1 ++ u2 -> u2 <> [] ->
            run strength_tail (u2 ++ w :: lparen :: num ++ rparen :: post) = None).
  { intros u1 [|a u2] Hpre' Hu2; [contradiction|]. cbn [app].
    destruct (run strength_tail (a :: u2 ++ w :: lparen :: num ++ rparen :: post))
      as [r|] eqn:Hrun; [|reflexivity].
    exfalso. apply Hstrength.
    destruct (strength_ends_before_space a w u2 _ r Hw Hrun)
      as (num' & rest' & -> & Ha & Hnum').
    exists (x :: u1), a, num', rest'. rewrite Hpre'. auto. }
  rewrite (lazy_shortest _ _ pre _ _ Hpre (run_strength_tail w num post Hw Hnum) Hfail).
  simpl. do 2 f_equal; [|lia].
  repeat (f_equal; try lia).
Qed.

(** What a match of the pattern has read. *)
Lemma matches_lora (t : list ascii) (ms : list nat) :
  matches lora_pattern t ms ->
  exists g1 w num,
    t = g1 ++ w :: lparen :: num ++ [rparen]
    /\ g1 <> [] /\ is_space w = true /\ number num
    /\ ms = [0; length g1; length g1 + 2; length g1 + 2 + length num].
Proof.
  unfold lora_pattern. intros H.
  invert_matches H.
  match goal with H : matches (PlusLazy _ :: _) _ _ |- _ => invert_matches H end.
  match goal with H : matches (Mark :: _) _ _ |- _ => invert_matches H end.
  match goal with H : matches (Chr _ :: _) _ _ |- _ => invert_matches H end.
  match goal with H : matches (Chr _ :: _) _ _ |- _ => invert_matches H end.
  match goal with H : matches (Mark :: _) _ _ |- _ => invert_matches H end.
  match goal with
  | H : matches _ _ _ |- _ =>
      apply (matches_number _ _) in H; destruct H as (num & Hnum & -> & ->)
  end.
  match goal with H : chr_is lparen _ = true |- _ => apply chr_is_eq in H; subst end.
  exists (x :: u), x0, num. simpl. repeat split; auto; try discriminate.
  repeat (f_equal; try lia).
Qed.

Lemma run_lora_has_strength (t1 t2 : list ascii) (r : found) :
  run lora_pattern t2 = Some r -> has_strength (t1 ++ t2).
Proof.
  destruct r as [ms len]. intros Hrun.
  destruct (run_sound _ _ _ _ Hrun) as (w & rest & -> & _ & Hm).
  apply matches_lora in Hm as (g1 & sp & num & -> & _ & Hsp & Hnum & _).
  exists (t1 ++ g1), sp, num, rest. split; [|auto].
  rewrite <- !app_assoc. simpl. rewrite <- app_assoc. reflexivity.
Qed.

Lemma findall_no_strength (skip : nat) (s : list ascii) :
  ~ has_strength s -> scan lora_pattern skip s = [].
Proof.
  intros Hno. apply scan_no_match. intros t1 t2 ->.
  destruct (run lora_pattern t2) as [r|] eqn:Hrun; [|reflexivity].
  exfalso. apply Hno. eapply run_lora_has_strength; eauto.
Qed.

Lemma lora_rejects_comma : Forall (rejects comma) lora_pattern.
Proof. unfold lora_pattern. repeat constructor. Qed.

Lemma no_lparen_no_strength (s : list ascii) : ~ In lparen s -> ~ has_strength s.
Proof.
  intros Hno (pre & w & num & post & -> & _). apply Hno.
  apply in_or_app. right. simpl. auto.
Qed.

(** ** The entries of a slot *)

#[local] Arguments chr_is : simpl never.
#[local] Arguments is_digit : simpl never.

Lemma is_digit_not_dot (c : ascii) : is_digit c = true -> chr_is dot c = false.
Proof.
  intros Hc. destruct (chr_is dot c) eqn:Heq; [|reflexivity].
  apply chr_is_eq in Heq. subst. discriminate.
Qed.

Lemma split_dot_digits (d t : list ascii) :
  forallb is_digit d = true ->
  split_dot (d ++ t) = (d ++ fst (split_dot t), snd (split_dot t)).
Proof.
  intros Hd. induction d as [|c d IH]; simpl.
  - destruct (split_dot t); reflexivity.
  - simpl in Hd. apply andb_prop in Hd as [Hc Hd].
    rewrite (is_digit_not_dot c Hc), (IH Hd). reflexivity.
Qed.

Lemma split_dot_no_dot (d : list ascii) :
  forallb is_digit d = true -> split_dot d = (d, None).
Proof.
  intros Hd. rewrite <- (app_nil_r d) at 1.
  rewrite (split_dot_digits d [] Hd). simpl. rewrite app_nil_r. reflexivity.
Qed.

Lemma unsigned_float_number (neg : bool) (ip dt fp : list ascii) :
  forallb is_digit ip = true -> (dt = [] \/ dt = [dot]) ->
  forallb is_digit fp = true -> fp <> [] ->
  exists f, unsigned_float neg (ip ++ dt ++ fp) = Ok f.
Proof.
  intros Hip Hdt Hfp Hne. unfold unsigned_float.
  rewrite (split_dot_digits ip _ Hip).
  destruct Hdt as [->| ->]; simpl.
  - rewrite (split_dot_no_dot fp Hfp). simpl.
    rewrite !app_nil_r, forallb_app, Hip, Hfp. simpl.
    destruct fp as [|c fp]; [contradiction|].
    rewrite length_app. simpl. rewrite Nat.add_0_r.
    replace (length ip + S (length fp) =? 0)%nat with false
      by (symmetry; apply Nat.eqb_neq; lia).
    simpl. eauto.
  - rewrite app_nil_r, Hip, Hfp. simpl.
    destruct fp as [|c fp]; [contradiction|]. simpl.
    replace (length ip + S (length fp) =? 0)%nat with false
      by (symmetry; apply Nat.eqb_neq; lia).
    simpl. eauto.
Qed.

(** [float] accepts every text the pattern captures as a strength. *)
Lemma py_float_number (num : list ascii) :
  number num -> exists f, py_float num = Ok f.
Proof.
  intros (sg & ip & dt & fp & -> & Hsg & Hip & Hdt & Hfp & Hne).
  destruct Hsg as [->|[->| ->]]; simpl.
  - destruct (unsigned_float_number false ip dt fp Hip Hdt Hfp Hne) as [f Hf].
    exists f. rewrite <- Hf.
    destruct (ip ++ dt ++ fp) as [|c rest] eqn:Heq.
    { destruct ip, dt, fp; try discriminate; contradiction. }
    assert (Hc : is_digit c = true \/ c = dot).
    { destruct ip as [|c' ip]; simpl in *.
      - destruct Hdt as [->| ->]; simpl in *.
        + destruct fp; [contradiction|]. injection Heq as -> _.
          apply andb_prop in Hfp as [? _]. auto.
        + injection Heq as <- _. auto.
      - injection Heq as -> _. apply andb_prop in Hip as [? _]. auto. }
    assert (Hminus : chr_is "-"%char c = false).
    { destruct (chr_is "-"%char c) eqn:Hm; [|reflexivity].
      apply chr_is_eq in Hm. subst. destruct Hc; discriminate. }
    assert (Hplus : chr_is "+"%char c = false).
    { destruct (chr_is "+"%char c) eqn:Hm; [|reflexivity].
      apply chr_is_eq in Hm. subst. destruct Hc; discriminate. }
    simpl. rewrite Hminus, Hplus. reflexivity.
  - apply unsigned_float_number; assumption.
  - apply unsigned_float_number; assumption.
Qed.

Lemma groups_lora (g1 : list ascii) (w : ascii) (num t : list ascii) :
  groups [0; length g1; length g1 + 2; length g1 + 2 + length num]
    (g1 ++ w :: lparen :: num ++ t) = [g1; num].
Proof.
  simpl. unfold substring. f_equal; [|f_equal].
  - rewrite Nat.sub_0_r. simpl. apply take_app_length.
  - replace (length g1 + 2 + length num - (length g1 + 2)) with (length num) by lia.
    replace (g1 ++ w :: lparen :: num ++ t) with ((g1 ++ [w; lparen]) ++ num ++ t)
      by (rewrite <- app_assoc; reflexivity).
    replace (length g1 + 2) with (length (g1 ++ [w; lparen]))
      by (rewrite length_app; reflexivity).
    rewrite drop_app_length. apply take_app_length.
Qed.

Lemma map_result_app {A B} (f : A -> result B) (l1 l2 : list A) :
  map_result f (l1 ++ l2)
  = (do a <- map_result f l1; do b <- map_result f l2; Ok (a ++ b)).
Proof.
  induction l1 as [|x l1 IH]; simpl.
  - destruct (map_result f l2); reflexivity.
  - destruct (f x) as [y|e]; simpl; [|reflexivity].
    rewrite IH. destruct (map_result f l1) as [a|e]; simpl; [|reflexivity].
    destruct (map_result f l2); reflexivity.
Qed.

(** Every match of the pattern gives an entry. *)
Lemma scan_entries (skip : nat) (s : list ascii) :
  exists es, map_result entry_of_match (scan lora_pattern skip s) = Ok es.
Proof.
  revert skip. induction s as [|x s IH]; intros skip; cbn [scan map_result]; [eauto|].
  destruct skip as [|k]; [|apply IH].
  destruct (run lora_pattern (x :: s)) as [[ms len]|] eqn:Hrun; [|apply IH].
  destruct (run_sound _ _ _ _ Hrun) as (w & rest & Hs & _ & Hm).
  apply matches_lora in Hm as (g1 & sp & num & -> & _ & _ & Hnum & ->).
  assert (Hg : groups [0; length g1; length g1 + 2; length g1 + 2 + length num] (x :: s)
               = [g1; num]).
  { rewrite Hs, <- app_assoc. cbn [app]. rewrite <- app_assoc. apply groups_lora. }
  rewrite Hg. cbn [map_result entry_of_match].
  destruct (py_float_number num Hnum) as [f ->].
  destruct (IH (len - 1)) as [es ->]. simpl. eauto.
Qed.

Lemma entries_of_text_join (segs : list (list ascii)) :
  entries_of_text (join_on comma segs)
  = (do per_segment <- map_result entries_of_text segs; Ok (concat per_segment)).
Proof.
  unfold entries_of_text, findall.
  rewrite (scan_join lora_pattern comma segs lora_rejects_comma eq_refl).
  induction segs as [|seg segs IH]; [reflexivity|].
  cbn [map concat map_result]. rewrite map_result_app, IH.
  destruct (map_result entry_of_match (scan lora_pattern 0 seg)); simpl; [|reflexivity].
  destruct (map_result _ segs); reflexivity.
Qed.

Lemma entries_of_text_segment (pre : list ascii) (w : ascii) (num post : list ascii) :
  pre <> [] -> ~ In comma pre -> ~ has_strength pre ->
  is_space w = true -> number num -> ~ has_strength post ->
  exists f, py_float num = Ok f
    /\ entries_of_text (pre ++ w :: lparen :: num ++ rparen :: post)
       = Ok [ {| name := string_of_list_ascii (strip is_space pre); strength := f |} ].
Proof.
  intros Hne Hcomma Hparen Hw Hnum Hpost.
  destruct (py_float_number num Hnum) as [f Hf]. exists f. split; [exact Hf|].
  unfold entries_of_text, findall.
  pose proof (run_lora_segment pre w num post Hne Hcomma Hparen Hw Hnum) as Hrun.
  destruct pre as [|x pre]; [contradiction|].
  cbn [app] in *. cbn [scan]. rewrite Hrun.
  change (x :: pre ++ w :: lparen :: num ++ rparen :: post)
    with ((x :: pre) ++ w :: lparen :: num ++ rparen :: post).
  rewrite groups_lora.
  replace (pre ++ w :: lparen :: num ++ rparen :: post)
    with ((pre ++ w :: lparen :: num ++ [rparen]) ++ post)
    by (rewrite <- !app_assoc; cbn [app]; rewrite <- app_assoc; reflexivity).
  replace (length (x :: pre) + 3 + length num - 1)
    with (length (pre ++ w :: lparen :: num ++ [rparen]))
    by (rewrite !length_app; simpl; rewrite length_app; simpl; lia).
  rewrite scan_skip, (findall_no_strength 0 post Hpost).
  cbn [map_result entry_of_match]. rewrite Hf. reflexivity.
Qed.

(** *** The name of an entry *)

Lemma lstrip_all (p : ascii -> bool) (s : list ascii) :
  forallb p s = true -> lstrip p s = [].
Proof.
  induction s as [|c s IH]; simpl; [reflexivity|].
  intros H. apply andb_prop in H as [-> H]. auto.
Qed.

Lemma lstrip_app (p : ascii -> bool) (ws s : list ascii) :
  forallb p ws = true -> lstrip p (ws ++ s) = lstrip p s.
Proof.
  induction ws as [|c ws IH]; simpl; [reflexivity|].
  intros H. apply andb_prop in H as [-> H]. auto.
Qed.

Lemma forallb_rev_true (p : ascii -> bool) (s : list ascii) :
  forallb p s = true -> forallb p (rev s) = true.
Proof.
  rewrite !forallb_forall. intros H c Hc. apply H, in_rev, Hc.
Qed.

(** Stripping removes the characters of the class at both ends, up to the
    first and the last character outside of it, and nothing else. *)
Lemma strip_trimmed (p : ascii -> bool) (ws1 nm ws2 : list ascii) :
  forallb p ws1 = true -> forallb p ws2 = true ->
  (forall c rest, nm = c :: rest -> p c = false) ->
  (forall c front, nm = front ++ [c] -> p c = false) ->
  strip p (ws1 ++ nm ++ ws2) = nm.
Proof.
  intros H1 H2 Hhead Hlast. unfold strip, rstrip. rewrite lstrip_app by assumption.
  destruct nm as [|c rest].
  - rewrite app_nil_l, (lstrip_all p ws2) by assumption. reflexivity.
  - change ((c :: rest) ++ ws2) with (c :: rest ++ ws2).
    cbn [lstrip]. rewrite (Hhead c rest eq_refl).
    change (c :: rest ++ ws2) with ((c :: rest) ++ ws2). rewrite rev_app_distr.
    rewrite lstrip_app by (apply forallb_rev_true; assumption).
    destruct (rev (c :: rest)) as [|d l] eqn:Hrev.
    + apply (f_equal (@rev ascii)) in Hrev. rewrite rev_involutive in Hrev. discriminate.
    + assert (Hnm : c :: rest = rev l ++ [d]).
      { rewrite <- (rev_involutive (c :: rest)), Hrev. reflexivity. }
      cbn [lstrip]. rewrite (Hlast d (rev l) Hnm). rewrite Hnm. reflexivity.
Qed.

Lemma number_not_nil (num : list ascii) : number num -> num <> [].
Proof.
  intros (sg & ip & dt & fp & -> & _ & _ & _ & _ & Hfp) Heq.
  apply app_eq_nil in Heq as [_ Heq]. apply app_eq_nil in Heq as [_ Heq].
  apply app_eq_nil in Heq as [_ Heq]. contradiction.
Qed.

(** A text in which no "(" is followed by a character of a number holds no
    strength. *)
Lemma no_number_in_parentheses_sound (s : list ascii) :
  no_number_in_parentheses s = true -> ~ has_strength s.
Proof.
  intros Hs (pre & w & num & post & -> & _ & Hnum).
  induction pre as [|c pre IH].
  - cbn [app no_number_in_parentheses] in Hs.
    apply andb_prop in Hs as [_ Hs]. apply andb_prop in Hs as [Hs _].
    rewrite (proj2 (chr_is_eq lparen lparen) eq_refl) in Hs.
    pose proof (number_numchar num Hnum) as Hchars.
    destruct num as [|d num]; [exact (number_not_nil [] Hnum eq_refl)|].
    cbn [app forallb] in Hs, Hchars. apply andb_prop in Hchars as [Hd _].
    rewrite Hd in Hs. discriminate.
  - cbn [app no_number_in_parentheses] in Hs.
    apply andb_prop in Hs as [_ Hs]. exact (IH Hs).
Qed.

(** A segment [<name> (<number>)]: the name is what is left of the text
    before the strength without the whitespace around it. *)
Lemma entries_of_text_named (ws1 nm ws2 : list ascii) (w : ascii)
  (num post : list ascii) :
  forallb is_space ws1 = true -> forallb is_space ws2 = true -> clean_name nm ->
  ws1 ++ nm ++ ws2 <> [] -> ~ has_strength (ws1 ++ nm ++ ws2) ->
  is_space w = true -> number num -> ~ has_strength post ->
  exists f, py_float num = Ok f
    /\ entries_of_text ((ws1 ++ nm ++ ws2) ++ w :: lparen :: num ++ rparen :: post)
       = Ok [ {| name := string_of_list_ascii nm; strength := f |} ].
Proof.
  intros H1 H2 (Hcomma & Hhead & Hlast) Hne Hstrength Hw Hnum Hpost.
  assert (Hws : forall ws, forallb is_space ws = true -> ~ In comma ws).
  { intros ws Hall Hin. rewrite forallb_forall in Hall.
    specialize (Hall comma Hin). discriminate. }
  destruct (entries_of_text_segment (ws1 ++ nm ++ ws2) w num post) as (f & Hf & Hentries);
    try assumption.
  - intros Hin. apply in_app_or in Hin as [Hin|Hin]; [exact (Hws ws1 H1 Hin)|].
    apply in_app_or in Hin as [Hin|Hin]; [exact (Hcomma Hin)|exact (Hws ws2 H2 Hin)].
  - exists f. split; [exact Hf|].
    rewrite Hentries, strip_trimmed by assumption. reflexivity.
Qed.

Lemma entries_of_text_skipped (seg : list ascii) :
  ~ has_strength seg -> entries_of_text seg = Ok [].
Proof.
  intros Hno. unfold entries_of_text, findall.
  rewrite (findall_no_strength 0 seg Hno). reflexivity.
Qed.

(** ** The lora-hub parser *)

(** C1: the parser goes through the slots loras_1 .. loras_4 in this order
    and appends the entries of each slot to those of the slots before; the
    entries of a slot are those of its comma-separated segments, in order; a
    segment [<name> (<number>)], with any whitespace before and after the
    name, gives one entry with the name itself, without that whitespace,
    and the number, signed or not, read as a float; the name may hold
    parentheses, as long as it holds no strength of its own; a segment
    without a number in parentheses gives none. The two examples of the
    specification follow, and one with whitespace on both sides of a name
    that holds parentheses. *)
Theorem lora_hub_parse (input_data : inputs) :
  parse_lora_hub_data input_data
    = (do e1 <- parse_slot input_data 1; do e2 <- parse_slot input_data 2;
       do e3 <- parse_slot input_data 3; do e4 <- parse_slot input_data 4;
       Ok (e1 ++ e2 ++ e3 ++ e4))
  /\ (forall i s l,
        input_data !! ("loras_" +:+ str_of_Z (Z.of_nat i)) = Some (PStr s)
        \/ input_data !! ("loras_" +:+ str_of_Z (Z.of_nat i)) = Some (PList (PStr s :: l)) ->
        parse_slot input_data i = entries_of_string s)
  /\ (forall i, input_data !! ("loras_" +:+ str_of_Z (Z.of_nat i)) = None ->
        parse_slot input_data i = Ok [])
  /\ (forall segs : list (list ascii),
        entries_of_text (join_on comma segs)
        = (do per_segment <- map_result entries_of_text segs; Ok (concat per_segment)))
  /\ (forall (ws1 nm ws2 : list ascii) (w : ascii) (num post : list ascii),
        forallb is_space ws1 = true -> forallb is_space ws2 = true ->
        clean_name nm -> ws1 ++ nm ++ ws2 <> [] ->
        ~ has_strength (ws1 ++ nm ++ ws2) ->
        is_space w = true -> number num -> ~ has_strength post ->
        exists f, py_float num = Ok f
          /\ entries_of_text
               ((ws1 ++ nm ++ ws2) ++ w :: lparen :: num ++ rparen :: post)
             = Ok [ {| name := string_of_list_ascii nm; strength := f |} ])
  /\ (forall seg : list ascii, ~ has_strength seg -> entries_of_text seg = Ok [])
  /\ parse_lora_hub_data
       {[ "loras_1" := PStr "loraA.safetensors (0.8), loraB.safetensors (-0.3)" ]}
     = Ok [ {| name := "loraA.safetensors"; strength := 0.8 |};
            {| name := "loraB.safetensors"; strength := (-0.3) |} ]
  /\ parse_lora_hub_data
       {[ "loras_1" := PStr "loraA.safetensors (0.8), loraC, loraB.safetensors (-0.3)" ]}
     = Ok [ {| name := "loraA.safetensors"; strength := 0.8 |};
            {| name := "loraB.safetensors"; strength := (-0.3) |} ]
  /\ entries_of_string "loraC" = Ok []
  /\ entries_of_string "  style (v2).safetensors   (0.8),loraB (1)"
     = Ok [ {| name := "style (v2).safetensors"; strength := 0.8 |};
            {| name := "loraB"; strength := 1 |} ].
Proof.
  split; [|split; [|split; [|split; [|split; [|split]]]]].
  - unfold parse_lora_hub_data. cbn [parse_slots].
    destruct (parse_slot input_data 1) as [e1|e]; simpl; [|reflexivity].
    destruct (parse_slot input_data 2) as [e2|e]; simpl; [|reflexivity].
    destruct (parse_slot input_data 3) as [e3|e]; simpl; [|reflexivity].
    destruct (parse_slot input_data 4) as [e4|e]; simpl; [|reflexivity].
    rewrite <- !app_assoc. reflexivity.
  - intros i s l Hslot. unfold parse_slot.
    destruct Hslot as [-> | ->]; simpl;
      (destruct (String.eqb_spec s ""); simpl; [subst; reflexivity|reflexivity]).
  - intros i Hslot. unfold parse_slot. rewrite Hslot. reflexivity.
  - apply entries_of_text_join.
  - apply entries_of_text_named.
  - apply entries_of_text_skipped.
  - repeat split; vm_compute; reflexivity.
Qed.

(** ** Counterexamples *)

(** C7 as stated fails for a hash selector: the only slot that is present
    holds a non-empty list with a name in it, the name selector returns that
    name, and the hash selector raises all the same, because the hash
    function it calls raises and nothing catches it. *)
Lemma uncaught_hash_error :
  (forall k v, only_ckpt_inputs !! k = Some v ->
     k = "ckpt_name" /\ v = PList [PStr "model.safetensors"])
  /\ get_model_name only_ckpt_inputs = Ok (PStr "model.safetensors")
  /\ failing_hash (PStr "model.safetensors") = Raise (OtherError "file not found")
  /\ get_model_hash failing_hash only_ckpt_inputs = Raise (OtherError "file not found").
Proof.
  split; [|repeat split].
  intros k v H. unfold only_ckpt_inputs in H.
  apply lookup_singleton_Some in H as [<- <-]. auto.
Qed.

(** C8 as stated fails on an empty name: the name selector returns the empty
    string, which is not null, and the hash selector returns None instead of
    the hash of that name. *)
Lemma empty_name_is_not_hashed :
  get_model_name empty_name_inputs = Ok (PStr "")
  /\ get_model_hash constant_hash empty_name_inputs = Ok PNone
  /\ hash_of_non_null constant_hash get_model_name empty_name_inputs
     = Ok (PStr "0123456789")
  /\ get_model_hash constant_hash empty_name_inputs
     <> hash_of_non_null constant_hash get_model_name empty_name_inputs.
Proof.
  assert (Hname : get_model_name empty_name_inputs = Ok (PStr "")) by reflexivity.
  split; [exact Hname|].
  unfold get_model_hash, hash_of_non_null. rewrite Hname. simpl.
  repeat split. discriminate.
Qed.


(** C5 as stated fails for the metadata scope "none": for a batch of three
    images the call returns None, the heap is as before and no dict in it
    has a "Batch index" or a "Batch size". *)
Lemma scope_none_makes_no_copy :
  prepare_pnginfo no_text no_parameters 1 0 0 3 None None "none" sample_heap
    = (Ok None, sample_heap)
  /\ forall (l : loc) (d : gmap string pyval),
       snd (prepare_pnginfo no_text no_parameters 1 0 0 3 None None "none" sample_heap)
         !! l = Some (ODict d) ->
       d !! "Batch index" = None /\ d !! "Batch size" = None.
Proof.
  split; [reflexivity|].
  intros l d. change (snd _) with sample_heap. unfold sample_heap.
  destruct (decide (l = 0)) as [->|Hl0].
  - rewrite lookup_insert_eq. intros [= <-]. split; reflexivity.
  - rewrite lookup_insert_ne by congruence.
    destruct (decide (l = 1)) as [->|Hl1].
    + rewrite lookup_singleton_eq. discriminate.
    + rewrite lookup_singleton_ne by congruence. discriminate.
Qed.

(** ** Instances *)

Lemma lora_hub_parse_witness :
  exists f, py_float (list_ascii_of_string "0.8") = Ok f
    /\ entries_of_text (list_ascii_of_string " lora (v2)   (0.8)")
       = Ok [ {| name := "lora (v2)"; strength := f |} ].
Proof.
  destruct (lora_hub_parse ∅) as (_ & _ & _ & _ & Hseg & _).
  apply (Hseg [" "%char] (list_ascii_of_string "lora (v2)") [" "%char; " "%char]
           " "%char (list_ascii_of_string "0.8") []).
  - reflexivity.
  - reflexivity.
  - repeat split.
    + simpl. intuition discriminate.
    + intros c rest [= <- _]. reflexivity.
    + intros c front Heq. apply (f_equal (@rev ascii)) in Heq.
      rewrite rev_app_distr in Heq. injection Heq as <- _. reflexivity.
  - discriminate.
  - apply no_number_in_parentheses_sound. reflexivity.
  - reflexivity.
  - exists [], ["0"%char], [dot], ["8"%char]. repeat split; auto.
  - apply no_lparen_no_strength. simpl. tauto.
Defined.

Lemma hub_hashes_fail_per_entry_witness :
  exists hashes : list pyval,
    get_hub_lora_hashes partial_lora_hash two_loras = Ok (PList hashes)
    /\ length hashes = 2
    /\ hashes !! 0 = Some PNone
    /\ hashes !! 1 = Some (PStr "0123456789").
Proof.
  destruct (hub_hashes_fail_per_entry partial_lora_hash two_loras
              [ {| name := "a"; strength := 1 |}; {| name := "b"; strength := 2 |} ])
    as (hashes & Hsel & Hlen & Hraise & Hok).
  - vm_compute. reflexivity.
  - discriminate.
  - exists hashes. split; [exact Hsel|]. split; [exact Hlen|]. split.
    + apply (Hraise 0 {| name := "a"; strength := 1 |} (OtherError "file not found"));
        reflexivity.
    + apply (Hok 1 {| name := "b"; strength := 2 |} (PStr "0123456789")); reflexivity.
Defined.

Lemma full_checkpoint_gates_fields_witness :
  get_vae_name full_checkpoint_inputs = Ok PNone.
Proof.
  apply (full_checkpoint_gates_fields constant_hash constant_hash constant_hash
           partial_lora_hash full_checkpoint_inputs (Meta VAE_NAME) get_vae_name).
  - simpl. auto.
  - reflexivity.
  - reflexivity.
Defined.

Lemma absent_slots_resolve_to_none_witness :
  get_model_hash constant_hash ∅ = Ok PNone.
Proof.
  apply (absent_slots_resolve_to_none constant_hash constant_hash constant_hash
           partial_lora_hash ∅ (Meta MODEL_HASH) (get_model_hash constant_hash)).
  - reflexivity.
  - intros k _. apply lookup_empty.
Defined.

Lemma absent_load_mode_is_full_checkpoint_witness :
  get_model_name only_ckpt_inputs = Ok (PStr "model.safetensors").
Proof.
  destruct (absent_load_mode_is_full_checkpoint constant_hash constant_hash constant_hash
              partial_lora_hash only_ckpt_inputs) as [Habsent _].
  destruct Habsent as (_ & _ & _ & Hlist & _); [reflexivity|].
  apply (Hlist (PStr "model.safetensors") []). reflexivity.
Defined.

Lemma hash_selectors_follow_name_selectors_witness :
  get_model_hash constant_hash only_ckpt_inputs
  = hash_of_non_null constant_hash get_model_name only_ckpt_inputs.
Proof.
  destruct (hash_selectors_follow_name_selectors constant_hash constant_hash
              constant_hash only_ckpt_inputs) as (_ & _ & Hmodel & _).
  apply (Hmodel (PStr "model.safetensors")).
  - reflexivity.
  - right. reflexivity.
Defined.

Lemma create_extra_metadata_pairs_witness :
  exists e, create_extra_metadata None {[ "value2" := "v" ]} = Raise e.
Proof.
  apply (create_extra_metadata_pairs {[ "value2" := "v" ]} None).
  exists 2. repeat split.
  simpl. auto.
Defined.

Lemma batch_fields_go_to_a_copy_witness :
  snd (prepare_pnginfo no_text no_parameters 1 0 0 3 None None "full" sample_heap)
    !! 0 = Some (ODict sample_record)
  /\ exists pnginfo_copy : loc,
       sample_heap !! pnginfo_copy = None
       /\ snd (prepare_pnginfo no_text no_parameters 1 0 0 3 None None "full" sample_heap)
            !! pnginfo_copy = Some (ODict (with_batch_fields 0 3 sample_record)).
Proof.
  destruct (batch_fields_go_to_a_copy no_text no_parameters 1 0 0 3 None None "full"
              [] sample_heap sample_record) as (Hcopy & _ & Hframe & _).
  - reflexivity.
  - lia.
  - split; [exact Hframe|]. apply Hcopy. discriminate.
Defined.

(** * Further properties *)

(** ** The lora-hub parser and its selectors *)

#[local] Arguments run : simpl never.

Lemma entries_of_string_Ok (s : string) : exists es, entries_of_string s = Ok es.
Proof. apply scan_entries. Qed.

(** A slot raises exactly when it holds an empty list. *)
Lemma parse_slot_cases (input_data : inputs) (i : nat) :
  (input_data !! ("loras_" +:+ str_of_Z (Z.of_nat i)) = Some (PList [])
   /\ parse_slot input_data i = Raise IndexError)
  \/ (input_data !! ("loras_" +:+ str_of_Z (Z.of_nat i)) <> Some (PList [])
      /\ exists es, parse_slot input_data i = Ok es).
Proof.
  assert (Hstr : forall s, exists es,
             (if negb (String.eqb s "") then entries_of_string s else Ok []) = Ok es).
  { intros s. destruct (negb (String.eqb s "")); [apply entries_of_string_Ok|eauto]. }
  unfold parse_slot.
  destruct (input_data !! ("loras_" +:+ str_of_Z (Z.of_nat i)))
    as [[| | | |s|[|x l]|d]|]; simpl;
    try (right; split; [discriminate|]; eauto; fail).
  - left. auto.
  - right. split; [discriminate|]. destruct x as [| | | |s| |]; simpl; eauto.
Qed.

Lemma parse_slots_raise (input_data : inputs) (slots : list nat) (acc : list lora_entry) :
  (forall e, parse_slots input_data slots acc = Raise e -> e = IndexError)
  /\ ((exists e, parse_slots input_data slots acc = Raise e)
      <-> exists i, In i slots
            /\ input_data !! ("loras_" +:+ str_of_Z (Z.of_nat i)) = Some (PList [])).
Proof.
  revert acc. induction slots as [|i slots IH]; intros acc; cbn [parse_slots].
  - split; [discriminate|]. split; [intros [e [=]]|intros (i & [] & _)].
  - destruct (parse_slot_cases input_data i) as [[Hslot ->]|[Hslot [es ->]]];
      cbn [bind].
    + split; [intros e [= <-]; reflexivity|].
      split; [intros _; exists i; simpl; auto|eauto].
    + destruct (IH (acc ++ es)) as [IHe IHiff]. split; [exact IHe|].
      rewrite IHiff. split; intros (j & Hj & Hempty); exists j.
      * simpl. auto.
      * destruct Hj as [<-|Hj]; [contradiction|auto].
Qed.

(** X1: parse_lora_hub_data raises exactly when one of the slots loras_1 ..
    loras_4 holds an empty list, and then with IndexError; any other slot
    value, a string or not, is parsed or passed over without error. *)
Theorem parse_lora_hub_data_raises (input_data : inputs) :
  (forall e, parse_lora_hub_data input_data = Raise e -> e = IndexError)
  /\ ((exists e, parse_lora_hub_data input_data = Raise e)
      <-> exists i, In i [1; 2; 3; 4]%nat
            /\ input_data !! ("loras_" +:+ str_of_Z (Z.of_nat i)) = Some (PList [])).
Proof. apply parse_slots_raise. Qed.

(** *** What every entry looks like *)

Lemma lstrip_incl (p : ascii -> bool) (s : list ascii) (c : ascii) :
  In c (lstrip p s) -> In c s.
Proof.
  induction s as [|x s IH]; simpl; [auto|].
  destruct (p x); simpl; auto.
Qed.

Lemma lstrip_head (p : ascii -> bool) (s : list ascii) (c : ascii) (rest : list ascii) :
  lstrip p s = c :: rest -> p c = false.
Proof.
  induction s as [|x s IH]; simpl; [discriminate|].
  destruct (p x) eqn:Hx; [exact IH|].
  intros [= <- _]. exact Hx.
Qed.

(** [lstrip] removes a prefix. *)
Lemma lstrip_suffix (p : ascii -> bool) (s : list ascii) :
  exists front, s = front ++ lstrip p s.
Proof.
  induction s as [|x s [front IH]]; simpl.
  - exists []. reflexivity.
  - destruct (p x).
    + exists (x :: front). simpl. congruence.
    + exists []. reflexivity.
Qed.

Lemma strip_incl (p : ascii -> bool) (s : list ascii) (c : ascii) :
  In c (strip p s) -> In c s.
Proof.
  unfold strip, rstrip. intros Hc.
  apply in_rev, lstrip_incl, in_rev in Hc. apply lstrip_incl in Hc. exact Hc.
Qed.

Lemma strip_head (p : ascii -> bool) (s : list ascii) (c : ascii) (rest : list ascii) :
  strip p s = c :: rest -> p c = false.
Proof.
  unfold strip, rstrip. intros Hs.
  destruct (lstrip p s) as [|y t] eqn:Hl.
  - simpl in Hs. discriminate.
  - destruct (lstrip_suffix p (rev (y :: t))) as [front Hfront].
    apply (f_equal (@rev ascii)) in Hfront.
    rewrite rev_involutive, rev_app_distr, Hs in Hfront.
    simpl in Hfront. injection Hfront as -> _.
    eapply lstrip_head, Hl.
Qed.

Lemma strip_last (p : ascii -> bool) (s : list ascii) (c : ascii) (front : list ascii) :
  strip p s = front ++ [c] -> p c = false.
Proof.
  unfold strip, rstrip. intros Hs.
  apply (f_equal (@rev ascii)) in Hs.
  rewrite rev_involutive, rev_app_distr in Hs. simpl in Hs.
  eapply lstrip_head, Hs.
Qed.

Lemma matches_lora_first_group (t : list ascii) (ms : list nat) :
  matches lora_pattern t ms ->
  exists g1 w num,
    t = g1 ++ w :: lparen :: num ++ [rparen]
    /\ forallb (chr_not comma) g1 = true /\ number num
    /\ ms = [0; length g1; length g1 + 2; length g1 + 2 + length num].
Proof.
  unfold lora_pattern. intros H.
  invert_matches H.
  match goal with H : matches (PlusLazy _ :: _) _ _ |- _ => invert_matches H end.
  match goal with H : matches (Mark :: _) _ _ |- _ => invert_matches H end.
  match goal with H : matches (Chr _ :: _) _ _ |- _ => invert_matches H end.
  match goal with H : matches (Chr _ :: _) _ _ |- _ => invert_matches H end.
  match goal with H : matches (Mark :: _) _ _ |- _ => invert_matches H end.
  match goal with
  | H : matches _ _ _ |- _ =>
      apply (matches_number _ _) in H; destruct H as (num & Hnum & -> & ->)
  end.
  match goal with H : chr_is lparen _ = true |- _ => apply chr_is_eq in H; subst end.
  match goal with
  | Hx : chr_not comma ?x = true, Hu : forallb (chr_not comma) ?u = true,
    Hw : is_space ?w = true |- _ =>
      exists (x :: u), w, num; cbn [forallb app length]; rewrite Hx, Hu
  end.
  repeat split; auto.
  cbn [map Nat.add]. repeat (f_equal; try lia).
Qed.

Lemma entry_of_match_clean (g1 num : list ascii) (d : lora_entry) :
  forallb (chr_not comma) g1 = true ->
  entry_of_match [g1; num] = Ok d ->
  clean_name (list_ascii_of_string (name d)).
Proof.
  intros Hg1. cbn [entry_of_match]. intros H.
  apply bind_Ok in H as (f & _ & [= <-]). cbn [name].
  rewrite list_ascii_of_string_of_list_ascii. split; [|split].
  - intros Hin. apply strip_incl in Hin.
    rewrite forallb_forall in Hg1. specialize (Hg1 _ Hin).
    unfold chr_not, comma in Hg1. rewrite Ascii.eqb_refl in Hg1. discriminate.
  - intros c rest. apply strip_head.
  - intros c front. apply strip_last.
Qed.

Lemma scan_clean (skip : nat) (s : list ascii) (es : list lora_entry) :
  map_result entry_of_match (scan lora_pattern skip s) = Ok es ->
  Forall (fun d => clean_name (list_ascii_of_string (name d))) es.
Proof.
  revert skip es. induction s as [|x s IH]; intros skip es; cbn [scan map_result].
  - intros [= <-]. constructor.
  - destruct skip as [|k]; [|apply IH].
    destruct (run lora_pattern (x :: s)) as [[ms len]|] eqn:Hrun; [|apply IH].
    destruct (run_sound _ _ _ _ Hrun) as (w & rest & Hs & _ & Hm).
    apply matches_lora_first_group in Hm as (g1 & sp & num & -> & Hg1 & Hnum & ->).
    assert (Hg : groups [0; length g1; length g1 + 2; length g1 + 2 + length num] (x :: s)
                 = [g1; num]).
    { rewrite Hs, <- app_assoc. cbn [app]. rewrite <- app_assoc. apply groups_lora. }
    rewrite Hg. cbn [map_result]. intros H.
    apply bind_Ok in H as (d & Hd & H). apply bind_Ok in H as (ds & Hds & [= <-]).
    constructor; [eapply entry_of_match_clean; eauto|eapply IH; eauto].
Qed.

Lemma parse_slot_clean (input_data : inputs) (i : nat) (es : list lora_entry) :
  parse_slot input_data i = Ok es ->
  Forall (fun d => clean_name (list_ascii_of_string (name d))) es.
Proof.
  unfold parse_slot. intros H. apply bind_Ok in H as (v & _ & H).
  destruct v as [| | | |s| |]; try (injection H as <-; constructor).
  destruct (py_truthy (PStr s)); [|injection H as <-; constructor].
  eapply scan_clean, H.
Qed.

Lemma parse_slots_clean (input_data : inputs) (slots : list nat)
  (acc data : list lora_entry) :
  Forall (fun d => clean_name (list_ascii_of_string (name d))) acc ->
  parse_slots input_data slots acc = Ok data ->
  Forall (fun d => clean_name (list_ascii_of_string (name d))) data.
Proof.
  revert acc. induction slots as [|i slots IH]; intros acc Hacc; cbn [parse_slots].
  - intros [= <-]. exact Hacc.
  - intros H. apply bind_Ok in H as (es & Hes & H).
    eapply IH; [|exact H]. apply Forall_app. split; [exact Hacc|].
    eapply parse_slot_clean, Hes.
Qed.

(** X2: every entry the parser returns has a name without comma and without
    whitespace at its start or at its end. *)
Theorem parsed_names_are_clean (input_data : inputs) (data : list lora_entry) :
  parse_lora_hub_data input_data = Ok data ->
  Forall (fun d => clean_name (list_ascii_of_string (name d))) data.
Proof. apply parse_slots_clean. constructor. Qed.

Section SelectorFacts.

Context (calc_model_hash calc_vae_hash calc_clip_hash : pyval -> result pyval).
Context (calc_lora_hash : string -> inputs -> result pyval).

#[local] Abbreviation registry :=
  (selector_of calc_model_hash calc_vae_hash calc_clip_hash calc_lora_hash).

(** X3: the three hub selectors go together: they raise together when the
    parse raises, they all return None when there is no entry, and otherwise
    they return three lists of the length of the parsed list, whose i-th
    elements are the name, the strength and the hash of the i-th entry. *)
Theorem hub_fields_align (input_data : inputs) :
  match parse_lora_hub_data input_data with
  | Raise e =>
      get_hub_lora_names input_data = Raise e
      /\ get_hub_lora_strengths input_data = Raise e
      /\ get_hub_lora_hashes calc_lora_hash input_data = Raise e
  | Ok [] =>
      get_hub_lora_names input_data = Ok PNone
      /\ get_hub_lora_strengths input_data = Ok PNone
      /\ get_hub_lora_hashes calc_lora_hash input_data = Ok PNone
  | Ok data =>
      exists ns ss hs : list pyval,
        get_hub_lora_names input_data = Ok (PList ns)
        /\ get_hub_lora_strengths input_data = Ok (PList ss)
        /\ get_hub_lora_hashes calc_lora_hash input_data = Ok (PList hs)
        /\ length ns = length data /\ length ss = length data
        /\ length hs = length data
        /\ forall i d, data !! i = Some d ->
             ns !! i = Some (PStr (name d))
             /\ ss !! i = Some (PFloat (strength d))
             /\ hs !! i = Some (hash_or_none calc_lora_hash input_data d)
  end.
Proof.
  unfold get_hub_lora_names, get_hub_lora_strengths, get_hub_lora_hashes.
  destruct (parse_lora_hub_data input_data) as [[|d0 data]|e]; cbn [bind]; auto.
  eexists _, _, _.
  do 6 (split; [reflexivity || apply length_map|]).
  intros i d Hd. rewrite !lookup_map, Hd. auto.
Qed.

(** *** The clip names *)

Lemma collect_clip_names_filter (input_data : inputs) (keys : list string)
  (acc l : list pyval) :
  collect_clip_names input_data keys acc = Ok l ->
  exists vs, Forall2 (fun k v => get_slot0 input_data k = Ok v) keys vs
    /\ l = acc ++ List.filter kept_clip_name vs.
Proof.
  revert acc. induction keys as [|k keys IH]; intros acc; simpl.
  - intros [= <-]. exists []. split; [constructor|]. simpl. rewrite app_nil_r. reflexivity.
  - intros H. apply bind_Ok in H as (v & Hv & H).
    destruct (IH _ H) as (vs & Hvs & ->).
    exists (v :: vs). split; [constructor; assumption|].
    simpl. fold (kept_clip_name v). destruct (kept_clip_name v); [|reflexivity].
    rewrite <- app_assoc. reflexivity.
Qed.

(** X4: in "separate_components" mode the clip names are the values of the
    slots clip_model_1, clip_model_2, clip_model_3, in this order, that are
    truthy and not the string "None"; the selector returns None instead of
    an empty list, so a returned list has one to three names, none of them
    falsy or "None". *)
Theorem clip_names_are_the_kept_slots (input_data : inputs) (names : pyval) :
  get_clip_names input_data = Ok names ->
  names = PNone
  \/ exists v1 v2 v3 l,
       load_mode input_data = Ok (PStr "separate_components")
       /\ get_slot0 input_data "clip_model_1" = Ok v1
       /\ get_slot0 input_data "clip_model_2" = Ok v2
       /\ get_slot0 input_data "clip_model_3" = Ok v3
       /\ l = List.filter kept_clip_name [v1; v2; v3]
       /\ names = PList l
       /\ 1 <= length l <= 3
       /\ Forall (fun n => py_truthy n = true /\ n <> PStr "None") l.
Proof.
  unfold get_clip_names. intros H. apply bind_Ok in H as (mode & Hmode & H).
  destruct (py_eq_str mode "separate_components") eqn:Hsep; [|injection H as <-; auto].
  apply py_eq_str_true in Hsep. subst mode.
  apply bind_Ok in H as (l & Hl & H).
  apply collect_clip_names_filter in Hl as (vs & Hvs & ->).
  inversion Hvs as [|k1 v1 ks1 vs1 H1 Hvs1]; subst.
  inversion Hvs1 as [|k2 v2 ks2 vs2 H2 Hvs2]; subst.
  inversion Hvs2 as [|k3 v3 ks3 vs3 H3 Hvs3]; subst.
  inversion Hvs3; subst. cbn [app] in H.
  destruct (List.filter kept_clip_name [v1; v2; v3]) as [|n l] eqn:Hf;
    cbn [py_truthy] in H; injection H as <-; [auto|].
  right. exists v1, v2, v3, (n :: l). rewrite <- Hf.
  repeat split; auto.
  - rewrite Hf. simpl. lia.
  - pose proof (filter_length_le kept_clip_name [v1; v2; v3]) as Hle.
    simpl in Hle. simpl. lia.
  - apply List.Forall_forall. intros x Hx. apply filter_In in Hx as [_ Hx].
    unfold kept_clip_name in Hx. apply andb_prop in Hx as [Ht Hn].
    split; [exact Ht|]. apply py_eq_str_false. apply negb_true_iff, Hn.
Qed.

Lemma map_result_Forall2 {A B} (f : A -> result B) (l : list A) (ys : list B) :
  map_result f l = Ok ys -> Forall2 (fun x y => f x = Ok y) l ys.
Proof.
  revert ys. induction l as [|x l IH]; intros ys; simpl.
  - intros [= <-]. constructor.
  - intros H. apply bind_Ok in H as (y & Hy & H).
    apply bind_Ok in H as (ys' & Hys & [= <-]). constructor; auto.
Qed.

Lemma map_result_Ok_In {A B} (f : A -> result B) (l : list A) (ys : list B) (x : A) :
  map_result f l = Ok ys -> In x l -> exists y, f x = Ok y.
Proof.
  revert ys. induction l as [|x' l IH]; intros ys; simpl; [intros _ []|].
  intros H Hin. apply bind_Ok in H as (y & Hy & H).
  apply bind_Ok in H as (ys' & Hys & _).
  destruct Hin as [<-|Hin]; eauto.
Qed.

(** X5: when the clip hashes selector returns a list, the clip names
    selector returned a list too, of the same length, and the i-th hash is the
    clip hash function applied to the i-th name; it returns None only
    when the names are None; and a raise of the hash function on any one of
    the names makes the whole selector raise. *)
Theorem clip_hashes_follow_clip_names (input_data : inputs) :
  (forall hv, get_clip_hashes calc_clip_hash input_data = Ok hv ->
     (hv = PNone /\ get_clip_names input_data = Ok PNone)
     \/ exists l hs, get_clip_names input_data = Ok (PList l) /\ hv = PList hs
          /\ Forall2 (fun n h => calc_clip_hash n = Ok h) l hs)
  /\ (forall l n e, get_clip_names input_data = Ok (PList l) -> In n l ->
        calc_clip_hash n = Raise e ->
        exists e', get_clip_hashes calc_clip_hash input_data = Raise e').
Proof.
  split.
  - intros hv H. unfold get_clip_hashes in H.
    apply bind_Ok in H as (names & Hnames & H).
    destruct (get_clip_names_shape _ _ Hnames) as [->|(x & l & ->)].
    + left. injection H as <-. auto.
    + right. cbn [py_truthy py_iter bind] in H.
      apply bind_Ok in H as (hs & Hhs & [= <-]).
      exists (x :: l), hs. repeat split; auto. apply map_result_Forall2, Hhs.
  - intros l n e Hnames Hin Hraise. unfold get_clip_hashes. rewrite Hnames.
    destruct l as [|x l]; [destruct Hin|]. cbn [py_truthy py_iter bind].
    destruct (map_result calc_clip_hash (x :: l)) as [hs|e'] eqn:Hmap; [|eauto].
    destruct (map_result_Ok_In _ _ _ n Hmap Hin) as [y Hy]. congruence.
Qed.

(** *** The metadata-passthrough kind *)

Lemma passthrough_selectors (field : field_key) (key : string) :
  In (field, key) passthrough_keys ->
  registry "ModelAssemblerMetadata" field = Some (get_metadata_field key).
Proof.
  simpl. intros H.
  repeat (destruct H as [[= <- <-]|H]; [reflexivity|]). destruct H.
Qed.

Lemma get_metadata_field_dict (key : string) (input_data : inputs)
  (d : gmap string pyval) (rest : list pyval) :
  input_data !! "metadata" = Some (PList (PDict d :: rest)) ->
  get_metadata_field key input_data = Ok (default PNone (d !! key)).
Proof.
  unfold get_metadata_field, get_slot0. intros ->. simpl.
  destruct (Nat.eqb (size d) 0) eqn:Hsize; [|reflexivity]. simpl.
  apply Nat.eqb_eq, map_size_empty_iff in Hsize. subst d.
  rewrite lookup_empty. reflexivity.
Qed.

(** X6: a selector of the metadata-passthrough kind returns the entry of the
    metadata mapping under its own key, None when the entry, the mapping or
    the metadata slot is missing or when the slot holds something else than
    a dict; it calls no hash function, and it raises only when the metadata
    slot is present with a value that cannot be subscripted. *)
Theorem passthrough_reads_the_metadata (input_data : inputs)
  (field : field_key) (key : string) (sel : selector) :
  In (field, key) passthrough_keys ->
  registry "ModelAssemblerMetadata" field = Some sel ->
  (input_data !! "metadata" = None -> sel input_data = Ok PNone)
  /\ (forall d rest, input_data !! "metadata" = Some (PList (PDict d :: rest)) ->
        sel input_data = Ok (default PNone (d !! key)))
  /\ (forall v rest, input_data !! "metadata" = Some (PList (v :: rest)) ->
        (forall d, v <> PDict d) -> sel input_data = Ok PNone)
  /\ (forall e, sel input_data = Raise e ->
        exists v, input_data !! "metadata" = Some v /\ subscript0 v = Raise e).
Proof.
  intros Hin Hsel. rewrite (passthrough_selectors field key Hin) in Hsel.
  injection Hsel as <-. split; [|split; [|split]].
  - intros Habs. unfold get_metadata_field.
    rewrite (get_slot0_absent input_data "metadata" Habs). reflexivity.
  - intros d rest. apply get_metadata_field_dict.
  - intros v rest Hslot Hv. unfold get_metadata_field, get_slot0. rewrite Hslot.
    simpl. destruct v; try reflexivity.
    exfalso. eapply Hv. reflexivity.
  - intros e H. unfold get_metadata_field in H.
    apply bind_Raise in H as [H|(v & _ & H)].
    + apply get_slot0_Raise, H.
    + destruct v as [| | | | | |d]; try discriminate.
      destruct (py_truthy (PDict d)); discriminate.
Qed.

(** *** A load mode that is not wrapped in a list *)

Lemma one_char_is_no_mode (c : ascii) :
  py_eq_str (PStr (String c "")) "full_checkpoint" = false
  /\ py_eq_str (PStr (String c "")) "separate_components" = false.
Proof.
  simpl. split; match goal with |- (if ?b then _ else _) = _ => destruct b end;
    reflexivity.
Qed.

(** X7: when the load_mode slot holds a bare string instead of a list, the
    mode read is its first character, which is neither "full_checkpoint" nor
    "separate_components": the model name is then read from base_model and
    the gated fields are None, even for the string "full_checkpoint" or
    "separate_components"; with the empty string every loader selector
    raises IndexError. Reading base_model gives the first element of the
    list it holds. *)
Theorem bare_string_load_mode (input_data : inputs) (s : string) :
  input_data !! "load_mode" = Some (PStr s) ->
  (s <> "" ->
     get_model_name input_data = get_slot0 input_data "base_model"
     /\ forall field sel, In field gated_fields ->
          registry "ModelAssembler" field = Some sel -> sel input_data = Ok PNone)
  /\ (s = "" ->
        forall field sel, registry "ModelAssembler" field = Some sel ->
          sel input_data = Raise IndexError)
  /\ (s <> "" -> forall v rest,
        input_data !! "base_model" = Some (PList (v :: rest)) ->
        get_model_name input_data = Ok v).
Proof.
  intros Hslot.
  assert (Hread : s <> "" -> forall v rest,
            input_data !! "base_model" = Some (PList (v :: rest)) ->
            get_model_name input_data = Ok v).
  { intros Hne v rest Hbase. destruct s as [|c s]; [contradiction|].
    destruct (one_char_is_no_mode c) as [Hfull _].
    assert (Hmode : load_mode input_data = Ok (PStr (String c ""))).
    { unfold load_mode. rewrite Hslot. reflexivity. }
    unfold get_model_name. rewrite Hmode. cbn [bind]. rewrite Hfull. apply (proj2 (get_slot0_cases input_data "base_model") v rest), Hbase. }
  split; [|split; [|exact Hread]].
  - intros Hne. destruct s as [|c s]; [contradiction|].
    assert (Hmode : load_mode input_data = Ok (PStr (String c ""))).
    { unfold load_mode. rewrite Hslot. reflexivity. }
    destruct (one_char_is_no_mode c) as [Hfull Hsep]. split.
    + unfold get_model_name. rewrite Hmode. cbn [bind]. rewrite Hfull. reflexivity.
    + intros field sel Hin Hsel.
      apply (gated_none calc_model_hash calc_vae_hash calc_clip_hash calc_lora_hash
               input_data (PStr (String c "")) field sel Hmode); [|assumption..].
      apply py_eq_str_false, Hsep.
  - intros -> field sel Hsel.
    assert (Hmode : load_mode input_data = Raise IndexError).
    { unfold load_mode. rewrite Hslot. reflexivity. }
    apply loader_selectors in Hsel.
    destruct Hsel as [[-> ->]|[[-> ->]|[[-> ->]|[[-> ->]|[[-> ->]|[[-> ->]|[[-> ->]|[-> ->]]]]]]]];
      unfold get_model_hash, get_vae_hash, get_clip_hashes, get_model_name,
        get_vae_name, get_clip_names, get_clip_type, get_unet_dtype;
      rewrite Hmode; reflexivity.
Qed.

End SelectorFacts.

(** ** Extra metadata: the keys stored *)

Section ExtraMetadataFacts.

Context (keys_values : gmap string string).

Lemma writes_dec (i : nat) (k : string) :
  {writes keys_values i k} + {~ writes keys_values i k}.
Proof.
  unfold writes.
  destruct (decide (keys_values !! slot_name "key" i = Some k)) as [Hk|Hk];
    [|right; tauto].
  destruct (decide (k = "")) as [->|Hne]; [right; tauto|left; auto].
Qed.

(** Either no slot writes [k], or there is a last one that does. *)
Lemma last_writer (slots : list nat) (k : string) :
  (forall i, In i slots -> ~ writes keys_values i k)
  \/ exists pre i post, slots = pre ++ i :: post /\ writes keys_values i k
       /\ forall j, In j post -> ~ writes keys_values j k.
Proof.
  induction slots as [|i slots IH].
  - left. intros i [].
  - destruct IH as [Hnone|(pre & j & post & -> & Hj & Hpost)].
    + destruct (writes_dec i k) as [Hi|Hi].
      * right. exists [], i, slots. auto.
      * left. intros j [<-|Hj]; auto.
    + right. exists (i :: pre), j, post. auto.
Qed.

Lemma extra_slot_lookup (i : nat) (m d : gmap string string) (k : string) :
  extra_slot keys_values i m = Ok d ->
  is_Some (d !! k) <-> is_Some (m !! k) \/ writes keys_values i k.
Proof.
  intros H. destruct (writes_dec i k) as [Hw|Hw].
  - destruct Hw as [Hk Hne].
    rewrite extra_slot_keyed in H by (apply given_Some; eauto).
    injection H as <-. rewrite Hk. simpl. rewrite lookup_insert_eq.
    split; [intros _; right; split; auto|eauto].
  - rewrite (extra_slot_untouched keys_values i m d k H Hw). tauto.
Qed.

Lemma extra_slots_lookup (slots : list nat) (m d : gmap string string) (k : string) :
  extra_slots keys_values slots m = Ok d ->
  is_Some (d !! k) <-> is_Some (m !! k) \/ exists i, In i slots /\ writes keys_values i k.
Proof.
  revert m. induction slots as [|i slots IH]; intros m; simpl.
  - intros [= <-]. split; [auto|]. intros [?|(i & [] & _)]. assumption.
  - intros H. apply bind_Ok in H as (m' & Hstep & H).
    rewrite (IH _ H), (extra_slot_lookup i m m' k Hstep).
    split.
    + intros [[?|?]|(j & ? & ?)]; eauto.
    + intros [?|(j & [<-|?] & ?)]; eauto.
Qed.

(** X8: the keys of the mapping create_extra_metadata returns are the keys
    it was given and the non-empty keys of the slots, nothing else: no key
    is removed, and the empty key is never added. *)
Theorem create_extra_metadata_keys (extra_metadata : option (gmap string string))
  (d : gmap string string) :
  create_extra_metadata extra_metadata keys_values = Ok d ->
  (forall k, is_Some (d !! k)
             <-> is_Some (default ∅ extra_metadata !! k)
                 \/ exists i, In i [1; 2; 3; 4]%nat /\ writes keys_values i k)
  /\ (default ∅ extra_metadata !! "" = None -> d !! "" = None).
Proof.
  intros H. unfold create_extra_metadata in H. split.
  - intros k. apply extra_slots_lookup, H.
  - intros Hempty. apply eq_None_not_Some.
    rewrite (extra_slots_lookup _ _ _ "" H), Hempty.
    intros [[x [=]]|(i & _ & _ & Hne)]. apply Hne. reflexivity.
Qed.

(** X9: the node is idempotent: feeding its result back with the same
    slots returns the same mapping, without error. *)
Theorem create_extra_metadata_idempotent (extra_metadata : option (gmap string string))
  (d : gmap string string) :
  create_extra_metadata extra_metadata keys_values = Ok d ->
  create_extra_metadata (Some d) keys_values = Ok d.
Proof.
  intros H. unfold create_extra_metadata in *.
  change (default ∅ (Some d)) with d.
  destruct (extra_slots keys_values [1; 2; 3; 4]%nat d) as [d'|e] eqn:H'.
  - assert (Heq' : d' = d); [|rewrite Heq'; reflexivity].
    apply map_eq. intros k.
    destruct (last_writer [1; 2; 3; 4]%nat k) as [Hnone|(pre & i & post & Heq & Hi & Hpost)].
    + apply (extra_slots_untouched keys_values _ _ _ k H' Hnone).
    + rewrite Heq in H, H'.
      rewrite (extra_slots_last_writer keys_values pre post i _ _ k H' Hi Hpost).
      rewrite (extra_slots_last_writer keys_values pre post i _ _ k H Hi Hpost).
      reflexivity.
  - exfalso.
    assert (Hraise : exists e, extra_slots keys_values [1; 2; 3; 4]%nat
                                 (default ∅ extra_metadata) = Raise e).
    { apply extra_slots_raise_iff. apply (extra_slots_raise_iff keys_values _ d). eauto. }
    destruct Hraise as [e' He']. congruence.
Qed.

End ExtraMetadataFacts.

(** ** Strings: replacing and splitting *)

Lemma list_ascii_of_string_app (a b : string) :
  list_ascii_of_string (a +:+ b) = list_ascii_of_string a ++ list_ascii_of_string b.
Proof. induction a as [|c a IH]; simpl; [reflexivity|]. rewrite IH. reflexivity. Qed.

Lemma is_prefix_app (p s : list ascii) : is_prefix p (p ++ s) = true.
Proof.
  induction p as [|c p IH]; simpl; [reflexivity|].
  rewrite Ascii.eqb_refl. exact IH.
Qed.

Lemma is_prefix_incl (p s : list ascii) (c : ascii) :
  is_prefix p s = true -> In c p -> In c s.
Proof.
  revert s. induction p as [|a p IH]; intros [|x s]; simpl; try tauto; try discriminate.
  intros H. apply andb_prop in H as [Ha Hp]. apply Ascii.eqb_eq in Ha. subst x.
  intros [->|Hc]; auto.
Qed.

Lemma is_prefix_head (c x : ascii) (o s : list ascii) :
  x <> c -> is_prefix (c :: o) (x :: s) = false.
Proof.
  intros Hx. simpl. destruct (Ascii.eqb_spec c x); [congruence|reflexivity].
Qed.

(** Text without the first character of [old] is passed unchanged. *)
Lemma replace_scan_pass (c : ascii) (o new u s : list ascii) :
  ~ In c u ->
  replace_scan (c :: o) new 0 (u ++ s) = u ++ replace_scan (c :: o) new 0 s.
Proof.
  intros Hu. induction u as [|x u IH]; [reflexivity|].
  cbn [app replace_scan]. rewrite is_prefix_head.
  - rewrite IH; [reflexivity|]. intros Hin. apply Hu. simpl. auto.
  - intros ->. apply Hu. simpl. auto.
Qed.

Lemma replace_scan_skip (old new u s : list ascii) :
  replace_scan old new (length u) (u ++ s) = replace_scan old new 0 s.
Proof. induction u as [|x u IH]; simpl; auto. Qed.

(** An occurrence of [old] is replaced and the scan goes on after it. *)
Lemma replace_scan_here (c : ascii) (o new s : list ascii) :
  replace_scan (c :: o) new 0 ((c :: o) ++ s) = new ++ replace_scan (c :: o) new 0 s.
Proof.
  cbn [app replace_scan].
  change (c :: o ++ s) with ((c :: o) ++ s). rewrite is_prefix_app.
  replace (length (c :: o) - 1) with (length o) by (simpl; lia).
  rewrite replace_scan_skip. reflexivity.
Qed.

Lemma replace_scan_nil (old new : list ascii) (skip : nat) :
  replace_scan old new skip [] = [].
Proof. reflexivity. Qed.

Lemma replace_absent (c : ascii) (o new s : list ascii) :
  ~ In c s -> replace (c :: o) new s = s.
Proof.
  intros Hs. unfold replace. rewrite <- (app_nil_r s) at 1.
  rewrite replace_scan_pass by assumption. rewrite replace_scan_nil. apply app_nil_r.
Qed.

(** [a ++ old ++ b] with [old] replaced, when neither [a] nor [b] holds the
    first character of [old]. *)
Lemma replace_between (c : ascii) (o new a b : list ascii) :
  ~ In c a -> ~ In c b ->
  replace (c :: o) new (a ++ (c :: o) ++ b) = a ++ new ++ b.
Proof.
  intros Ha Hb. unfold replace.
  rewrite replace_scan_pass by assumption. rewrite replace_scan_here.
  fold (replace (c :: o) new b). rewrite replace_absent by assumption. reflexivity.
Qed.

Lemma split_on_absent (sep : ascii) (s : list ascii) :
  ~ In sep s -> split_on sep s = [s].
Proof.
  induction s as [|c s IH]; [reflexivity|]. intros Hs. simpl.
  destruct (Ascii.eqb_spec c sep) as [->|Hc]; [exfalso; apply Hs; simpl; auto|].
  rewrite IH; [reflexivity|]. intros Hin. apply Hs. simpl. auto.
Qed.

Lemma split_on_first (sep : ascii) (a b : list ascii) :
  ~ In sep a -> split_on sep (a ++ sep :: b) = a :: split_on sep b.
Proof.
  induction a as [|c a IH]; intros Ha; simpl.
  - rewrite Ascii.eqb_refl. reflexivity.
  - destruct (Ascii.eqb_spec c sep) as [->|Hc]; [exfalso; apply Ha; simpl; auto|].
    rewrite IH; [reflexivity|]. intros Hin. apply Ha. simpl. auto.
Qed.

(** ** The output format *)

(** X10: a format name that holds no "_" is returned as it is, without the
    request for the workflow json; followed by "_with_json" it gives the
    same base format with the request. *)
Theorem parse_output_format_suffix (base : string) :
  ~ In "_"%char (list_ascii_of_string base) ->
  parse_output_format base = (base, false)
  /\ parse_output_format (base +:+ "_with_json") = (base, true).
Proof.
  intros Hbase. unfold parse_output_format. split.
  - f_equal.
    + change (list_ascii_of_string "_with_json")
        with ("_"%char :: list_ascii_of_string "with_json").
      rewrite replace_absent by assumption. apply string_of_list_ascii_of_string.
    + unfold endswith.
      destruct (is_prefix (rev (list_ascii_of_string "_with_json"))
                  (rev (list_ascii_of_string base))) eqn:Hp; [|reflexivity].
      exfalso. apply Hbase. apply in_rev.
      apply (is_prefix_incl _ _ "_"%char Hp). simpl. tauto.
  - rewrite list_ascii_of_string_app. f_equal.
    + change (list_ascii_of_string "_with_json")
        with ("_"%char :: list_ascii_of_string "with_json").
      rewrite <- (app_nil_r (_ ++ _)), <- app_assoc.
      rewrite replace_between by (simpl; tauto).
      rewrite !app_nil_r. apply string_of_list_ascii_of_string.
    + unfold endswith. rewrite rev_app_distr. apply is_prefix_app.
Qed.

(** ** The quality *)

(** X11: the quality value is 100, 80, 60 or 30; it is 100 for "max" and
    for every value that is not one of the four names (the default included),
    so the WEBP save is lossless unless the quality is "high", "medium" or
    "low"; only a list or a dict, which cannot be looked up, raises. *)
Theorem quality_value_range (quality : pyval) :
  (forall v, get_quality_value quality = Ok v ->
     (v = 100 \/ v = 80 \/ v = 60 \/ v = 30)%Z)
  /\ (quality <> PStr "high" -> quality <> PStr "medium" -> quality <> PStr "low" ->
      forall v, get_quality_value quality = Ok v -> v = 100%Z)
  /\ (webp_lossless quality = Ok false
      <-> quality = PStr "high" \/ quality = PStr "medium" \/ quality = PStr "low")
  /\ (forall e, get_quality_value quality = Raise e ->
        e = TypeError /\ ((exists l, quality = PList l) \/ exists d, quality = PDict d)).
Proof.
  assert (Hhashable : forall q : pyval,
            get_quality_value q = Ok 100%Z -> (forall s, q <> PStr s) ->
            (forall v, get_quality_value q = Ok v ->
               (v = 100 \/ v = 80 \/ v = 60 \/ v = 30)%Z)
            /\ (q <> PStr "high" -> q <> PStr "medium" -> q <> PStr "low" ->
                forall v, get_quality_value q = Ok v -> v = 100%Z)
            /\ (webp_lossless q = Ok false
                <-> q = PStr "high" \/ q = PStr "medium" \/ q = PStr "low")
            /\ (forall e, get_quality_value q = Raise e ->
                  e = TypeError /\ ((exists l, q = PList l) \/ exists d, q = PDict d))).
  { intros q Hq Hstr. unfold webp_lossless. rewrite Hq. simpl.
    split; [intros v [= <-]; auto|]. split; [intros _ _ _ v [= <-]; reflexivity|].
    split; [|discriminate].
    split; [discriminate|]. intros [H|[H|H]]; exfalso; eapply Hstr; exact H. }
  destruct quality as [| | | |s|l|d];
    try (apply Hhashable; [reflexivity|discriminate]).
  - unfold webp_lossless. simpl.
    repeat (case_decide; subst); simpl;
      (split; [intros v [= <-]; auto|]);
      (split; [intros Hq1 Hq2 Hq3 v [= <-]; try reflexivity; congruence|]);
      (split; [|discriminate]);
      (split; [intros Hq; try discriminate Hq; auto
              |intros [Hq|[Hq|Hq]]; first [reflexivity|congruence|discriminate Hq]]).
  - unfold webp_lossless. simpl.
    split; [discriminate|]. split; [discriminate|].
    split; [split; [discriminate|intros [H|[H|H]]; discriminate H]|].
    intros e [= <-]. eauto.
  - unfold webp_lossless. simpl.
    split; [discriminate|]. split; [discriminate|].
    split; [split; [discriminate|intros [H|[H|H]]; discriminate H]|].
    intros e [= <-]. eauto.
Qed.

(** ** The next available file name *)

Lemma to_int_not_nil (z : Z) : Z.to_int z <> Decimal.Pos Decimal.Nil
                               /\ Z.to_int z <> Decimal.Neg Decimal.Nil.
Proof.
  destruct z as [|p|p]; simpl; split; try discriminate;
    intros [= H]; exact (DecimalPos.Unsigned.to_uint_nonnil p H).
Qed.

Lemma str_of_Z_inj (a b : Z) : str_of_Z a = str_of_Z b -> a = b.
Proof.
  unfold str_of_Z. intros H. apply DecimalZ.to_int_inj.
  destruct (to_int_not_nil a) as [Ha1 Ha2]. destruct (to_int_not_nil b) as [Hb1 Hb2].
  pose proof (NilZero.isi _ Ha1 Ha2) as Ia. pose proof (NilZero.isi _ Hb1 Hb2) as Ib.
  rewrite H in Ia. congruence.
Qed.

Lemma numbered_inj (filename : string) (a b : nat) :
  numbered filename a = numbered filename b -> a = b.
Proof.
  unfold numbered. intros H.
  apply (inj (String.app filename)) in H. apply (inj (String.app "_")) in H.
  apply str_of_Z_inj in H. lia.
Qed.

Lemma next_counter_Some (existing_files : gset string) (filename : string)
  (fuel counter c : nat) :
  next_counter existing_files filename fuel counter = Some c ->
  counter <= c < counter + fuel
  /\ (numbered filename c ∉ existing_files)
  /\ forall j, counter <= j < c -> numbered filename j ∈ existing_files.
Proof.
  revert counter. induction fuel as [|fuel IH]; intros counter; simpl; [discriminate|].
  case_decide as Hin.
  - intros H. destruct (IH _ H) as (Hc & Hfree & Hbelow).
    split; [lia|]. split; [exact Hfree|].
    intros j Hj. destruct (decide (j = counter)) as [->|Hne]; [exact Hin|].
    apply Hbelow. lia.
  - intros [= <-]. split; [lia|]. split; [exact Hin|]. intros j Hj. lia.
Qed.

Lemma next_counter_None (existing_files : gset string) (filename : string)
  (fuel counter : nat) :
  next_counter existing_files filename fuel counter = None ->
  forall j, counter <= j < counter + fuel -> numbered filename j ∈ existing_files.
Proof.
  revert counter. induction fuel as [|fuel IH]; intros counter; simpl.
  - intros _ j Hj. lia.
  - case_decide as Hin; [|discriminate].
    intros H j Hj. destruct (decide (j = counter)) as [->|Hne]; [exact Hin|].
    apply (IH _ H). lia.
Qed.

(** More turns than there are files always find a free name. *)
Lemma next_counter_total (existing_files : gset string) (filename : string)
  (fuel counter : nat) :
  size existing_files < fuel ->
  is_Some (next_counter existing_files filename fuel counter).
Proof.
  intros Hfuel.
  destruct (next_counter existing_files filename fuel counter) as [c|] eqn:Hnext;
    [eauto|]. exfalso.
  pose proof (next_counter_None _ _ _ _ Hnext) as Hall.
  set (stems := numbered filename <$> seq counter fuel).
  assert (Hnodup : NoDup stems).
  { apply NoDup_fmap_2; [|apply NoDup_seq].
    intros a b. apply numbered_inj. }
  assert (Hsub : (list_to_set stems : gset string) ⊆ existing_files).
  { intros x Hx. apply elem_of_list_to_set in Hx.
    apply list_elem_of_fmap in Hx as (j & -> & Hj).
    apply elem_of_seq in Hj. apply Hall. lia. }
  apply subseteq_size in Hsub.
  rewrite size_list_to_set in Hsub by exact Hnodup.
  unfold stems in Hsub. rewrite length_fmap, length_seq in Hsub. lia.
Qed.

Lemma next_counter_fuel (existing_files : gset string) (filename : string)
  (fuel fuel' counter c : nat) :
  next_counter existing_files filename fuel counter = Some c -> fuel <= fuel' ->
  next_counter existing_files filename fuel' counter = Some c.
Proof.
  revert fuel' counter. induction fuel as [|fuel IH]; intros fuel' counter; simpl;
    [discriminate|].
  intros H Hle. destruct fuel' as [|fuel']; [lia|]. simpl.
  case_decide; [|exact H]. apply IH; [exact H|lia].
Qed.

(** X12: with at least one more turn than there are files, the search for
    the next available file name ends, whatever the set of files; the name
    it returns has the least counter from 1 on whose stem is not taken, and
    more turns give the same name. *)
Theorem find_next_available_filename_fresh (existing_files : gset string)
  (filename base_format : string) (fuel : nat) :
  size existing_files < fuel ->
  exists counter,
    find_next_available_filename existing_files filename base_format fuel
      = Some (numbered filename counter +:+ "." +:+ base_format)
    /\ 1 <= counter <= S (size existing_files)
    /\ (numbered filename counter ∉ existing_files)
    /\ (forall j, 1 <= j < counter -> numbered filename j ∈ existing_files)
    /\ forall fuel', fuel <= fuel' ->
         find_next_available_filename existing_files filename base_format fuel'
         = find_next_available_filename existing_files filename base_format fuel.
Proof.
  intros Hfuel. unfold find_next_available_filename.
  destruct (next_counter_total existing_files filename (S (size existing_files)) 1)
    as [c Hc]; [lia|].
  pose proof (next_counter_fuel _ _ _ fuel _ _ Hc ltac:(lia)) as Hfuel_c.
  destruct (next_counter_Some _ _ _ _ _ Hc) as (Hrange & Hfree & Hbelow).
  exists c. rewrite Hfuel_c. split; [reflexivity|]. split; [lia|].
  split; [exact Hfree|]. split; [exact Hbelow|].
  intros fuel' Hle.
  rewrite (next_counter_fuel _ _ _ fuel' _ _ Hfuel_c Hle). reflexivity.
Qed.

(** ** What a call of [prepare_pnginfo] writes *)

Section ChunkFacts.

Context (json_dumps : pyval -> result string).
Context (gen_parameters_str : gmap string pyval -> result string).
Context (metadata c : loc) (record : gmap string pyval).

Lemma appends_ret {A} (a : A) : appends metadata c record (ret a) a [].
Proof. intros h chunks Hm Hc. exists h. rewrite app_nil_r. auto. Qed.

Lemma appends_add_text (k v : string) :
  appends metadata c record (add_text metadata k v) tt [(k, v)].
Proof.
  intros h chunks Hm Hc. unfold add_text. rewrite Hm.
  eexists. split; [reflexivity|]. split; [apply lookup_insert_eq|].
  rewrite lookup_insert_ne; [exact Hc|congruence].
Qed.

Lemma appends_seq {A} (m1 : M unit) (m2 : M A) (a : A) (l1 l2 : list (string * string)) :
  appends metadata c record m1 tt l1 -> appends metadata c record m2 a l2 ->
  appends metadata c record (exec _ <- m1; m2) a (l1 ++ l2).
Proof.
  intros H1 H2 h chunks Hm Hc. unfold mbind.
  destruct (H1 h chunks Hm Hc) as (h1 & -> & Hm1 & Hc1).
  destruct (H2 h1 _ Hm1 Hc1) as (h2 & -> & Hm2 & Hc2).
  exists h2. rewrite app_assoc. auto.
Qed.

Lemma appends_lift {A B} (r : result A) (x : A) (k : A -> M B) (b : B)
  (l : list (string * string)) :
  r = Ok x -> appends metadata c record (k x) b l ->
  appends metadata c record (exec y <- lift r; k y) b l.
Proof. intros -> Hk h chunks Hm Hc. unfold mbind, lift. apply Hk; assumption. Qed.

Lemma appends_read {B} (k : gmap string pyval -> M B) (b : B)
  (l : list (string * string)) :
  appends metadata c record (k record) b l ->
  appends metadata c record (exec r <- dict_read c; k r) b l.
Proof.
  intros Hk h chunks Hm Hc. unfold mbind, dict_read. rewrite Hc.
  apply Hk; assumption.
Qed.

Lemma appends_for_each (items : list (string * pyval)) (new : list (string * string)) :
  map_result (fun kv => do t <- text_of json_dumps (snd kv); Ok (fst kv, t)) items
    = Ok new ->
  appends metadata c record
    (for_each (fun kv => exec value_to_add <- lift (text_of json_dumps (snd kv));
                         add_text metadata (fst kv) value_to_add) items) tt new.
Proof.
  revert new. induction items as [|kv items IH]; intros new; simpl.
  - intros [= <-]. apply appends_ret.
  - intros H. apply bind_Ok in H as (x & Hx & H).
    apply bind_Ok in Hx as (t & Ht & [= <-]).
    apply bind_Ok in H as (rest & Hrest & [= <-]).
    change ((fst kv, t) :: rest) with ([(fst kv, t)] ++ rest).
    apply appends_seq; [|apply IH, Hrest].
    eapply appends_lift; [exact Ht|]. apply appends_add_text.
Qed.

End ChunkFacts.

Section WrittenChunks.

Context (json_dumps : pyval -> result string).
Context (gen_parameters_str : gmap string pyval -> result string).

Lemma prepare_pnginfo_writes (metadata pnginfo_dict : loc)
  (batch_number total_images : nat) (prompt : option pyval)
  (extra_pnginfo : option (list (string * pyval))) (metadata_scope : string)
  (h : heap) (record : gmap string pyval) (chunks new : list (string * string)) :
  h !! metadata = Some (OPngInfo chunks) ->
  h !! pnginfo_dict = Some (ODict record) ->
  metadata_scope <> "none" ->
  call_chunks json_dumps gen_parameters_str record batch_number total_images prompt
    extra_pnginfo metadata_scope = Ok new ->
  exists h',
    prepare_pnginfo json_dumps gen_parameters_str metadata pnginfo_dict batch_number
      total_images prompt extra_pnginfo metadata_scope h = (Ok (Some metadata), h')
    /\ h' !! metadata = Some (OPngInfo (chunks ++ new))
    /\ h' !! pnginfo_dict = Some (ODict record).
Proof.
  intros Hm Hrec Hscope Hnew.
  pose proof (prepare_pnginfo_frame json_dumps gen_parameters_str metadata pnginfo_dict
                batch_number total_images prompt extra_pnginfo metadata_scope h record
                Hrec) as Hframe.
  apply String.eqb_neq in Hscope.
  unfold prepare_pnginfo in *. rewrite Hscope in *.
  unfold mbind at 1 in Hframe. unfold mbind at 1.
  unfold dict_copy at 1 in Hframe. unfold dict_copy at 1. rewrite Hrec in *.
  set (c := fresh (dom h)) in *.
  assert (Hfresh : h !! c = None) by apply fresh_loc_unused.
  unfold mbind at 1 in Hframe. unfold mbind at 1.
  set (copy := if (1 <? total_images)%nat
               then with_batch_fields batch_number total_images record else record).
  set (assignments := if (1 <? total_images)%nat then _ else _) in *.
  assert (Hassign : assignments (<[c := ODict record]> h)
                    = (Ok tt, <[c := ODict copy]> h)).
  { subst assignments copy.
    destruct (1 <? total_images)%nat.
    - unfold mbind, dict_setitem. rewrite lookup_insert_eq.
      rewrite insert_insert_eq, lookup_insert_eq, insert_insert_eq. reflexivity.
    - reflexivity. }
  rewrite Hassign in *.
  set (h1 := <[c := ODict copy]> h) in *.
  assert (Hm1 : h1 !! metadata = Some (OPngInfo chunks)).
  { unfold h1. rewrite lookup_insert_ne; [exact Hm|congruence]. }
  assert (Hc1 : h1 !! c = Some (ODict copy)) by apply lookup_insert_eq.
  unfold call_chunks in Hnew. fold copy in Hnew.
  apply bind_Ok in Hnew as (ps & Hps & Hnew).
  apply bind_Ok in Hnew as (pr & Hpr & Hnew).
  apply bind_Ok in Hnew as (ex & Hex & [= <-]).
  match goal with
  | |- exists h', ?tail h1 = _ /\ _ =>
      assert (Htail : appends metadata c copy tail (Some metadata) (ps ++ pr ++ ex))
  end.
  { apply appends_seq; [|apply appends_seq; [|]].
    - destruct (String.eqb metadata_scope "full").
      + apply bind_Ok in Hps as (p & Hp & [= <-]).
        apply appends_read. eapply appends_lift; [exact Hp|]. apply appends_add_text.
      + injection Hps as <-. apply appends_ret.
    - destruct prompt as [p|]; [|injection Hpr as <-; apply appends_ret].
      destruct (negb (String.eqb metadata_scope "workflow_only"));
        [|injection Hpr as <-; apply appends_ret].
      apply bind_Ok in Hpr as (t & Ht & [= <-]).
      eapply appends_lift; [exact Ht|]. apply appends_add_text.
    - rewrite <- (app_nil_r ex). apply appends_seq; [|apply appends_ret].
      destruct extra_pnginfo as [[|kv items]|]; simpl in Hex.
      + injection Hex as <-. apply appends_ret.
      + apply (appends_for_each json_dumps metadata c copy (kv :: items)), Hex.
      + injection Hex as <-. apply appends_ret. }
  destruct (Htail h1 chunks Hm1 Hc1) as (h' & Hrun & Hm' & _).
  exists h'. split; [exact Hrun|]. split; [exact Hm'|].
  rewrite Hrun in Hframe. exact Hframe.
Qed.

(** X13: for a scope other than "none", when the parameters and the json
    texts are produced without error, a call of prepare_pnginfo returns the
    PngInfo it was given, with these chunks added at its end, in this order:
    "parameters" (scope "full" only), generated from the record with its
    batch fields when the batch has more than one image and from the record
    as it is otherwise; "prompt" (when there is a prompt and the scope is
    not "workflow_only"); then one chunk per item of extra_pnginfo. The
    chunks that were there are kept, and so is the record. *)
Theorem prepare_pnginfo_adds_chunks (metadata pnginfo_dict : loc)
  (batch_number total_images : nat) (prompt : option pyval)
  (extra_pnginfo : option (list (string * pyval))) (metadata_scope : string)
  (h : heap) (record : gmap string pyval) (chunks new : list (string * string)) :
  h !! metadata = Some (OPngInfo chunks) ->
  h !! pnginfo_dict = Some (ODict record) ->
  metadata_scope <> "none" ->
  call_chunks json_dumps gen_parameters_str record batch_number total_images prompt
    extra_pnginfo metadata_scope = Ok new ->
  exists h',
    prepare_pnginfo json_dumps gen_parameters_str metadata pnginfo_dict batch_number
      total_images prompt extra_pnginfo metadata_scope h = (Ok (Some metadata), h')
    /\ h' !! metadata = Some (OPngInfo (chunks ++ new))
    /\ h' !! pnginfo_dict = Some (ODict record).
Proof. apply prepare_pnginfo_writes. Qed.

(** *** The extra metadata of the user *)

Lemma add_extra_metadata_none (extra_metadata : list (string * pyval)) (h : heap) :
  (Exists (fun kv => fst kv <> "") extra_metadata ->
     add_extra_metadata json_dumps None extra_metadata h = (Raise AttributeError, h))
  /\ (Forall (fun kv => fst kv = "") extra_metadata ->
        add_extra_metadata json_dumps None extra_metadata h = (Ok tt, h)).
Proof.
  unfold add_extra_metadata.
  induction extra_metadata as [|kv items [IHraise IHok]]; simpl.
  - split; [intros H; inversion H|reflexivity].
  - unfold mbind. destruct (String.eqb_spec (fst kv) "") as [Hk|Hk]; simpl.
    + split.
      * intros H. inversion H as [? ? Hhead|? ? Htail]; subst; [contradiction|auto].
      * intros H. inversion H; subst. auto.
    + split; [reflexivity|]. intros H. inversion H; subst. contradiction.
Qed.

(** X15: with the metadata scope "none" prepare_pnginfo returns None, and
    the loop of save_images that adds the user's extra metadata to it raises
    AttributeError as soon as an item has a non-empty key; the image is
    prepared without error only when there is no such item. *)
Theorem scope_none_rejects_extra_metadata (pnginfo pnginfo_dict : loc)
  (batch_number total_images : nat) (prompt : option pyval)
  (extra_pnginfo : option (list (string * pyval)))
  (extra_metadata : list (string * pyval)) (h : heap) :
  (Exists (fun kv => fst kv <> "") extra_metadata ->
     image_metadata json_dumps gen_parameters_str pnginfo pnginfo_dict batch_number
       total_images prompt extra_pnginfo "none" extra_metadata h
     = (Raise AttributeError, h))
  /\ (Forall (fun kv => fst kv = "") extra_metadata ->
        image_metadata json_dumps gen_parameters_str pnginfo pnginfo_dict batch_number
          total_images prompt extra_pnginfo "none" extra_metadata h
        = (Ok None, h)).
Proof.
  unfold image_metadata, prepare_pnginfo. simpl. unfold mbind at 1 3. unfold ret at 1 3.
  destruct (add_extra_metadata_none extra_metadata h) as [Hraise Hok].
  split; intros H; unfold mbind; [rewrite (Hraise H)|rewrite (Hok H)]; reflexivity.
Qed.

Lemma appends_extra_metadata (metadata c : loc) (record : gmap string pyval)
  (extra_metadata : list (string * pyval)) (new : list (string * string)) :
  map_result (fun kv => do t <- text_of json_dumps (snd kv); Ok (fst kv, t))
    (List.filter (fun kv => negb (String.eqb (fst kv) "")) extra_metadata) = Ok new ->
  appends metadata c record
    (add_extra_metadata json_dumps (Some metadata) extra_metadata) tt new.
Proof.
  unfold add_extra_metadata. revert new.
  induction extra_metadata as [|kv items IH]; intros new; simpl.
  - intros [= <-]. apply appends_ret.
  - destruct (negb (String.eqb (fst kv) "")); simpl.
    + intros H. apply bind_Ok in H as (x & Hx & H).
      apply bind_Ok in Hx as (t & Ht & [= <-]).
      apply bind_Ok in H as (rest & Hrest & [= <-]).
      change ((fst kv, t) :: rest) with ([(fst kv, t)] ++ rest).
      apply appends_seq; [|apply IH, Hrest].
      eapply appends_lift; [exact Ht|]. apply appends_add_text.
    + intros H. change new with ([] ++ new).
      apply appends_seq; [apply appends_ret|apply IH, H].
Qed.

Lemma image_metadata_writes (pnginfo pnginfo_dict : loc)
  (batch_number total_images : nat) (prompt : option pyval)
  (extra_pnginfo : option (list (string * pyval))) (metadata_scope : string)
  (extra_metadata : list (string * pyval)) (h : heap) (record : gmap string pyval)
  (chunks new extra : list (string * string)) :
  h !! pnginfo = Some (OPngInfo chunks) ->
  h !! pnginfo_dict = Some (ODict record) ->
  metadata_scope <> "none" ->
  call_chunks json_dumps gen_parameters_str record batch_number total_images prompt
    extra_pnginfo metadata_scope = Ok new ->
  map_result (fun kv => do t <- text_of json_dumps (snd kv); Ok (fst kv, t))
    (List.filter (fun kv => negb (String.eqb (fst kv) "")) extra_metadata) = Ok extra ->
  exists h',
    image_metadata json_dumps gen_parameters_str pnginfo pnginfo_dict batch_number
      total_images prompt extra_pnginfo metadata_scope extra_metadata h
    = (Ok (Some pnginfo), h')
    /\ h' !! pnginfo = Some (OPngInfo (chunks ++ new ++ extra))
    /\ h' !! pnginfo_dict = Some (ODict record).
Proof.
  intros Hm Hrec Hscope Hnew Hextra. unfold image_metadata.
  destruct (prepare_pnginfo_writes pnginfo pnginfo_dict batch_number total_images prompt
              extra_pnginfo metadata_scope h record chunks new Hm Hrec Hscope Hnew)
    as (h1 & Hrun & Hm1 & Hrec1).
  unfold mbind at 1. rewrite Hrun.
  destruct (appends_extra_metadata pnginfo pnginfo_dict record extra_metadata extra
              Hextra h1 _ Hm1 Hrec1) as (h2 & Hrun2 & Hm2 & Hrec2).
  exists h2. unfold mbind. rewrite Hrun2. split; [reflexivity|].
  split; [|exact Hrec2]. rewrite <- app_assoc in Hm2. exact Hm2.
Qed.

(** X16: for a scope other than "none", when no text fails to be produced,
    the metadata of an image is the PngInfo with the chunks of
    prepare_pnginfo followed by one chunk per item of the user's extra
    metadata whose key is not empty, in the order of the items; an item with
    an empty key is left out. *)
Theorem image_metadata_adds_extra (pnginfo pnginfo_dict : loc)
  (batch_number total_images : nat) (prompt : option pyval)
  (extra_pnginfo : option (list (string * pyval))) (metadata_scope : string)
  (extra_metadata : list (string * pyval)) (h : heap) (record : gmap string pyval)
  (chunks new extra : list (string * string)) :
  h !! pnginfo = Some (OPngInfo chunks) ->
  h !! pnginfo_dict = Some (ODict record) ->
  metadata_scope <> "none" ->
  call_chunks json_dumps gen_parameters_str record batch_number total_images prompt
    extra_pnginfo metadata_scope = Ok new ->
  map_result (fun kv => do t <- text_of json_dumps (snd kv); Ok (fst kv, t))
    (List.filter (fun kv => negb (String.eqb (fst kv) "")) extra_metadata) = Ok extra ->
  exists h',
    image_metadata json_dumps gen_parameters_str pnginfo pnginfo_dict batch_number
      total_images prompt extra_pnginfo metadata_scope extra_metadata h
    = (Ok (Some pnginfo), h')
    /\ h' !! pnginfo = Some (OPngInfo (chunks ++ new ++ extra))
    /\ h' !! pnginfo_dict = Some (ODict record).
Proof. apply image_metadata_writes. Qed.

(** X14: the PngInfo is one object for all the images of a batch, so the
    chunks add up: for a scope other than "none", when no text fails to be
    produced, after the loop of save_images has built the metadata of the
    images it holds the chunks it had, followed for every image in order by
    the chunks of prepare_pnginfo for that image and then by the chunks of
    the user's extra metadata, which are thus written once per image. The
    chunks written for an image are still there for the next one. *)
Theorem prepare_batch_accumulates (pnginfo pnginfo_dict : loc)
  (batch_numbers : list nat) (total_images : nat) (prompt : option pyval)
  (extra_pnginfo : option (list (string * pyval))) (metadata_scope : string)
  (extra_metadata : list (string * pyval))
  (h : heap) (record : gmap string pyval) (chunks : list (string * string))
  (news : list (list (string * string))) (extra : list (string * string)) :
  h !! pnginfo = Some (OPngInfo chunks) ->
  h !! pnginfo_dict = Some (ODict record) ->
  metadata_scope <> "none" ->
  map_result (fun n => call_chunks json_dumps gen_parameters_str record n total_images
                         prompt extra_pnginfo metadata_scope) batch_numbers = Ok news ->
  map_result (fun kv => do t <- text_of json_dumps (snd kv); Ok (fst kv, t))
    (List.filter (fun kv => negb (String.eqb (fst kv) "")) extra_metadata) = Ok extra ->
  exists h',
    prepare_batch json_dumps gen_parameters_str pnginfo pnginfo_dict batch_numbers
      total_images prompt extra_pnginfo metadata_scope extra_metadata h = (Ok tt, h')
    /\ h' !! pnginfo
       = Some (OPngInfo (chunks ++ concat (map (fun new => new ++ extra) news)))
    /\ h' !! pnginfo_dict = Some (ODict record).
Proof.
  intros Hm Hrec Hscope Hnews Hextra. revert h chunks news Hm Hrec Hnews.
  induction batch_numbers as [|n rest IH]; intros h chunks news Hm Hrec; simpl.
  - intros [= <-]. exists h. simpl. rewrite app_nil_r. auto.
  - intros H. apply bind_Ok in H as (new & Hnew & H).
    apply bind_Ok in H as (news' & Hnews & [= <-]).
    destruct (image_metadata_writes pnginfo pnginfo_dict n total_images prompt
                extra_pnginfo metadata_scope extra_metadata h record chunks new extra
                Hm Hrec Hscope Hnew Hextra)
      as (h1 & Hrun & Hm1 & Hrec1).
    destruct (IH h1 _ news' Hm1 Hrec1 Hnews) as (h' & Hrest & Hm' & Hrec').
    exists h'. unfold mbind. rewrite Hrun. split; [exact Hrest|].
    split; [|exact Hrec']. simpl. rewrite <- !app_assoc in *. exact Hm'.
Qed.

End WrittenChunks.

(** ** Filename templates: the tokens *)

Section TemplateFacts.

Context (py_repr : pyval -> string) (now : datetime).

#[local] Abbreviation fmt := (format_filename py_repr now).

Lemma string_of_list_ascii_app (a b : list ascii) :
  string_of_list_ascii (a ++ b) = string_of_list_ascii a +:+ string_of_list_ascii b.
Proof. induction a as [|c a IH]; simpl; [reflexivity|]. rewrite IH. reflexivity. Qed.

(** A match of the token pattern starts with "%". *)
Lemma run_pattern_format_head (c : ascii) (t : list ascii) :
  c <> percent -> run pattern_format (c :: t) = None.
Proof.
  intros Hc. unfold pattern_format, run. cbn [one option_map].
  destruct (chr_is percent c) eqn:Heq; [|reflexivity].
  apply chr_is_eq in Heq. contradiction.
Qed.

Lemma scan_pattern_format_pass (u s : list ascii) :
  ~ In percent u -> scan pattern_format 0 (u ++ s) = scan pattern_format 0 s.
Proof.
  intros Hu. induction u as [|c u IH]; [reflexivity|].
  cbn [app scan]. rewrite run_pattern_format_head.
  - apply IH. intros Hin. apply Hu. simpl. auto.
  - intros ->. apply Hu. simpl. auto.
Qed.

Lemma findall_no_percent (s : list ascii) :
  ~ In percent s -> findall pattern_format s = [].
Proof.
  intros Hs. unfold findall. rewrite <- (app_nil_r s).
  rewrite scan_pattern_format_pass by assumption. reflexivity.
Qed.

(** The body of the loop does nothing for a key it has no branch for. *)
Lemma format_segment_unknown (pnginfo_dict : gmap string pyval)
  (filename segment : list ascii) :
  recognised (token_key segment) = false ->
  format_segment py_repr now pnginfo_dict filename segment = Ok filename.
Proof.
  unfold recognised, token_key, format_segment, key_is. cbn [existsb].
  set (key := string_of_list_ascii _).
  intros H. repeat (apply orb_false_elim in H as [? H]).
  repeat match goal with
         | Hk : String.eqb key ?s = false |- _ => rewrite Hk; clear Hk
         end.
  reflexivity.
Qed.

Lemma format_segments_unknown (pnginfo_dict : gmap string pyval)
  (filename : list ascii) (segments : list (list ascii)) :
  Forall (fun segment => recognised (token_key segment) = false) segments ->
  format_segments py_repr now pnginfo_dict filename segments = Ok filename.
Proof.
  induction 1 as [|segment segments Hseg _ IH]; cbn [format_segments]; [reflexivity|].
  rewrite format_segment_unknown by assumption. exact IH.
Qed.

(** X17: a template in which no token has a recognised key (seed, width,
    height, pprompt, nprompt, model, date) is returned as it is, whatever
    the record holds and without error; so is a template without "%". *)
Theorem unrecognised_tokens_are_kept (filename : string)
  (pnginfo_dict : gmap string pyval) :
  (Forall (fun segment => recognised (token_key segment) = false) (tokens filename) ->
     fmt filename pnginfo_dict = Ok filename)
  /\ (~ In percent (list_ascii_of_string filename) ->
        fmt filename pnginfo_dict = Ok filename).
Proof.
  assert (Hkept : Forall (fun segment => recognised (token_key segment) = false)
                    (tokens filename) -> fmt filename pnginfo_dict = Ok filename).
  { intros H. unfold format_filename. fold (tokens filename).
    rewrite format_segments_unknown by exact H. cbn [bind].
    rewrite string_of_list_ascii_of_string. reflexivity. }
  split; [exact Hkept|].
  intros Hno. apply Hkept. unfold tokens.
  change [Mark; Chr (chr_is percent); Plus (chr_not percent); Chr (chr_is percent); Mark]
    with pattern_format.
  rewrite findall_no_percent by assumption. constructor.
Qed.

(** *** One token in a template *)

Lemma greedy_exact c k (u : list ascii) (y : ascii) (s : list ascii) (r : found) :
  forallb c u = true -> c y = false -> k (y :: s) = Some r ->
  greedy c k (u ++ y :: s) = Some (shift (length u) r).
Proof.
  intros Hu Hy Hk. induction u as [|x u IH]; cbn [app greedy length].
  - rewrite Hy, Hk, shift_0. reflexivity.
  - cbn [forallb] in Hu. apply andb_prop in Hu as [Hx Hu].
    rewrite Hx, (IH Hu), shift_shift. reflexivity.
Qed.

Lemma chr_not_percent (u : list ascii) :
  ~ In percent u -> forallb (chr_not percent) u = true.
Proof.
  intros Hu. apply forallb_forall. intros c Hc. unfold chr_not.
  destruct (Ascii.eqb_spec percent c) as [<-|]; [contradiction|reflexivity].
Qed.

(** The token pattern at a token: the whole token is the match. *)
Lemma run_token (body b : list ascii) :
  body <> [] -> ~ In percent body ->
  run pattern_format (percent :: body ++ percent :: b)
    = Some ([0; length body + 2], length body + 2).
Proof.
  intros Hne Hbody. destruct body as [|x body]; [contradiction|].
  pose proof (chr_not_percent _ Hbody) as Hall. cbn [forallb] in Hall.
  apply andb_prop in Hall as [Hx Hall].
  unfold pattern_format, run. cbn [one app option_map].
  change (chr_is percent percent) with true. cbn iota. rewrite Hx.
  erewrite greedy_exact; [|exact Hall|reflexivity|reflexivity].
  cbn. do 2 f_equal; [|lia]. repeat (f_equal; try lia).
Qed.

Lemma findall_token (a body b : list ascii) :
  ~ In percent a -> body <> [] -> ~ In percent body -> ~ In percent b ->
  findall pattern_format (a ++ (percent :: body ++ [percent]) ++ b)
    = [[percent :: body ++ [percent]]].
Proof.
  intros Ha Hne Hbody Hb. unfold findall.
  rewrite scan_pattern_format_pass by assumption.
  cbn [app scan]. rewrite <- app_assoc. cbn [app].
  rewrite run_token by assumption.
  cbn [groups]. f_equal.
  - f_equal. unfold substring. rewrite Nat.sub_0_r. cbn [skipn].
    change (percent :: body ++ percent :: b) with ((percent :: body) ++ percent :: b).
    replace (length body + 2) with (length ((percent :: body) ++ [percent]))
      by (rewrite length_app; simpl; lia).
    change ((percent :: body) ++ percent :: b)
      with ((percent :: body) ++ [percent] ++ b).
    rewrite app_assoc. rewrite take_app_length. reflexivity.
  - replace (length body + 2 - 1) with (length (body ++ [percent]))
      by (rewrite length_app; simpl; lia).
    change (body ++ percent :: b) with (body ++ [percent] ++ b).
    rewrite app_assoc, scan_skip.
    apply (findall_no_percent b Hb).
Qed.

Lemma lstrip_stop (p : ascii -> bool) (x : ascii) (s : list ascii) :
  p x = false -> lstrip p (x :: s) = x :: s.
Proof. intros Hx. simpl. rewrite Hx. reflexivity. Qed.

(** [token.strip("%")] is what stands between the two "%". *)
Lemma strip_token (body : list ascii) :
  body <> [] -> ~ In percent body ->
  strip (chr_is percent) (percent :: body ++ [percent]) = body.
Proof.
  intros Hne Hbody.
  assert (Hnot : forall c, In c body -> chr_is percent c = false).
  { intros c Hc. destruct (chr_is percent c) eqn:Heq; [|reflexivity].
    apply chr_is_eq in Heq. subst. contradiction. }
  unfold strip, rstrip. cbn [lstrip]. change (chr_is percent percent) with true. cbn iota.
  destruct body as [|x body]; [contradiction|].
  cbn [app]. rewrite lstrip_stop by (apply Hnot; simpl; auto).
  change (x :: body ++ [percent]) with ((x :: body) ++ [percent]).
  rewrite rev_app_distr. cbn [rev app lstrip].
  change (chr_is percent percent) with true. cbn iota.
  destruct (rev body ++ [x]) as [|y t] eqn:Hrev.
  { destruct (rev body); discriminate. }
  rewrite lstrip_stop.
  - rewrite <- Hrev. change (rev body ++ [x]) with (rev (x :: body)).
    apply rev_involutive.
  - apply Hnot. apply in_rev. change (rev (x :: body)) with (rev body ++ [x]).
    rewrite Hrev. simpl. auto.
Qed.

(** A template with one token: the loop has one turn. *)
Lemma format_one_token (a body b : list ascii) (pnginfo_dict : gmap string pyval) :
  ~ In percent a -> body <> [] -> ~ In percent body -> ~ In percent b ->
  fmt (string_of_list_ascii (a ++ (percent :: body ++ [percent]) ++ b)) pnginfo_dict
  = (do out <- format_segment py_repr now pnginfo_dict
                 (a ++ (percent :: body ++ [percent]) ++ b)
                 (percent :: body ++ [percent]);
     Ok (string_of_list_ascii out)).
Proof.
  intros Ha Hne Hbody Hb. unfold format_filename.
  rewrite list_ascii_of_string_of_list_ascii.
  rewrite findall_token by assumption. cbn [map format_segments].
  destruct (format_segment _ _ _ _ _); reflexivity.
Qed.

(** The branches of the loop body, by the key of the token. *)

Ltac enter_branch Hkey :=
  unfold format_segment, key_is; cbv zeta;
  match goal with
  | |- context [string_of_list_ascii
                  (match split_on ":"%char (strip (chr_is percent) ?seg) with
                   | k :: _ => k
                   | [] => []
                   end)] =>
      fold (token_key seg)
  end;
  rewrite Hkey;
  repeat match goal with
         | |- context [String.eqb ?x ?y] =>
             let v := eval vm_compute in (String.eqb x y) in
             change (String.eqb x y) with v
         end;
  cbn [orb].

Lemma format_segment_seed (pnginfo_dict : gmap string pyval)
  (filename segment : list ascii) :
  token_key segment = "seed" ->
  format_segment py_repr now pnginfo_dict filename segment
  = Ok (replace segment
          (list_ascii_of_string (py_str py_repr (default (PStr "") (pnginfo_dict !! "Seed"))))
          filename).
Proof. intros Hkey. enter_branch Hkey. reflexivity. Qed.

Lemma format_segment_width (pnginfo_dict : gmap string pyval)
  (filename segment : list ascii) :
  token_key segment = "width" ->
  format_segment py_repr now pnginfo_dict filename segment
  = (do size_str <- as_str (default (PStr "x") (pnginfo_dict !! "Size"));
     do value <- match split_on "x"%char size_str with
                 | v :: _ => Ok v
                 | [] => Raise IndexError
                 end;
     Ok (replace segment value filename)).
Proof. intros Hkey. enter_branch Hkey. reflexivity. Qed.

Lemma format_segment_height (pnginfo_dict : gmap string pyval)
  (filename segment : list ascii) :
  token_key segment = "height" ->
  format_segment py_repr now pnginfo_dict filename segment
  = (do size_str <- as_str (default (PStr "x") (pnginfo_dict !! "Size"));
     do value <- match split_on "x"%char size_str with
                 | _ :: v :: _ => Ok v
                 | _ => Raise IndexError
                 end;
     Ok (replace segment value filename)).
Proof. intros Hkey. enter_branch Hkey. reflexivity. Qed.

Lemma format_segment_model (pnginfo_dict : gmap string pyval)
  (filename segment : list ascii) :
  token_key segment = "model" ->
  format_segment py_repr now pnginfo_dict filename segment
  = (do path <- match default (PStr "") (pnginfo_dict !! "Model") with
                | PStr s => Ok (list_ascii_of_string s)
                | _ => Raise TypeError
                end;
     do length <- length_of (split_on ":"%char (strip (chr_is percent) segment));
     Ok (replace segment (truncate length (splitext_root (basename path))) filename)).
Proof. intros Hkey. enter_branch Hkey. reflexivity. Qed.

(** A string as a text with a token in it. *)
Lemma around_token (a body b : string) :
  a +:+ ("%" +:+ body +:+ "%") +:+ b
  = string_of_list_ascii
      (list_ascii_of_string a
       ++ (percent :: list_ascii_of_string body ++ [percent])
       ++ list_ascii_of_string b).
Proof.
  rewrite !string_of_list_ascii_app. cbn [string_of_list_ascii].
  rewrite string_of_list_ascii_app, !string_of_list_ascii_of_string. reflexivity.
Qed.

(** X18: a seed token inside text without "%" is replaced by [str] of the
    Seed field, or by nothing when the record has no Seed; the text before
    and after the token is kept, and no record makes the call fail. *)
Theorem seed_token_in_context (a b : string) (pnginfo_dict : gmap string pyval) :
  ~ In percent (list_ascii_of_string a) -> ~ In percent (list_ascii_of_string b) ->
  fmt (a +:+ "%seed%" +:+ b) pnginfo_dict
  = Ok (a +:+ py_str py_repr (default (PStr "") (pnginfo_dict !! "Seed")) +:+ b).
Proof.
  intros Ha Hb.
  change (a +:+ "%seed%" +:+ b) with (a +:+ ("%" +:+ "seed" +:+ "%") +:+ b).
  rewrite around_token.
  rewrite format_one_token; try assumption; [|discriminate|simpl; intuition discriminate].
  rewrite format_segment_seed by reflexivity. cbn [bind].
  rewrite replace_between by assumption.
  rewrite !string_of_list_ascii_app, !string_of_list_ascii_of_string. reflexivity.
Qed.

Lemma token_alone (body : string) :
  "%" +:+ body +:+ "%"
  = string_of_list_ascii ([] ++ (percent :: list_ascii_of_string body ++ [percent]) ++ []).
Proof.
  cbn [app string_of_list_ascii]. rewrite app_nil_r.
  rewrite string_of_list_ascii_app, string_of_list_ascii_of_string. reflexivity.
Qed.

Lemma replace_alone (c : ascii) (o new : list ascii) :
  replace (c :: o) new ([] ++ (c :: o) ++ []) = new.
Proof.
  rewrite replace_between by (simpl; tauto). cbn [app]. apply app_nil_r.
Qed.

(** A template that is one token with a fixed key and no modifier. *)
Lemma format_plain_token (body : string) (pnginfo_dict : gmap string pyval) :
  list_ascii_of_string body <> [] -> ~ In percent (list_ascii_of_string body) ->
  fmt ("%" +:+ body +:+ "%") pnginfo_dict
  = (do out <- format_segment py_repr now pnginfo_dict
                 ([] ++ (percent :: list_ascii_of_string body ++ [percent]) ++ [])
                 (percent :: list_ascii_of_string body ++ [percent]);
     Ok (string_of_list_ascii out)).
Proof.
  intros Hne Hbody. rewrite token_alone.
  apply format_one_token; simpl; auto.
Qed.

(** X19: the width and height tokens are the two parts of the Size field
    around its first "x": "%width%x%height%" gives the Size field back when
    it has exactly one "x" (and no "%" before it). A Size without "x" is
    the width, and then the height token raises IndexError; without a Size
    field both tokens are empty; a Size that is not a string raises
    AttributeError. *)
Theorem size_tokens (pnginfo_dict : gmap string pyval) :
  (forall W H : string,
     pnginfo_dict !! "Size" = Some (PStr (W +:+ "x" +:+ H)) ->
     ~ In "x"%char (list_ascii_of_string W) -> ~ In "x"%char (list_ascii_of_string H) ->
     ~ In percent (list_ascii_of_string W) ->
     fmt "%width%x%height%" pnginfo_dict = Ok (W +:+ "x" +:+ H))
  /\ (forall size : string,
        pnginfo_dict !! "Size" = Some (PStr size) ->
        ~ In "x"%char (list_ascii_of_string size) ->
        fmt "%width%" pnginfo_dict = Ok size
        /\ fmt "%height%" pnginfo_dict = Raise IndexError)
  /\ (pnginfo_dict !! "Size" = None ->
        fmt "%width%" pnginfo_dict = Ok "" /\ fmt "%height%" pnginfo_dict = Ok "")
  /\ (forall v, pnginfo_dict !! "Size" = Some v -> (forall s, v <> PStr s) ->
        fmt "%width%" pnginfo_dict = Raise AttributeError
        /\ fmt "%height%" pnginfo_dict = Raise AttributeError).
Proof.
  assert (Hw : fmt "%width%" pnginfo_dict
               = (do out <- format_segment py_repr now pnginfo_dict
                              ([] ++ list_ascii_of_string "%width%" ++ [])
                              (list_ascii_of_string "%width%");
                  Ok (string_of_list_ascii out))).
  { apply (format_plain_token "width"); [discriminate|simpl; intuition discriminate]. }
  assert (Hh : fmt "%height%" pnginfo_dict
               = (do out <- format_segment py_repr now pnginfo_dict
                              ([] ++ list_ascii_of_string "%height%" ++ [])
                              (list_ascii_of_string "%height%");
                  Ok (string_of_list_ascii out))).
  { apply (format_plain_token "height"); [discriminate|simpl; intuition discriminate]. }
  rewrite format_segment_width in Hw by reflexivity.
  rewrite format_segment_height in Hh by reflexivity.
  split; [|split; [|split]].
  - intros W H HSize HW HH HWp. unfold format_filename.
    assert (Htok : findall pattern_format (list_ascii_of_string "%width%x%height%")
                   = [[list_ascii_of_string "%width%"]; [list_ascii_of_string "%height%"]])
      by (vm_compute; reflexivity).
    assert (Hfirst : forall new,
               replace (list_ascii_of_string "%width%") new
                 (list_ascii_of_string "%width%x%height%")
               = new ++ list_ascii_of_string "x%height%") by reflexivity.
    assert (Htext : list_ascii_of_string (W +:+ "x" +:+ H)
                    = list_ascii_of_string W ++ "x"%char :: list_ascii_of_string H)
      by (rewrite list_ascii_of_string_app; reflexivity).
    rewrite Htok. cbn [map format_segments].
    rewrite format_segment_width by reflexivity.
    rewrite HSize. cbn [default from_option id as_str bind].
    rewrite Htext, split_on_first by assumption. cbn [bind].
    rewrite Hfirst.
    rewrite format_segment_height by reflexivity.
    rewrite HSize. cbn [default from_option id as_str bind].
    rewrite Htext, split_on_first, split_on_absent by assumption. cbn [bind].
    change (list_ascii_of_string "x%height%")
      with (["x"%char] ++ (percent :: list_ascii_of_string "height%") ++ []).
    change (list_ascii_of_string "%height%") with (percent :: list_ascii_of_string "height%").
    rewrite app_assoc, replace_between.
    + rewrite app_nil_r, <- app_assoc. cbn [app].
      rewrite string_of_list_ascii_app. cbn [string_of_list_ascii].
      rewrite !string_of_list_ascii_of_string. reflexivity.
    + intros Hin. apply in_app_or in Hin as [Hin|[Hin|[]]]; [auto|discriminate].
    + simpl. tauto.
  - intros size HSize Hx. rewrite Hw, Hh, HSize. cbn [default from_option id as_str bind].
    rewrite split_on_absent by assumption. cbn [bind]. split; [|reflexivity].
    change ([] ++ list_ascii_of_string "%width%" ++ [])
      with ([] ++ (percent :: list_ascii_of_string "width%") ++ []).
    change (list_ascii_of_string "%width%") with (percent :: list_ascii_of_string "width%").
    rewrite replace_alone, string_of_list_ascii_of_string. reflexivity.
  - intros HSize. rewrite Hw, Hh, HSize. split; reflexivity.
  - intros v HSize Hv. rewrite Hw, Hh, HSize.
    destruct v; try (split; reflexivity). exfalso. eapply Hv. reflexivity.
Qed.

(** *** The model token *)

Lemma is_digit_pydigit (s : list ascii) :
  forallb is_digit s = true -> forallb is_pydigit s = true.
Proof.
  apply forallb_weaken. intros c Hc. unfold is_pydigit. rewrite Hc. reflexivity.
Qed.

(** The parts of a model token with the modifier [m]. *)
Lemma model_token_parts (m : list ascii) :
  ~ In percent m -> ~ In ":"%char m ->
  strip (chr_is percent) (percent :: (list_ascii_of_string "model:" ++ m) ++ [percent])
    = list_ascii_of_string "model:" ++ m
  /\ split_on ":"%char (list_ascii_of_string "model:" ++ m)
     = [list_ascii_of_string "model"; m].
Proof.
  intros Hp Hc. split.
  - apply strip_token; [discriminate|].
    intros Hin. apply in_app_or in Hin as [Hin|Hin]; [|auto].
    simpl in Hin. intuition discriminate.
  - change (list_ascii_of_string "model:" ++ m)
      with (list_ascii_of_string "model" ++ ":"%char :: m).
    rewrite split_on_first by (simpl; intuition discriminate).
    rewrite split_on_absent by assumption. reflexivity.
Qed.

(** X20: the model token with a modifier, "%model:m%", on a record whose
    Model is a string: a modifier that is not a number gives the whole stem
    of the model file; a number n > 0 (of at most 4300 digits, the limit of
    [int] for a literal) gives its first n characters; the number 0 gives
    the whole stem, not the empty text; and a modifier that
    [isdigit] accepts but that holds a superscript digit makes the call
    raise ValueError. Without modifier the token is the whole stem. *)
Theorem model_token_modifier (m path : string) (pnginfo_dict : gmap string pyval) :
  pnginfo_dict !! "Model" = Some (PStr path) ->
  ~ In percent (list_ascii_of_string m) -> ~ In ":"%char (list_ascii_of_string m) ->
  (isdigit (list_ascii_of_string m) = false ->
     fmt ("%model:" +:+ m +:+ "%") pnginfo_dict
     = Ok (string_of_list_ascii (model_stem path)))
  /\ (m <> "" -> forallb is_digit (list_ascii_of_string m) = true ->
      length (list_ascii_of_string m) <= 4300 ->
        fmt ("%model:" +:+ m +:+ "%") pnginfo_dict
        = Ok (string_of_list_ascii
                (if (digits_val (list_ascii_of_string m) =? 0)%Z
                 then model_stem path
                 else firstn (Z.to_nat (digits_val (list_ascii_of_string m)))
                        (model_stem path))))
  /\ (isdigit (list_ascii_of_string m) = true ->
        forallb is_digit (list_ascii_of_string m) = false ->
        exists msg, fmt ("%model:" +:+ m +:+ "%") pnginfo_dict = Raise (ValueError msg))
  /\ fmt "%model%" pnginfo_dict = Ok (string_of_list_ascii (model_stem path)).
Proof.
  intros HModel Hp Hc.
  set (tok := percent :: (list_ascii_of_string "model:" ++ list_ascii_of_string m)
                ++ [percent]).
  assert (Hfmt : fmt ("%model:" +:+ m +:+ "%") pnginfo_dict
                 = (do length <- length_of [list_ascii_of_string "model";
                                            list_ascii_of_string m];
                    Ok (string_of_list_ascii (truncate length (model_stem path))))).
  { change ("%model:" +:+ m +:+ "%") with ("%" +:+ ("model:" +:+ m) +:+ "%").
    rewrite format_plain_token.
    - rewrite list_ascii_of_string_app. fold tok.
      destruct (model_token_parts (list_ascii_of_string m) Hp Hc) as [Hstrip Hsplit].
      rewrite format_segment_model.
      + rewrite HModel. cbn [default from_option id bind]. fold tok in Hstrip. rewrite Hstrip, Hsplit.
        destruct (length_of _) as [len|e]; [|reflexivity]. cbn [bind].
        unfold tok. rewrite replace_alone. reflexivity.
      + unfold token_key. fold tok in Hstrip. rewrite Hstrip, Hsplit. reflexivity.
    - rewrite list_ascii_of_string_app. discriminate.
    - rewrite list_ascii_of_string_app. intros Hin.
      apply in_app_or in Hin as [Hin|Hin]; [|auto].
      simpl in Hin. intuition discriminate. }
  split; [|split; [|split]].
  - intros Hnot. rewrite Hfmt. cbn [length_of]. rewrite Hnot. reflexivity.
  - intros Hne Hdig _. rewrite Hfmt. cbn [length_of].
    destruct (list_ascii_of_string m) as [|c t] eqn:Hm.
    { exfalso. apply Hne. rewrite <- (string_of_list_ascii_of_string m), Hm. reflexivity. }
    assert (His : isdigit (c :: t) = true) by (apply is_digit_pydigit, Hdig).
    rewrite His. unfold py_int. rewrite Hdig. reflexivity.
  - intros His Hnot. rewrite Hfmt. cbn [length_of]. rewrite His.
    unfold py_int. destruct (list_ascii_of_string m); [discriminate|].
    rewrite Hnot. cbn [bind]. eauto.
  - rewrite (format_plain_token "model"); [|discriminate|simpl; intuition discriminate].
    rewrite format_segment_model by reflexivity. rewrite HModel. cbn [default from_option id bind].
    change (strip (chr_is percent) (percent :: list_ascii_of_string "model" ++ [percent]))
      with (list_ascii_of_string "model").
    cbn [split_on list_ascii_of_string Ascii.eqb Bool.eqb length_of bind truncate].
    change (percent :: list_ascii_of_string "model" ++ [percent])
      with (percent :: list_ascii_of_string "model%").
    rewrite replace_alone. reflexivity.
Qed.

(** *** Inserted text *)

Lemma format_segment_pprompt (pnginfo_dict : gmap string pyval)
  (filename segment : list ascii) :
  token_key segment = "pprompt" ->
  format_segment py_repr now pnginfo_dict filename segment
  = (do raw <- as_str (default (PStr "") (pnginfo_dict !! "Positive prompt"));
     do length <- length_of (split_on ":"%char (strip (chr_is percent) segment));
     Ok (replace segment
           (strip is_space (truncate length (replace [ascii_of_nat 10] [" "%char] raw)))
           filename)).
Proof. intros Hkey. enter_branch Hkey. reflexivity. Qed.

(** X21: the tokens are read off the template once, but each one is replaced
    in the text built so far. With the template "%pprompt%_%seed%": a prompt
    without "%" is inserted as it is, and a prompt that itself holds
    "%seed%" has the seed put there too. *)
Theorem inserted_prompt_is_rescanned (p : string) (pnginfo_dict : gmap string pyval) :
  pnginfo_dict !! "Positive prompt" = Some (PStr p) ->
  let seed := py_str py_repr (default (PStr "") (pnginfo_dict !! "Seed")) in
  (~ In percent (prompt_text p) ->
     fmt "%pprompt%_%seed%" pnginfo_dict
     = Ok (string_of_list_ascii (prompt_text p) +:+ "_" +:+ seed))
  /\ (forall a b : list ascii,
        prompt_text p = a ++ list_ascii_of_string "%seed%" ++ b ->
        ~ In percent a -> ~ In percent b ->
        fmt "%pprompt%_%seed%" pnginfo_dict
        = Ok (string_of_list_ascii a +:+ seed +:+ string_of_list_ascii b
              +:+ "_" +:+ seed)).
Proof.
  intros Hp seed.
  assert (Hfmt : fmt "%pprompt%_%seed%" pnginfo_dict
                 = Ok (string_of_list_ascii
                         (replace (list_ascii_of_string "%seed%") (list_ascii_of_string seed)
                            (prompt_text p ++ list_ascii_of_string "_%seed%")))).
  { unfold format_filename.
    assert (Htok : findall pattern_format (list_ascii_of_string "%pprompt%_%seed%")
                   = [[list_ascii_of_string "%pprompt%"]; [list_ascii_of_string "%seed%"]])
      by (vm_compute; reflexivity).
    assert (Hfirst : forall new,
               replace (list_ascii_of_string "%pprompt%") new
                 (list_ascii_of_string "%pprompt%_%seed%")
               = new ++ list_ascii_of_string "_%seed%") by reflexivity.
    assert (Hlen : length_of (split_on ":"%char
                     (strip (chr_is percent) (list_ascii_of_string "%pprompt%")))
                   = Ok None) by reflexivity.
    rewrite Htok. cbn [map format_segments].
    rewrite format_segment_pprompt by reflexivity.
    rewrite Hp. cbn [default from_option id as_str bind].
    rewrite Hlen. cbn [bind truncate]. rewrite Hfirst.
    rewrite format_segment_seed by reflexivity. reflexivity. }
  change (list_ascii_of_string "%seed%") with (percent :: list_ascii_of_string "seed%") in *.
  change (list_ascii_of_string "_%seed%")
    with (["_"%char] ++ (percent :: list_ascii_of_string "seed%") ++ []) in Hfmt.
  split.
  - intros Hq. rewrite Hfmt, app_assoc, replace_between.
    + rewrite app_nil_r, <- app_assoc, string_of_list_ascii_app.
      cbn [app string_of_list_ascii]. rewrite string_of_list_ascii_of_string. reflexivity.
    + intros Hin. apply in_app_or in Hin as [Hin|[Hin|[]]]; [auto|discriminate].
    + simpl. tauto.
  - intros a b Hq Ha Hb. rewrite Hfmt, Hq. unfold replace.
    rewrite <- !app_assoc. rewrite replace_scan_pass by assumption.
    rewrite replace_scan_here.
    rewrite replace_scan_pass by assumption.
    rewrite (replace_scan_pass _ _ _ ["_"%char]) by (intros [Hin|[]]; discriminate).
    rewrite replace_scan_here, replace_scan_nil, app_nil_r.
    rewrite !string_of_list_ascii_app. cbn [string_of_list_ascii].
    rewrite string_of_list_ascii_of_string. reflexivity.
Qed.

End TemplateFacts.

(** *** The stem of a model file *)

Lemma existsb_chr_is_absent (c : ascii) (s : list ascii) :
  ~ In c s -> existsb (chr_is c) s = false.
Proof.
  intros Hs. apply not_true_is_false. intros Hex.
  apply existsb_exists in Hex as (x & Hin & Hx).
  apply chr_is_eq in Hx. subst x. auto.
Qed.

Lemma basename_after_slash (a b : list ascii) :
  ~ In "/"%char b -> basename (a ++ "/"%char :: b) = b.
Proof.
  intros Hb. induction a as [|c a IH]; cbn [app basename].
  - rewrite existsb_chr_is_absent by assumption.
    rewrite (proj2 (chr_is_eq "/"%char "/"%char)) by reflexivity. reflexivity.
  - rewrite existsb_app. cbn [existsb].
    rewrite (proj2 (chr_is_eq "/"%char "/"%char)) by reflexivity.
    rewrite orb_true_r. exact IH.
Qed.

Lemma rfind_dot_absent (s : list ascii) (i : nat) :
  ~ In dot s -> rfind_dot i s = None.
Proof.
  revert i. induction s as [|c s IH]; intros i Hs; [reflexivity|].
  cbn [rfind_dot]. rewrite IH by (intros Hin; apply Hs; simpl; auto).
  destruct (chr_is dot c) eqn:Hc; [|reflexivity].
  apply chr_is_eq in Hc. exfalso. apply Hs. simpl. auto.
Qed.

Lemma rfind_dot_last (n e : list ascii) (i : nat) :
  ~ In dot e -> rfind_dot i (n ++ dot :: e) = Some (i + length n).
Proof.
  intros He. revert i. induction n as [|c n IH]; intros i; cbn [app rfind_dot].
  - rewrite rfind_dot_absent by assumption.
    rewrite (proj2 (chr_is_eq dot dot)) by reflexivity. f_equal. simpl. lia.
  - rewrite IH. f_equal. simpl. lia.
Qed.

Lemma splitext_root_last (n e : list ascii) :
  ~ In dot e ->
  splitext_root (n ++ dot :: e)
  = if forallb (chr_is dot) n then n ++ dot :: e else n.
Proof.
  intros He. unfold splitext_root. rewrite rfind_dot_last by assumption.
  cbn [Nat.add]. rewrite take_app_length. reflexivity.
Qed.

(** X22: the stem the model token uses, for the path dir/name.ext (posix
    separators): the directories and the last extension are dropped, so that
    a name with dots of its own keeps them; a name made of dots only keeps
    its extension; and a file without extension keeps its whole name. *)
Theorem model_stem_of_path (dir name ext : string) :
  ~ In "/"%char (list_ascii_of_string name) ->
  ~ In "/"%char (list_ascii_of_string ext) ->
  ~ In dot (list_ascii_of_string ext) ->
  (forallb (chr_is dot) (list_ascii_of_string name) = false ->
     model_stem (dir +:+ "/" +:+ name +:+ "." +:+ ext) = list_ascii_of_string name)
  /\ (forallb (chr_is dot) (list_ascii_of_string name) = true ->
        model_stem (dir +:+ "/" +:+ name +:+ "." +:+ ext)
        = list_ascii_of_string (name +:+ "." +:+ ext))
  /\ (~ In dot (list_ascii_of_string name) ->
        model_stem (dir +:+ "/" +:+ name) = list_ascii_of_string name).
Proof.
  intros Hname Hext Hdot.
  assert (Hfile : list_ascii_of_string (name +:+ "." +:+ ext)
                  = list_ascii_of_string name ++ dot :: list_ascii_of_string ext)
    by (rewrite list_ascii_of_string_app; reflexivity).
  assert (Hbase : basename (list_ascii_of_string (dir +:+ "/" +:+ name +:+ "." +:+ ext))
                  = list_ascii_of_string name ++ dot :: list_ascii_of_string ext).
  { rewrite list_ascii_of_string_app.
    change (list_ascii_of_string ("/" +:+ name +:+ "." +:+ ext))
      with ("/"%char :: list_ascii_of_string (name +:+ "." +:+ ext)).
    rewrite Hfile. apply basename_after_slash.
    intros Hin. apply in_app_or in Hin as [Hin|[Hin|Hin]]; [auto|discriminate|auto]. }
  unfold model_stem. split; [|split].
  - intros Hsome. rewrite Hbase, splitext_root_last by assumption.
    rewrite Hsome. reflexivity.
  - intros Hall. rewrite Hbase, splitext_root_last by assumption.
    rewrite Hall. symmetry. exact Hfile.
  - intros Hplain. rewrite list_ascii_of_string_app.
    change (list_ascii_of_string ("/" +:+ name)) with ("/"%char :: list_ascii_of_string name).
    rewrite basename_after_slash by assumption.
    unfold splitext_root. rewrite rfind_dot_absent by assumption. reflexivity.
Qed.

(** ** Instances *)

Lemma parse_lora_hub_data_raises_witness :
  exists e, parse_lora_hub_data {[ "loras_2" := PList [] ]} = Raise e.
Proof.
  destruct (parse_lora_hub_data_raises {[ "loras_2" := PList [] ]}) as [_ [_ Hraise]].
  apply Hraise. exists 2. split; [simpl; auto|reflexivity].
Defined.

Lemma parsed_names_are_clean_witness :
  Forall (fun d => clean_name (list_ascii_of_string (name d)))
    [ {| name := "a"; strength := 1 |}; {| name := "b"; strength := 2 |} ].
Proof.
  apply (parsed_names_are_clean two_loras). vm_compute. reflexivity.
Defined.

Lemma clip_names_are_the_kept_slots_witness :
  PList [PStr "clip_l.safetensors"] = PNone
  \/ exists v1 v2 v3 l,
       load_mode separate_inputs = Ok (PStr "separate_components")
       /\ get_slot0 separate_inputs "clip_model_1" = Ok v1
       /\ get_slot0 separate_inputs "clip_model_2" = Ok v2
       /\ get_slot0 separate_inputs "clip_model_3" = Ok v3
       /\ l = List.filter kept_clip_name [v1; v2; v3]
       /\ PList [PStr "clip_l.safetensors"] = PList l
       /\ 1 <= length l <= 3
       /\ Forall (fun n => py_truthy n = true /\ n <> PStr "None") l.
Proof.
  apply (clip_names_are_the_kept_slots separate_inputs). reflexivity.
Defined.

Lemma clip_hashes_follow_clip_names_witness :
  (PList [PStr "0123456789"] = PNone /\ get_clip_names separate_inputs = Ok PNone)
  \/ exists l hs, get_clip_names separate_inputs = Ok (PList l)
       /\ PList [PStr "0123456789"] = PList hs
       /\ Forall2 (fun n h => constant_hash n = Ok h) l hs.
Proof.
  destruct (clip_hashes_follow_clip_names constant_hash separate_inputs) as [Hok _].
  apply Hok. reflexivity.
Defined.

Lemma passthrough_reads_the_metadata_witness :
  get_metadata_field "vae_name" metadata_inputs = Ok (PStr "vae.safetensors").
Proof.
  destruct (passthrough_reads_the_metadata constant_hash constant_hash constant_hash
              partial_lora_hash metadata_inputs (Meta VAE_NAME) "vae_name"
              (get_metadata_field "vae_name")) as (_ & Hdict & _).
  - simpl. auto.
  - reflexivity.
  - exact (Hdict _ [] eq_refl).
Defined.

Lemma bare_string_load_mode_witness :
  get_model_name bare_mode_inputs = Ok (PStr "unet.safetensors").
Proof.
  destruct (bare_string_load_mode constant_hash constant_hash constant_hash
              partial_lora_hash bare_mode_inputs "full_checkpoint") as (_ & _ & Hread).
  - reflexivity.
  - apply (Hread ltac:(discriminate) (PStr "unet.safetensors") []). reflexivity.
Defined.

Lemma create_extra_metadata_keys_witness :
  (forall k, is_Some (({[ "a" := "b" ]} : gmap string string) !! k)
             <-> is_Some ((∅ : gmap string string) !! k)
                 \/ exists i, In i [1; 2; 3; 4]%nat /\ writes one_pair i k)
  /\ ((∅ : gmap string string) !! "" = None
      -> ({[ "a" := "b" ]} : gmap string string) !! "" = None).
Proof.
  apply (create_extra_metadata_keys one_pair None). vm_compute. reflexivity.
Defined.

Lemma create_extra_metadata_idempotent_witness :
  create_extra_metadata (Some {[ "a" := "b" ]}) one_pair = Ok {[ "a" := "b" ]}.
Proof.
  apply (create_extra_metadata_idempotent one_pair None). vm_compute. reflexivity.
Defined.

Lemma parse_output_format_suffix_witness :
  parse_output_format "webp" = ("webp", false)
  /\ parse_output_format ("webp" +:+ "_with_json") = ("webp", true).
Proof.
  apply (parse_output_format_suffix "webp"). simpl. intuition discriminate.
Defined.

Lemma quality_value_range_witness :
  (80 = 100 \/ 80 = 80 \/ 80 = 60 \/ 80 = 30)%Z.
Proof.
  destruct (quality_value_range (PStr "high")) as [Hrange _].
  apply Hrange. reflexivity.
Defined.

Lemma find_next_available_filename_fresh_witness :
  exists counter,
    find_next_available_filename {[ "img_1" ]} "img" "png" 2
      = Some (numbered "img" counter +:+ "." +:+ "png")
    /\ 1 <= counter <= S (size ({[ "img_1" ]} : gset string))
    /\ (numbered "img" counter ∉ ({[ "img_1" ]} : gset string))
    /\ (forall j, 1 <= j < counter -> numbered "img" j ∈ ({[ "img_1" ]} : gset string))
    /\ forall fuel', 2 <= fuel' ->
         find_next_available_filename {[ "img_1" ]} "img" "png" fuel'
         = find_next_available_filename {[ "img_1" ]} "img" "png" 2.
Proof.
  apply (find_next_available_filename_fresh {[ "img_1" ]} "img" "png" 2).
  rewrite size_singleton. lia.
Defined.

Lemma prepare_pnginfo_adds_chunks_witness :
  exists h',
    prepare_pnginfo no_text no_parameters 1 0 0 3 None None "full" sample_heap
      = (Ok (Some 1), h')
    /\ h' !! 1 = Some (OPngInfo ([] ++ [("parameters", "")]))
    /\ h' !! 0 = Some (ODict sample_record).
Proof.
  apply (prepare_pnginfo_adds_chunks no_text no_parameters 1 0 0 3 None None "full"
           sample_heap sample_record [] [("parameters", "")]).
  - reflexivity.
  - reflexivity.
  - discriminate.
  - reflexivity.
Defined.

Lemma prepare_batch_accumulates_witness :
  exists h',
    prepare_batch no_text no_parameters 1 0 [0; 1] 2 None None "full" [("k", PStr "v")]
      sample_heap
      = (Ok tt, h')
    /\ h' !! 1
       = Some (OPngInfo ([] ++ concat (map (fun new => new ++ [("k", "v")])
                                         [[("parameters", "")]; [("parameters", "")]])))
    /\ h' !! 0 = Some (ODict sample_record).
Proof.
  apply (prepare_batch_accumulates no_text no_parameters 1 0 [0; 1] 2 None None "full"
           [("k", PStr "v")] sample_heap sample_record []
           [[("parameters", "")]; [("parameters", "")]] [("k", "v")]).
  - reflexivity.
  - reflexivity.
  - discriminate.
  - reflexivity.
  - reflexivity.
Defined.

Lemma scope_none_rejects_extra_metadata_witness :
  image_metadata no_text no_parameters 1 0 0 1 None None "none" [("k", PStr "v")]
    sample_heap
  = (Raise AttributeError, sample_heap).
Proof.
  destruct (scope_none_rejects_extra_metadata no_text no_parameters 1 0 0 1 None None
              [("k", PStr "v")] sample_heap) as [Hraise _].
  apply Hraise. apply Exists_cons_hd. discriminate.
Defined.

Lemma image_metadata_adds_extra_witness :
  exists h',
    image_metadata no_text no_parameters 1 0 0 1 None None "full" [("k", PStr "v")]
      sample_heap
    = (Ok (Some 1), h')
    /\ h' !! 1 = Some (OPngInfo ([] ++ [("parameters", "")] ++ [("k", "v")]))
    /\ h' !! 0 = Some (ODict sample_record).
Proof.
  apply (image_metadata_adds_extra no_text no_parameters 1 0 0 1 None None "full"
           [("k", PStr "v")] sample_heap sample_record [] [("parameters", "")]
           [("k", "v")]).
  - reflexivity.
  - reflexivity.
  - discriminate.
  - reflexivity.
  - reflexivity.
Defined.

Lemma unrecognised_tokens_are_kept_witness :
  format_filename plain_repr sample_now "ComfyUI_%batch%" sample_record
  = Ok "ComfyUI_%batch%".
Proof.
  destruct (unrecognised_tokens_are_kept plain_repr sample_now "ComfyUI_%batch%"
              sample_record) as [Hkept _].
  apply Hkept. repeat constructor.
Defined.

Lemma seed_token_in_context_witness :
  format_filename plain_repr sample_now ("img_" +:+ "%seed%" +:+ "_final") sample_record
  = Ok ("img_" +:+ py_str plain_repr (default (PStr "") (sample_record !! "Seed"))
        +:+ "_final").
Proof.
  apply (seed_token_in_context plain_repr sample_now "img_" "_final" sample_record);
    simpl; intuition discriminate.
Defined.

Lemma size_tokens_witness :
  format_filename plain_repr sample_now "%width%x%height%" sample_record
  = Ok ("512" +:+ "x" +:+ "768").
Proof.
  destruct (size_tokens plain_repr sample_now sample_record) as [Hsize _].
  apply (Hsize "512" "768"); [reflexivity| | |]; simpl; intuition discriminate.
Defined.

Lemma model_token_modifier_witness :
  format_filename plain_repr sample_now ("%model:" +:+ "3" +:+ "%") sample_record
  = Ok "myM".
Proof.
  destruct (model_token_modifier plain_repr sample_now "3" "path/to/myModel.safetensors"
              sample_record) as (_ & Hcut & _).
  - reflexivity.
  - simpl. intuition discriminate.
  - simpl. intuition discriminate.
  - apply Hcut; [discriminate|reflexivity|simpl; lia].
Defined.

Lemma inserted_prompt_is_rescanned_witness :
  format_filename plain_repr sample_now "%pprompt%_%seed%" seed_in_prompt_record
  = Ok "7_7".
Proof.
  destruct (inserted_prompt_is_rescanned plain_repr sample_now "%seed%"
              seed_in_prompt_record) as [_ Hseed].
  - reflexivity.
  - apply (Hseed [] []); [reflexivity|simpl; tauto|simpl; tauto].
Defined.

Lemma model_stem_of_path_witness :
  model_stem ("models/sd" +:+ "/" +:+ "v1.5" +:+ "." +:+ "safetensors")
  = list_ascii_of_string "v1.5".
Proof.
  destruct (model_stem_of_path "models/sd" "v1.5" "safetensors") as [Hstem _].
  - simpl. intuition discriminate.
  - simpl. intuition discriminate.
  - simpl. intuition discriminate.
  - apply Hstem. reflexivity.
Defined.
